(** * taco-performance: the request scheduling engine and the statistics layer

    A shallow embedding of [src/runner.ts] (the test execution engine) and of
    the interfaces of [src/types.ts].

    Conventions of the embedding.
    - A JavaScript [number] that holds a millisecond timestamp, a duration, a
      counter or an index is a [Z] or a [nat]; a [number] that may be
      fractional (a rate, a mean, elapsed seconds) is a rational [Q].
      Where a result of the runner turns on the rounding of doubles (the
      statistics, the number of requests a run is sized for) the arithmetic
      is that of [Double], which rounds as IEEE 754 binary64 does; elsewhere
      arithmetic on [Q] is exact.
    - An [undefined]-able field is an [option].
    - [Array.prototype.sort] is the stable sort of ECMAScript 2019, driven by
      the comparator the source passes to it.
    - A [Map] is an association list in insertion order, which is the order
      JavaScript iterates it in.
    - Asynchronous code is a step function on an explicit state, driven by a
      schedule of events chosen by the environment (timer wake-ups, promise
      settlements); [None] is a schedule the event loop cannot produce. *)

From Stdlib Require Import String Ascii DecimalString.
From Stdlib Require Import List ZArith QArith Qround Bool Lia Arith.
From Stdlib Require Import Permutation Sorted Lqa.
Import ListNotations.

Set Implicit Arguments.
Set Warnings "-register-all".

(** ** JavaScript primitives used by the runner *)

Module Js.

(** [Array.prototype.sort(cmp)]: a stable sort; [cmp a b > 0] puts [a] after
    [b].  Insertion from the right keeps equal elements in their order. *)
Section Sort.
Variable A : Type.
Variable cmp : A -> A -> Z.

Fixpoint insert (x : A) (l : list A) : list A :=
  match l with
  | [] => [x]
  | y :: l' => if (cmp x y <=? 0)%Z then x :: y :: l' else y :: insert x l'
  end.

Fixpoint Array_sort (l : list A) : list A :=
  match l with
  | [] => []
  | x :: l' => insert x (Array_sort l')
  end.
End Sort.

(** [Math.round]: nearest integer, halves go up. *)
Definition Math_round (x : Q) : Z := Qfloor (x + (1 # 2)).

Definition Math_ceil (x : Q) : Z := Qceiling x.

Definition Math_floor (x : Q) : Z := Qfloor x.

(** [Math.round(Math.sqrt(x))].  The square root of a rational is not
    rational in general, so the composition is embedded as one function: the
    integer [r] with [r - 1/2 <= sqrt x < r + 1/2], computed through the
    integer square root of [floor (4 x)]. *)
Definition Math_round_sqrt (x : Q) : Z := ((Z.sqrt (Qfloor (4 * x)) + 1) / 2)%Z.

(** [a.reduce((acc, b) => f(acc, b), init)] *)
Definition reduce {A B : Type} (f : B -> A -> B) (init : B) (a : list A) : B :=
  fold_left f a init.

(** [a.slice(-n)]: the last [n] elements, or all of them. *)
Definition slice_last {A : Type} (n : nat) (a : list A) : list A :=
  skipn (length a - n) a.

(** [Math.max(a, b)] *)
Definition Math_max (a b : Q) : Q := if Qle_bool a b then b else a.

(** [x || d] on a number: [0] is falsy, like [undefined]. *)
Definition or_default (x : option Q) (d : Q) : Q :=
  match x with
  | Some v => if Qeq_bool v 0 then d else v
  | None => d
  end.

(** How a piece of code ends: with a value, or by throwing. *)
Inductive Completion (A : Type) : Type :=
| Normal (a : A)
| Throw (what : string).
Arguments Normal {A} a.
Arguments Throw {A} what.

Definition bind {A B : Type} (c : Completion A) (k : A -> Completion B) : Completion B :=
  match c with
  | Normal a => k a
  | Throw e => Throw e
  end.

(** [try { body } catch { handler }] *)
Definition try_catch {A : Type} (body : Completion A) (handler : string -> Completion A)
  : Completion A :=
  match body with
  | Normal a => Normal a
  | Throw e => handler e
  end.

End Js.

Notation "x <- c ;; k" := (Js.bind c (fun x => k))
  (at level 61, c at next level, right associativity).

(** ** Interfaces of types.ts *)

Module Stats.
Record t : Set := mk
  { min : Z; max : Z; mean : Z; p50 : Z; p95 : Z; p99 : Z; stdDev : Z }.
End Stats.

(** ** Statistics *)

Section CalculateStats.
Import Js.

(** [calculateStats] in exact arithmetic; [Double.calculateStats] below is
    the function in double precision, with which it agrees on [min], [max],
    [mean] and the percentiles. *)
Definition calculateStats (values : list Z) : Stats.t :=
  match values with
  | [] => Stats.mk 0 0 0 0 0 0 0
  | _ :: _ =>
      let sorted := Array_sort (fun a b => a - b)%Z values in
      let len := Z.of_nat (length sorted) in
      let sum := reduce Z.add 0%Z sorted in
      let mean := inject_Z sum / inject_Z len in
      let squaredDiffs := map (fun v => (inject_Z v - mean) ^ 2) sorted in
      let avgSquaredDiff := reduce Qplus 0 squaredDiffs / inject_Z len in
      let percentile (p : Z) :=
        let index := (Math_ceil ((inject_Z p / 100) * inject_Z len) - 1)%Z in
        nth (Z.to_nat (Z.max 0 (Z.min index (len - 1)))) sorted 0%Z in
      Stats.mk
        (nth 0 sorted 0%Z)
        (nth (length sorted - 1) sorted 0%Z)
        (Math_round mean)
        (percentile 50%Z)
        (percentile 95%Z)
        (percentile 99%Z)
        (Math_round_sqrt avgSquaredDiff)
  end.

End CalculateStats.

(** The reference definition of the statistics, in the words of the
    specification: the arithmetic mean, the population variance (divide by
    [N]) and the nearest-rank index [ceil (p/100 * N) - 1] clamped to
    [0 .. N-1]. *)






(** [z] is [x] rounded to the nearest integer (halves go up). *)
Definition is_rounding_of (z : Z) (x : Q) : Prop :=
  inject_Z z - (1 # 2) <= x /\ x < inject_Z z + (1 # 2).



(** ** Double precision *)

From Stdlib Require Import Qpower Qabs Qreduction.

(** The arithmetic of IEEE 754 binary64, on the rationals the doubles are:
    an operation gives the double nearest to the exact result, a tie going
    to the one with an even significand.  The exponent is bounded below, as
    that of a double is (the subnormal range); it is not bounded above:
    there is no [Infinity] and no [NaN] among the rationals, and none arises
    from the latencies, counts and rates the runner computes with. *)
Module Double.

(** [2 ^ e], for an exponent of either sign *)
Definition pow2 (e : Z) : Q :=
  match e with
  | Z0 => 1
  | Zpos p => inject_Z (Zpos (2 ^ p))
  | Zneg p => 1 # (2 ^ p)
  end.

(** The exponent [E] with [2 ^ E <= x < 2 ^ (E + 1)], for a positive [x] *)
Definition floor_log2 (x : Q) : Z :=
  let k := (Z.log2 (Qnum x) - Z.log2 (Zpos (Qden x)))%Z in
  if Qle_bool (pow2 k) x then k else (k - 1)%Z.

(** The nearest integer, a tie going to the even one *)
Definition nearest_even (y : Q) : Z :=
  let f := Qfloor y in
  match Qcompare (y - inject_Z f) (1 # 2) with
  | Lt => f
  | Gt => (f + 1)%Z
  | Eq => if Z.even f then f else (f + 1)%Z
  end.

(** The least exponent of the unit in the last place *)
Definition emin : Z := (-1074)%Z.

(** A positive [x] to 53 significant bits *)
Definition round_pos (x : Q) : Q :=
  let e := Z.max (floor_log2 x - 52) emin in
  inject_Z (nearest_even (x / pow2 e)) * pow2 e.

(** The double nearest to [x]: what a decimal of the command line or of the
    configuration file is read as, and what every operation returns. *)
Definition round (x : Q) : Q :=
  let x := Qred x in
  Qred match Qnum x with
       | Z0 => 0
       | Zpos _ => round_pos x
       | Zneg _ => - round_pos (- x)
       end.


(** [a + b], [a - b], [a * b], [a / b] on doubles *)
Definition add (a b : Q) : Q := round (a + b).
Definition sub (a b : Q) : Q := round (a - b).
Definition mul (a b : Q) : Q := round (a * b).
Definition div (a b : Q) : Q := round (a / b).

(** [Math.pow(x, 2)]: the engine returns [x * x] for the exponent 2. *)
Definition Math_pow_2 (x : Q) : Q := mul x x.

(** [Math.sqrt(x)], correctly rounded as IEEE 754 requires; it is only
    applied to a sum of squares, which is not negative. *)
Definition Math_sqrt (x : Q) : Q :=
  let x := Qred x in
  match Qnum x with
  | Zpos _ =>
      let e := (floor_log2 x / 2 - 52)%Z in
      let y := x / pow2 (2 * e) in
      let s := Z.sqrt (Qfloor y) in
      let m :=
        match Qcompare y ((inject_Z s + (1 # 2)) * (inject_Z s + (1 # 2))) with
        | Lt => s
        | Gt => (s + 1)%Z
        | Eq => if Z.even s then s else (s + 1)%Z
        end in
      Qred (inject_Z m * pow2 e)
  | _ => 0
  end.

(** [calculateStats] as it runs: the sum, the mean, the squared differences,
    their average, the square root and the index of a percentile are
    computed in double precision; [Math.round] and [Math.ceil] of a double
    are exact. *)
Definition calculateStats (values : list Z) : Stats.t :=
  match values with
  | [] => Stats.mk 0 0 0 0 0 0 0
  | _ :: _ =>
      let sorted := Js.Array_sort (fun a b => a - b)%Z values in
      let len := inject_Z (Z.of_nat (length sorted)) in
      let sum := Js.reduce (fun a b => add a (inject_Z b)) 0 sorted in
      let mean := div sum len in
      let squaredDiffs := map (fun v => Math_pow_2 (sub (inject_Z v) mean)) sorted in
      let avgSquaredDiff := div (Js.reduce add 0 squaredDiffs) len in
      let stdDev := Math_sqrt avgSquaredDiff in
      let percentile (p : Z) :=
        let index := (Js.Math_ceil (mul (div (inject_Z p) 100) len) - 1)%Z in
        nth (Z.to_nat (Z.max 0 (Z.min index (Z.of_nat (length sorted) - 1)))) sorted 0%Z in
      Stats.mk
        (nth 0 sorted 0%Z)
        (nth (length sorted - 1) sorted 0%Z)
        (Js.Math_round mean)
        (percentile 50%Z)
        (percentile 95%Z)
        (percentile 99%Z)
        (Js.Math_round stdDev)
  end.

End Double.


(** ** Interfaces of types.ts: execution *)

Module PreparedPayload.
(** The fields the request executor looks at; the account, the calls and the
    user operation are opaque to it. *)
Record t : Set := mk
  { name : option string;
    recipientAA : string;
    discordContext : option (string * string * string) }.
End PreparedPayload.

Module RequestResult.
Record t : Set := mk
  { index : nat;
    startTime : Z;
    endTime : Z;
    duration : Z;
    success : bool;
    error : option string;
    tacoSigningTimeMs : option Z }.

Definition set_index (i : nat) (r : t) : t :=
  mk i (startTime r) (endTime r) (duration r) (success r) (error r) (tacoSigningTimeMs r).
End RequestResult.

Module TimelineRequest.
Record t : Set := mk
  { index : nat;
    timestamp : Z;
    elapsedSec : Q;
    duration : Z;
    tacoSigningTimeMs : option Z;
    success : bool;
    error : option string;
    inFlight : nat }.
End TimelineRequest.

Inductive StopReason : Set :=
| duration_reached        (* "duration" *)
| consecutive_failures    (* "consecutive-failures" *)
| completed.              (* "completed" *)

Definition StopReason_eqb (a b : StopReason) : bool :=
  match a, b with
  | duration_reached, duration_reached
  | consecutive_failures, consecutive_failures
  | completed, completed => true
  | _, _ => false
  end.

Module SteadyModeOptions.
Record t : Set := mk
  { rate : Q;
    duration : option Q;
    requestCount : option Q;
    maxDuration : option Q;
    maxConsecutiveFailures : option Q }.
End SteadyModeOptions.

Module SteadyModeResult.
Record t : Set := mk
  { results : list RequestResult.t;
    timeline : list TimelineRequest.t;
    stopReason : StopReason;
    consecutiveFailuresAtStop : option nat }.
End SteadyModeResult.

(** ** Request executor *)

Module Executor.

(** What a [catch] clause receives: an [Error] with its message, or any other
    value with its [String(...)] rendering. *)
Inductive Thrown : Set :=
| ErrorObject (message : string)
| OtherValue (rendering : string).

(** [error instanceof Error ? error.message : String(error)] *)
Definition errorMessage (e : Thrown) : string :=
  match e with
  | ErrorObject m => m
  | OtherValue s => s
  end.

(** The state of a promise at the moment it is looked at. *)
Inductive Promise (A : Type) : Type :=
| Fulfilled (a : A)
| Rejected (e : Thrown)
| Pending.
Arguments Fulfilled {A} a.
Arguments Rejected {A} e.
Arguments Pending {A}.

(** What the opaque signing layer does for one request, with the readings of
    [Date.now()] taken along the way.  [StillSigning] is an operation that
    has not settled when the timeout timer fires; whatever it does later is
    discarded by [Promise.race]. *)
Inductive Signing : Set :=
| ContextThrows (e : Thrown) (caughtAt : Z)
| SignResolves (tacoStartTime tacoDoneAt endTime : Z)
| SignRejects (tacoStartTime : Z) (e : Thrown) (caughtAt : Z)
| StillSigning.

(** Whether the signing layer threw, and what. *)
Definition threw (signing : Signing) : option Thrown :=
  match signing with
  | ContextThrows e _ | SignRejects _ e _ => Some e
  | SignResolves _ _ _ | StillSigning => None
  end.

(** [withTimeout(promise, timeoutMs, errorMessage)]: the race between the
    promise and a timer that rejects with [new Error(errorMessage)]. *)
Definition withTimeout {A : Type} (promise : Promise A) (errorMessage : string)
  : Promise A :=
  match promise with
  | Pending => Rejected (ErrorObject errorMessage)
  | settled => settled
  end.

Definition executeSigningRequestInner
  (prepared : PreparedPayload.t) (startTime : Z) (signing : Signing)
  : Promise RequestResult.t :=
  match signing with
  | ContextThrows e endTime =>
      (* buildSigningContext threw before the signing step was reached *)
      Fulfilled (RequestResult.mk 0 startTime endTime (endTime - startTime) false
                   (Some ("[taco-signing] " ++ errorMessage e)%string) None)
  | SignResolves tacoStartTime tacoDoneAt endTime =>
      Fulfilled (RequestResult.mk 0 startTime endTime (endTime - startTime) true
                   None (Some (tacoDoneAt - tacoStartTime)%Z))
  | SignRejects tacoStartTime e endTime =>
      Fulfilled (RequestResult.mk 0 startTime endTime (endTime - startTime) false
                   (Some ("[taco-signing] " ++ errorMessage e)%string) None)
  | StillSigning => Pending
  end.

(** [String(n)] for an integer. *)
Definition String_of_Z (n : Z) : string :=
  DecimalString.NilZero.string_of_int (Z.to_int n).

Section Execute.
(** The process-wide [REQUEST_TIMEOUT_SECONDS]. *)
Variable REQUEST_TIMEOUT_SECONDS : Z.

(** [executeSigningRequest]: [startTime] is the reading of [Date.now()] on
    entry, [now1] and [now2] the two readings taken in the [catch] clause. *)
Definition executeSigningRequest
  (prepared : PreparedPayload.t) (startTime : Z) (signing : Signing) (now1 now2 : Z)
  : Promise RequestResult.t :=
  match
    withTimeout (executeSigningRequestInner prepared startTime signing)
      ("Request timed out after " ++ String_of_Z REQUEST_TIMEOUT_SECONDS ++ "s")%string
  with
  | Fulfilled r => Fulfilled r
  | Rejected error =>
      Fulfilled (RequestResult.mk 0 startTime now2 (now1 - startTime) false
                   (Some ("[timeout] " ++ errorMessage error)%string) None)
  | Pending => Pending
  end.
End Execute.

End Executor.

(** ** Rate controllers: steady mode *)

Module Steady.
Local Open Scope nat_scope.

(** Where the body of [runSteadyMode] stands. *)
Inductive Phase : Set :=
| Looping                          (* running the [while] loop, its test is next *)
| Sleeping                         (* suspended in [await sleep(waitTime)] *)
| Draining (remaining : list nat)  (* suspended in [await Promise.all(...)] *)
| Returned (result : StopReason * option nat).
                                   (* returned; [stopReason] and
                                      [consecutiveFailuresAtStop] as copied
                                      into the result object *)

(** The variables of [runSteadyMode].  [results], [timeline] and
    [pendingRequests] are shared with the completion callbacks, which go on
    updating them after the function has returned.  [pendingRequests] lists
    the keys of the map in insertion order; [fulfilled] holds the value of
    every [requestPromise] that has resolved.  [dispatched] is a log, not a
    variable of the program: the index given to each call of
    [executeSigningRequest] and the payload passed to it. *)
Record State : Set := mk
  { payloadIndex : nat;
    completedCount : nat;
    consecutiveFailures : nat;
    results : list RequestResult.t;
    timeline : list TimelineRequest.t;
    pendingRequests : list nat;
    nextRequestIndex : nat;
    stopReason : StopReason;
    shouldStop : bool;
    phase : Phase;
    fulfilled : list (nat * RequestResult.t);
    dispatched : list (nat * option PreparedPayload.t) }.

(** What the event loop runs next. *)
Inductive Event : Set :=
| LoopTurn (nowTop nowAfter : Z)
    (* one iteration of the [while] loop, entered at the start or when the
       sleep timer fires; the two readings of [Date.now()] it takes *)
| Settle (requestIndex : nat) (result : RequestResult.t).
    (* the promise of [executeSigningRequest] for this request fulfils with
       [result] and its [then] callback runs *)

Definition initial : State :=
  mk 0 0 0 [] [] [] 0 completed false Looping [] [].

Definition set_phase (p : Phase) (st : State) : State :=
  mk (payloadIndex st) (completedCount st) (consecutiveFailures st) (results st)
     (timeline st) (pendingRequests st) (nextRequestIndex st) (stopReason st)
     (shouldStop st) p (fulfilled st) (dispatched st).

Definition set_stopReason (r : StopReason) (st : State) : State :=
  mk (payloadIndex st) (completedCount st) (consecutiveFailures st) (results st)
     (timeline st) (pendingRequests st) (nextRequestIndex st) r
     (shouldStop st) (phase st) (fulfilled st) (dispatched st).

Definition set_shouldStop (b : bool) (st : State) : State :=
  mk (payloadIndex st) (completedCount st) (consecutiveFailures st) (results st)
     (timeline st) (pendingRequests st) (nextRequestIndex st) (stopReason st)
     b (phase st) (fulfilled st) (dispatched st).

(** [results.find((r) => r.index === i)], as a truth value *)
Definition found (i : nat) (rs : list RequestResult.t) : bool :=
  existsb (fun r => RequestResult.index r =? i) rs.

Fixpoint lookup (i : nat) (m : list (nat * RequestResult.t)) : option RequestResult.t :=
  match m with
  | [] => None
  | (k, v) :: m' => if k =? i then Some v else lookup i m'
  end.

(** [pendingRequests.delete(i)] *)
Definition delete (i : nat) (keys : list nat) : list nat :=
  filter (fun k => negb (k =? i)) keys.

Definition member (i : nat) (keys : list nat) : bool :=
  existsb (fun k => k =? i) keys.

Section Run.
Variable preparedPayloads : list PreparedPayload.t.
Variable options : SteadyModeOptions.t.
(** The reading of [Date.now()] taken before the loop. *)
Variable testStartTime : Z.

Definition rate : Q := SteadyModeOptions.rate options.
Definition maxDuration : option Q := SteadyModeOptions.maxDuration options.
Definition maxConsecutiveFailures : option Q :=
  SteadyModeOptions.maxConsecutiveFailures options.

Definition intervalMs : Q := (1000 / rate)%Q.

Definition hasStopConditions : bool :=
  match maxDuration, maxConsecutiveFailures with
  | None, None => false
  | _, _ => true
  end.

(** [requestCount ?? Math.floor((duration || 60) * rate)]: the product is
    the one of the doubles [duration] and [rate] are, rounded to a double. *)
Definition totalRequests : option Q :=
  if negb hasStopConditions then
    Some match SteadyModeOptions.requestCount options with
         | Some requestCount => requestCount
         | None =>
             inject_Z (Js.Math_floor
                         (Double.mul
                            (Js.or_default
                               (option_map Double.round (SteadyModeOptions.duration options))
                               60)
                            (Double.round rate)))
         end
  else None.

(** The closure [processResult]: the updated variables and its return value. *)
Definition processResult (st : State) (result : RequestResult.t) : State * bool :=
  let completedCount' := S (completedCount st) in
  let results' := results st ++ [result] in
  let consecutiveFailures' :=
    if RequestResult.success result then 0 else S (consecutiveFailures st) in
  let elapsed := (inject_Z (RequestResult.endTime result - testStartTime) / 1000)%Q in
  let inFlight := length (pendingRequests st) in
  let timeline' :=
    timeline st ++
    [TimelineRequest.mk (RequestResult.index result) (RequestResult.endTime result)
       elapsed (RequestResult.duration result) (RequestResult.tacoSigningTimeMs result)
       (RequestResult.success result) (RequestResult.error result) inFlight] in
  let st' :=
    mk (payloadIndex st) completedCount' consecutiveFailures' results' timeline'
       (pendingRequests st) (nextRequestIndex st) (stopReason st) (shouldStop st)
       (phase st) (fulfilled st) (dispatched st) in
  match maxConsecutiveFailures with
  | Some m =>
      if Qle_bool m (inject_Z (Z.of_nat consecutiveFailures'))
      then (set_stopReason consecutive_failures st', true)
      else (st', false)
  | None => (st', false)
  end.

(** The [then] callback attached to a request when it is dispatched. *)
Definition onFulfilled (requestIndex : nat) (raw : RequestResult.t) (st : State) : State :=
  let result := RequestResult.set_index requestIndex raw in
  let st1 :=
    mk (payloadIndex st) (completedCount st) (consecutiveFailures st) (results st)
       (timeline st) (delete requestIndex (pendingRequests st)) (nextRequestIndex st)
       (stopReason st) (shouldStop st) (phase st)
       (fulfilled st ++ [(requestIndex, result)]) (dispatched st) in
  let (st2, stop) := processResult st1 result in
  set_shouldStop stop st2.

(** The [return] statement. *)
Definition finish (st : State) : State :=
  set_phase
    (Returned (stopReason st,
               if StopReason_eqb (stopReason st) consecutive_failures
               then Some (consecutiveFailures st) else None))
    st.

(** The loop over [remaining] once [Promise.all] has resolved. *)
Definition recordRemaining (remaining : list nat) (st : State) : State :=
  fold_left
    (fun st i =>
       match lookup i (fulfilled st) with
       | Some result =>
           if negb (found (RequestResult.index result) (results st))
           then fst (processResult st result)
           else st
       | None => st
       end)
    remaining st.

(** The code after the loop, up to the [await] or the [return]. *)
Definition afterLoop (st : State) : State :=
  match pendingRequests st with
  | [] => finish st
  | _ :: _ =>
      if negb (StopReason_eqb (stopReason st) completed)
      then finish st                                   (* abandon what is in flight *)
      else set_phase (Draining (pendingRequests st)) st
  end.

(** One iteration of the [while] loop. *)
Definition loopTurn (nowTop nowAfter : Z) (st : State) : State :=
  if shouldStop st then afterLoop st else
  let elapsedSec := (inject_Z (nowTop - testStartTime) / 1000)%Q in
  if match maxDuration with
     | Some maxDuration => Qle_bool maxDuration elapsedSec
     | None => false
     end
  then afterLoop (set_stopReason duration_reached st) else
  if match totalRequests with
     | Some totalRequests => Qle_bool totalRequests (inject_Z (Z.of_nat (nextRequestIndex st)))
     | None => false
     end
  then afterLoop st else
  let prepared := nth_error preparedPayloads (payloadIndex st mod length preparedPayloads) in
  let requestIndex := nextRequestIndex st in
  let nextRequestIndex' := S (nextRequestIndex st) in
  let elapsed := inject_Z (nowAfter - testStartTime) in
  let expectedElapsed := (inject_Z (Z.of_nat nextRequestIndex') * intervalMs)%Q in
  let waitTime := Js.Math_max 0 (expectedElapsed - elapsed)%Q in
  mk (S (payloadIndex st)) (completedCount st) (consecutiveFailures st) (results st)
     (timeline st) (pendingRequests st ++ [requestIndex]) nextRequestIndex'
     (stopReason st) (shouldStop st)
     (if Qle_bool waitTime 0%Q then Looping else Sleeping)
     (fulfilled st) (dispatched st ++ [(requestIndex, prepared)]).

(** One event.  A loop turn needs the loop to be running or asleep; a promise
    can only settle while the function is suspended or has returned, and only
    if it is still pending. *)
Definition step (st : State) (ev : Event) : option State :=
  match ev, phase st with
  | LoopTurn nowTop nowAfter, (Looping | Sleeping) => Some (loopTurn nowTop nowAfter st)
  | LoopTurn _ _, _ => None
  | Settle _ _, Looping => None
  | Settle i raw, Sleeping =>
      if member i (pendingRequests st) then Some (onFulfilled i raw st) else None
  | Settle i raw, Draining remaining =>
      if member i (pendingRequests st) then
        let st' := onFulfilled i raw st in
        match pendingRequests st' with
        | [] => Some (finish (recordRemaining remaining st'))
        | _ :: _ => Some st'
        end
      else None
  | Settle i raw, Returned _ =>
      if member i (pendingRequests st) then Some (onFulfilled i raw st) else None
  end.

Fixpoint run (schedule : list Event) (st : State) : option State :=
  match schedule with
  | [] => Some st
  | ev :: schedule' =>
      match step st ev with
      | Some st' => run schedule' st'
      | None => None
      end
  end.

(** [runSteadyMode] under a schedule: the state in which it returns. *)
Definition runSteadyMode (schedule : list Event) : option State :=
  run schedule initial.

Definition returned (st : State) : bool :=
  match phase st with Returned _ => true | _ => false end.

Definition inLoop (st : State) : bool :=
  match phase st with Looping | Sleeping => true | _ => false end.

(** The object [runSteadyMode] returns, as its caller sees it when the
    promise resolves. *)
Definition result (st : State) : option SteadyModeResult.t :=
  match phase st with
  | Returned (reason, atStop) =>
      Some (SteadyModeResult.mk (results st) (timeline st) reason atStop)
  | _ => None
  end.

End Run.
End Steady.

(** The state in which [runSteadyMode] returns under a schedule, which is
    looked at no further than the return; [None] when the schedule ends
    before. *)
Fixpoint runToReturn
  (preparedPayloads : list PreparedPayload.t) (options : SteadyModeOptions.t)
  (testStartTime : Z) (schedule : list Steady.Event) (st : Steady.State)
  : option Steady.State :=
  if Steady.returned st then Some st else
  match schedule with
  | [] => None
  | ev :: schedule' =>
      match Steady.step preparedPayloads options testStartTime st ev with
      | Some st' => runToReturn preparedPayloads options testStartTime schedule' st'
      | None => None
      end
  end.

(** What [await runSteadyMode(preparedPayloads, options)] gives its caller. *)
Definition awaitSteadyMode
  (preparedPayloads : list PreparedPayload.t) (options : SteadyModeOptions.t)
  (testStartTime : Z) (schedule : list Steady.Event) : option SteadyModeResult.t :=
  match runToReturn preparedPayloads options testStartTime schedule Steady.initial with
  | Some st => Steady.result st
  | None => None
  end.

(** The payload the [k]-th call of [executeSigningRequest] is given. *)
Definition round_robin (preparedPayloads : list PreparedPayload.t) (k : nat)
  : nat * option PreparedPayload.t :=
  (k, nth_error preparedPayloads (k mod length preparedPayloads)).

(** A schedule in which every request fails. *)
Definition all_fail (schedule : list Steady.Event) : Prop :=
  Forall (fun ev => match ev with
                    | Steady.Settle _ r => RequestResult.success r = false
                    | Steady.LoopTurn _ _ => True
                    end) schedule.

Fixpoint count_settles (schedule : list Steady.Event) : nat :=
  match schedule with
  | [] => 0
  | Steady.Settle _ _ :: schedule' => S (count_settles schedule')
  | Steady.LoopTurn _ _ :: schedule' => count_settles schedule'
  end.

Fixpoint count_turns (schedule : list Steady.Event) : nat :=
  match schedule with
  | [] => 0
  | Steady.LoopTurn _ _ :: schedule' => S (count_turns schedule')
  | Steady.Settle _ _ :: schedule' => count_turns schedule'
  end.

(** What holds of the indices at every moment of a steady run. *)
Definition indices_consistent
  (preparedPayloads : list PreparedPayload.t) (st : Steady.State) : Prop :=
  Steady.payloadIndex st = Steady.nextRequestIndex st /\
  Steady.dispatched st
  = map (round_robin preparedPayloads) (seq 0 (Steady.nextRequestIndex st)) /\
  (forall i, In i (Steady.pendingRequests st) -> (i < Steady.nextRequestIndex st)%nat) /\
  NoDup (map RequestResult.index (Steady.results st)) /\
  (forall i, In i (map RequestResult.index (Steady.results st)) ->
             (i < Steady.nextRequestIndex st)%nat /\ ~ In i (Steady.pendingRequests st)) /\
  map TimelineRequest.index (Steady.timeline st)
  = map RequestResult.index (Steady.results st) /\
  (forall k r, In (k, r) (Steady.fulfilled st) ->
               (RequestResult.index r < Steady.nextRequestIndex st)%nat /\
               ~ In (RequestResult.index r) (Steady.pendingRequests st)).

(** Sample data: a request that fails, and a run with
    [maxConsecutiveFailures = 1] whose first request fails while the second is
    in flight; the second is abandoned and its failure arrives after the
    return. *)
Definition failed_result (startTime endTime : Z) : RequestResult.t :=
  RequestResult.mk 0 startTime endTime (endTime - startTime) false
    (Some "[taco-signing] Node 0xABC did not respond before timeout"%string) None.

Definition stop_after_one_failure : SteadyModeOptions.t :=
  SteadyModeOptions.mk 10 None None None (Some 1).

Definition late_arrival : list Steady.Event :=
  [Steady.LoopTurn 0 0; Steady.LoopTurn 100 100;
   Steady.Settle 0 (failed_result 0 150);
   Steady.LoopTurn 200 200;
   Steady.Settle 1 (failed_result 100 250)]%Z.

(** The number of requests a run without stop condition is sized for: the
    first index that reaches [totalRequests]. *)
Definition planned_requests (options : SteadyModeOptions.t) : nat :=
  match Steady.totalRequests options with
  | Some totalRequests => Z.to_nat (Qceiling totalRequests)
  | None => 0
  end.

(** Sample data: one request a second for a duration of zero seconds, and
    sixty-one turns of the loop. *)
Definition zero_duration : SteadyModeOptions.t :=
  SteadyModeOptions.mk 1 (Some 0) None None None.

Definition sixty_one_turns : list Steady.Event := repeat (Steady.LoopTurn 0 0) 61.

(** With a stop condition configured: the loop is only left for a reason
    other than [completed]. *)
Definition stopped_by_condition (st : Steady.State) : Prop :=
  (Steady.shouldStop st = true -> Steady.stopReason st = consecutive_failures) /\
  (Steady.inLoop st = false -> Steady.stopReason st <> completed).

(** Without a stop condition, after [turns] turns of the loop: the loop has
    dispatched one request a turn, and is left at the turn that finds the
    planned number reached. *)
Definition sized_by_count (options : SteadyModeOptions.t) (st : Steady.State) (turns : nat)
  : Prop :=
  Steady.shouldStop st = false /\
  Steady.stopReason st = completed /\
  length (Steady.dispatched st) = Steady.nextRequestIndex st /\
  (Steady.inLoop st = true ->
   Steady.nextRequestIndex st = turns /\ (turns <= planned_requests options)%nat) /\
  (Steady.inLoop st = false ->
   Steady.nextRequestIndex st = planned_requests options /\
   turns = S (planned_requests options)).

Section Cases.
Variable preparedPayloads : list PreparedPayload.t.
Variable options : SteadyModeOptions.t.
Variable testStartTime : Z.

(** The ways a step can go. *)
Inductive StepCase (st : Steady.State) : Steady.Event -> Steady.State -> Prop :=
| case_turn nowTop nowAfter :
    Steady.inLoop st = true ->
    StepCase st (Steady.LoopTurn nowTop nowAfter)
      (Steady.loopTurn preparedPayloads options testStartTime nowTop nowAfter st)
| case_settle i raw :
    In i (Steady.pendingRequests st) ->
    Steady.phase st <> Steady.Looping ->
    Steady.phase (Steady.onFulfilled options testStartTime i raw st) = Steady.phase st ->
    StepCase st (Steady.Settle i raw) (Steady.onFulfilled options testStartTime i raw st)
| case_drained i raw remaining :
    In i (Steady.pendingRequests st) ->
    Steady.phase st = Steady.Draining remaining ->
    Steady.pendingRequests (Steady.onFulfilled options testStartTime i raw st) = [] ->
    StepCase st (Steady.Settle i raw)
      (Steady.finish
         (Steady.recordRemaining options testStartTime remaining
            (Steady.onFulfilled options testStartTime i raw st))).

(** The ways a turn of the loop can go. *)
Inductive TurnCase (st : Steady.State) : Steady.State -> Prop :=
| turn_stop :
    Steady.shouldStop st = true -> TurnCase st (Steady.afterLoop st)
| turn_duration m :
    Steady.shouldStop st = false -> Steady.maxDuration options = Some m ->
    TurnCase st (Steady.afterLoop (Steady.set_stopReason duration_reached st))
| turn_count t :
    Steady.shouldStop st = false -> Steady.totalRequests options = Some t ->
    Qle_bool t (inject_Z (Z.of_nat (Steady.nextRequestIndex st))) = true ->
    TurnCase st (Steady.afterLoop st)
| turn_dispatch st' :
    Steady.shouldStop st = false ->
    (forall t, Steady.totalRequests options = Some t ->
               Qle_bool t (inject_Z (Z.of_nat (Steady.nextRequestIndex st))) = false) ->
    Steady.inLoop st' = true ->
    Steady.nextRequestIndex st' = S (Steady.nextRequestIndex st) ->
    length (Steady.dispatched st') = S (length (Steady.dispatched st)) ->
    Steady.results st' = Steady.results st ->
    Steady.consecutiveFailures st' = Steady.consecutiveFailures st ->
    Steady.stopReason st' = Steady.stopReason st ->
    Steady.shouldStop st' = Steady.shouldStop st ->
    TurnCase st st'.

End Cases.

(** Sample data: ten requests a second for one second, and eleven turns of
    the loop, paced. *)
Definition ten_for_a_second : SteadyModeOptions.t :=
  SteadyModeOptions.mk 10 (Some 1) None None None.

(** Sample data: 4.1 requests a second for sixty seconds. *)
Definition sixty_seconds_at_4_1 : SteadyModeOptions.t :=
  SteadyModeOptions.mk (41 # 10) (Some 60) None None None.

Definition eleven_turns : list Steady.Event :=
  map (fun k => Steady.LoopTurn (100 * Z.of_nat k) (100 * Z.of_nat k)) (seq 0 11).

(** A steady run with [maxConsecutiveFailures = k] and no [maxDuration],
    against a backend that always fails, after [n] requests have failed. *)
Definition failing_run (k : nat) (st : Steady.State) (n : nat) : Prop :=
  Steady.consecutiveFailures st = n /\
  length (Steady.results st) = n /\
  Forall (fun r => RequestResult.success r = false) (Steady.results st) /\
  Steady.shouldStop st = (k <=? n)%nat /\
  Steady.stopReason st = (if (k <=? n)%nat then consecutive_failures else completed) /\
  (Steady.inLoop st = true \/
   exists m, Steady.phase st = Steady.Returned (consecutive_failures, Some m) /\
             (k <= m <= n)%nat).

(** Sample data: [maxConsecutiveFailures = 3] at ten requests a second; a
    schedule on which the failures arrive one by one, each before the next
    turn of the loop; and one on which four requests are in flight when the
    backend fails them all between two turns of the loop. *)
Definition stop_after_three_failures : SteadyModeOptions.t :=
  SteadyModeOptions.mk 10 None None None (Some 3).

Definition three_arrived : list Steady.Event :=
  [Steady.LoopTurn 0 0; Steady.Settle 0 (failed_result 0 40);
   Steady.LoopTurn 100 100; Steady.Settle 1 (failed_result 100 140);
   Steady.LoopTurn 200 200; Steady.Settle 2 (failed_result 200 240)]%Z.

Definition failures_one_by_one : list Steady.Event :=
  three_arrived ++ [Steady.LoopTurn 300 300]%Z.

Definition failures_in_a_burst : list Steady.Event :=
  [Steady.LoopTurn 0 0; Steady.LoopTurn 100 100; Steady.LoopTurn 200 200;
   Steady.LoopTurn 300 300;
   Steady.Settle 0 (failed_result 0 310); Steady.Settle 1 (failed_result 100 320);
   Steady.Settle 2 (failed_result 200 330); Steady.Settle 3 (failed_result 300 340);
   Steady.LoopTurn 400 400]%Z.

(** ** Rate controllers: burst mode *)

Module Burst.
Local Open Scope nat_scope.

Inductive Phase : Set :=
| Awaiting (batchPromises : list nat) (batchesLeft : nat)
    (* suspended in [await Promise.all(batchPromises)]; the promises are
       named by the index of their request; [batchesLeft] iterations of the
       outer loop follow this one *)
| Returned.

(** What an observer of the controller sees, in order. *)
Inductive Observed : Set :=
| Dispatch (idx : nat)      (* [executeSigningRequest] is called for [idx] *)
| Completion (idx : nat).   (* its promise has fulfilled *)

(** The variables of [runBurstMode]; [inFlight] are the promises of the
    current batch that have not fulfilled, [fulfilled] the value of each one
    that has.  [trace] and [dispatched] are logs, not variables of the
    program. *)
Record State : Set := mk
  { results : list RequestResult.t;
    payloadIndex : nat;
    requestIndex : nat;
    batch : nat;
    phase : Phase;
    inFlight : list nat;
    fulfilled : list (nat * RequestResult.t);
    trace : list Observed;
    dispatched : list (nat * option PreparedPayload.t) }.

(** The variables before the outer loop; [runBatches] sets the phase. *)
Definition initial : State := mk [] 0 0 0 Returned [] [] [] [].

Section Run.
Variable preparedPayloads : list PreparedPayload.t.
Variable burstSize : nat.
Variable totalBatches : nat.

Definition totalRequests : nat := totalBatches * burstSize.

(** The inner [for] loop: [n] calls of [executeSigningRequest], the indices of
    the promises pushed onto [batchPromises] being accumulated in [acc]. *)
Fixpoint dispatchBatch (n : nat) (acc : list nat) (st : State) : list nat * State :=
  match n with
  | 0 => (acc, st)
  | S n' =>
      let prepared :=
        nth_error preparedPayloads (payloadIndex st mod length preparedPayloads) in
      let idx := requestIndex st in
      dispatchBatch n' (acc ++ [idx])
        (mk (results st) (S (payloadIndex st)) (S (requestIndex st)) (batch st)
            (phase st) (inFlight st ++ [idx]) (fulfilled st)
            (trace st ++ [Dispatch idx]) (dispatched st ++ [(idx, prepared)]))
  end.

(** [results.push(...batchResults)], [batchResults] being the values of
    [batchPromises] in their order; then [batch++]. *)
Definition collectBatch (batchPromises : list nat) (st : State) : State :=
  let batchResults :=
    flat_map (fun idx => match Steady.lookup idx (fulfilled st) with
                         | Some r => [r]
                         | None => []
                         end) batchPromises in
  mk (results st ++ batchResults) (payloadIndex st) (requestIndex st) (S (batch st))
     (phase st) (inFlight st) (fulfilled st) (trace st) (dispatched st).

(** The outer [for] loop with [batchesLeft] iterations to go, run up to the
    next [await] that has something to wait for, or to the [return]. *)
Fixpoint runBatches (batchesLeft : nat) (st : State) : State :=
  match batchesLeft with
  | 0 =>
      mk (results st) (payloadIndex st) (requestIndex st) (batch st) Returned
         (inFlight st) (fulfilled st) (trace st) (dispatched st)
  | S batchesLeft' =>
      let currentBatchSize := Nat.min burstSize (totalRequests - requestIndex st) in
      let (batchPromises, st1) := dispatchBatch currentBatchSize [] st in
      match batchPromises with
      | [] => runBatches batchesLeft' (collectBatch [] st1)
      | _ :: _ =>
          mk (results st1) (payloadIndex st1) (requestIndex st1) (batch st1)
             (Awaiting batchPromises batchesLeft')
             (inFlight st1) (fulfilled st1) (trace st1) (dispatched st1)
      end
  end.

(** The promise of request [idx] fulfils with [raw]; its [then] callback
    copies the result with [index: idx].  When it was the last of the batch,
    [Promise.all] resolves and the outer loop goes on. *)
Definition step (st : State) (ev : nat * RequestResult.t) : option State :=
  let (idx, raw) := ev in
  match phase st with
  | Awaiting batchPromises batchesLeft =>
      if Steady.member idx (inFlight st) then
        let st1 :=
          mk (results st) (payloadIndex st) (requestIndex st) (batch st) (phase st)
             (Steady.delete idx (inFlight st))
             (fulfilled st ++ [(idx, RequestResult.set_index idx raw)])
             (trace st ++ [Completion idx]) (dispatched st) in
        match inFlight st1 with
        | [] => Some (runBatches batchesLeft (collectBatch batchPromises st1))
        | _ :: _ => Some st1
        end
      else None
  | Returned => None
  end.

Fixpoint run (schedule : list (nat * RequestResult.t)) (st : State) : option State :=
  match schedule with
  | [] => Some st
  | ev :: schedule' =>
      match step st ev with
      | Some st' => run schedule' st'
      | None => None
      end
  end.

(** [runBurstMode] under a schedule of completions. *)
Definition runBurstMode (schedule : list (nat * RequestResult.t)) : option State :=
  run schedule (runBatches totalBatches initial).

Definition returned (st : State) : bool :=
  match phase st with Returned => true | Awaiting _ _ => false end.

End Run.
End Burst.

(** No request is dispatched before every request of the earlier batches has
    completed: whenever the trace shows the dispatch of [j], which belongs to
    batch [j / burstSize], the completion of every [i] below the first index
    of that batch stands before it. *)
Definition batches_do_not_overlap (burstSize : nat) (trace : list Burst.Observed) : Prop :=
  forall pre j post,
    trace = pre ++ Burst.Dispatch j :: post ->
    forall i, (i < (j / burstSize) * burstSize)%nat -> In (Burst.Completion i) pre.

(** What has been dispatched and is no longer in flight has completed, and its
    promise holds a result that carries its index. *)
Definition settled_requests (st : Burst.State) : Prop :=
  (forall k r, In (k, r) (Burst.fulfilled st) -> RequestResult.index r = k) /\
  forall i, (i < Burst.requestIndex st)%nat -> ~ In i (Burst.inFlight st) ->
    In (Burst.Completion i) (Burst.trace st) /\
    exists r, Steady.lookup i (Burst.fulfilled st) = Some r.

(** What holds at every moment of a burst run. *)
Definition burst_consistent
  (preparedPayloads : list PreparedPayload.t) (burstSize totalBatches : nat)
  (st : Burst.State) : Prop :=
  Burst.payloadIndex st = Burst.requestIndex st /\
  Burst.dispatched st
  = map (round_robin preparedPayloads) (seq 0 (Burst.requestIndex st)) /\
  map RequestResult.index (Burst.results st) = seq 0 (Burst.batch st * burstSize) /\
  batches_do_not_overlap burstSize (Burst.trace st) /\
  settled_requests st /\
  NoDup (Burst.inFlight st) /\
  (length (Burst.fulfilled st) + length (Burst.inFlight st) = Burst.requestIndex st)%nat /\
  match Burst.phase st with
  | Burst.Awaiting batchPromises batchesLeft =>
      (Burst.batch st + S batchesLeft = totalBatches)%nat /\
      Burst.requestIndex st = (S (Burst.batch st) * burstSize)%nat /\
      batchPromises = seq (Burst.batch st * burstSize) burstSize /\
      Burst.inFlight st <> [] /\
      forall i, In i (Burst.inFlight st) ->
                (Burst.batch st * burstSize <= i < Burst.requestIndex st)%nat
  | Burst.Returned =>
      Burst.batch st = totalBatches /\
      Burst.requestIndex st = (totalBatches * burstSize)%nat /\
      Burst.inFlight st = []
  end.

(** The state at the head of the outer loop. *)
Definition at_batch_start
  (preparedPayloads : list PreparedPayload.t) (burstSize : nat) (st : Burst.State) : Prop :=
  Burst.payloadIndex st = Burst.requestIndex st /\
  Burst.dispatched st
  = map (round_robin preparedPayloads) (seq 0 (Burst.requestIndex st)) /\
  map RequestResult.index (Burst.results st) = seq 0 (Burst.batch st * burstSize) /\
  batches_do_not_overlap burstSize (Burst.trace st) /\
  settled_requests st /\
  Burst.inFlight st = [] /\
  length (Burst.fulfilled st) = Burst.requestIndex st /\
  Burst.requestIndex st = (Burst.batch st * burstSize)%nat.

(** Sample data: two payloads, and two batches of two requests whose
    completions arrive out of order within each batch. *)
Definition two_payloads : list PreparedPayload.t :=
  [PreparedPayload.mk (Some "first"%string) "0x01" None;
   PreparedPayload.mk (Some "second"%string) "0x02" None].

Definition succeeded_result (startTime endTime : Z) : RequestResult.t :=
  RequestResult.mk 0 startTime endTime (endTime - startTime) true None
    (Some (endTime - startTime - 1)%Z).

Definition out_of_order : list (nat * RequestResult.t) :=
  [(1%nat, succeeded_result 0 30); (0%nat, succeeded_result 0 50);
   (3%nat, succeeded_result 50 70); (2%nat, succeeded_result 50 90)].

(** ** Interfaces of types.ts: statistics and results *)

Module NodeFailure.
Record t : Set := mk { address : string; timeouts : nat; otherErrors : nat }.
End NodeFailure.

Module ErrorWithCount.
Record t : Set := mk { message : string; count : nat }.
End ErrorWithCount.

(** ** Failure attribution *)

Module Regex.
(** The two regular expressions of [parseNodeFailures], written out as
    scanners.  In both, every repetition is followed by a character outside
    its class, so the longest repetition is the only one that can match and
    no backtracking is involved.  A character is a code unit below 256. *)

(** [\s] *)
Definition is_space (c : ascii) : bool :=
  let n := nat_of_ascii c in
  ((9 <=? n) && (n <=? 13) || (n =? 32) || (n =? 160))%nat.

(** [[a-fA-F0-9]] *)
Definition is_hex (c : ascii) : bool :=
  let n := nat_of_ascii c in
  ((48 <=? n) && (n <=? 57) || (65 <=? n) && (n <=? 70) || (97 <=? n) && (n <=? 102))%nat.

(** [[^}]] *)
Definition not_close_brace (c : ascii) : bool := negb (Ascii.eqb c "}"%char).

(** The rest of [s] after the literal [lit], when [s] starts with it. *)
Fixpoint literal (lit s : string) : option string :=
  match lit, s with
  | EmptyString, _ => Some s
  | String a lit', String b s' => if Ascii.eqb a b then literal lit' s' else None
  | String _ _, EmptyString => None
  end.

(** The longest prefix of [s] in the class [cls], and the rest. *)
Fixpoint many (cls : ascii -> bool) (s : string) : string * string :=
  match s with
  | EmptyString => (EmptyString, EmptyString)
  | String c s' =>
      if cls c then let (taken, rest) := many cls s' in (String c taken, rest)
      else (EmptyString, s)
  end.

(** [cls+] *)
Definition many1 (cls : ascii -> bool) (s : string) : option (string * string) :=
  match many cls s with
  | (EmptyString, _) => None
  | (taken, rest) => Some (taken, rest)
  end.

Definition opt_bind {A B : Type} (o : option A) (k : A -> option B) : option B :=
  match o with
  | Some a => k a
  | None => None
  end.

(** [/Node\s+(0x[a-fA-F0-9]+)\s+did not respond before timeout/] anchored at
    the start of [s]: group 1 and the length of the match. *)
Definition timeout_at (s : string) : option (string * nat) :=
  opt_bind (literal "Node" s) (fun s1 =>
  opt_bind (many1 is_space s1) (fun '(_, s2) =>
  opt_bind (literal "0x" s2) (fun s3 =>
  opt_bind (many1 is_hex s3) (fun '(digits, s4) =>
  opt_bind (many1 is_space s4) (fun '(_, s5) =>
  opt_bind (literal "did not respond before timeout" s5) (fun s6 =>
  Some (("0x" ++ digits)%string, (String.length s - String.length s6)%nat))))))).

(** [error.matchAll(/.../g)], group 1 of each match: once a match is found
    the search resumes where it ended, [skip] counting the characters of the
    last match still to be passed over. *)
Fixpoint timeoutMatches_from (skip : nat) (s : string) : list string :=
  match skip with
  | S skip' =>
      match s with
      | EmptyString => []
      | String _ s' => timeoutMatches_from skip' s'
      end
  | O =>
      match s with
      | EmptyString => []
      | String _ s' =>
          match timeout_at s with
          | Some (addr, len) => addr :: timeoutMatches_from (Nat.pred len) s'
          | None => timeoutMatches_from 0 s'
          end
      end
  end.

Definition timeoutMatches (error : string) : list string := timeoutMatches_from 0 error.

(** [/TACo signing failed with errors:\s*(\{[^}]+\})/] anchored at the start of
    [s]: group 1. *)
Definition json_at (s : string) : option string :=
  opt_bind (literal "TACo signing failed with errors:" s) (fun s1 =>
  let (_, s2) := many is_space s1 in
  opt_bind (literal "{" s2) (fun s3 =>
  opt_bind (many1 not_close_brace s3) (fun '(body, s4) =>
  opt_bind (literal "}" s4) (fun _ =>
  Some ("{" ++ body ++ "}")%string)))).

(** [error.match(/.../)], group 1 of the first match. *)
Fixpoint jsonMatch (s : string) : option string :=
  match json_at s with
  | Some g => Some g
  | None =>
      match s with
      | EmptyString => None
      | String _ s' => jsonMatch s'
      end
  end.

(** [hay.includes(needle)] *)
Fixpoint includes (needle hay : string) : bool :=
  if String.prefix needle hay then true
  else match hay with
       | EmptyString => false
       | String _ hay' => includes needle hay'
       end.
End Regex.

Module NodeMap.
(** [Map<string, { timeouts; otherErrors }>], in insertion order. *)
Definition t : Set := list (string * (nat * nat)).

Fixpoint get (addr : string) (m : t) : option (nat * nat) :=
  match m with
  | [] => None
  | (k, v) :: m' => if String.eqb k addr then Some v else get addr m'
  end.

(** [set] keeps the place of a key that is already there and appends a new
    one. *)
Fixpoint set (addr : string) (v : nat * nat) (m : t) : t :=
  match m with
  | [] => [(addr, v)]
  | (k, w) :: m' => if String.eqb k addr then (k, v) :: m' else (k, w) :: set addr v m'
  end.
End NodeMap.

Section ParseNodeFailures.
(** [JSON.parse] followed by [Object.entries], each value rendered by
    [String(...)]: a function of the JavaScript runtime, which throws on text
    that is not JSON. *)
Variable JSON_parse_entries : string -> Js.Completion (list (string * string)).

(** One pass of either inner loop: [existing] is fetched or created, one of
    its counters is incremented, and it is stored back. *)
Definition countFailure (isTimeout : bool) (nodeMap : NodeMap.t) (addr : string)
  : NodeMap.t :=
  let existing :=
    match NodeMap.get addr nodeMap with
    | Some e => e
    | None => (0, 0)%nat
    end in
  let existing' :=
    if isTimeout then (S (fst existing), snd existing)
    else (fst existing, S (snd existing)) in
  NodeMap.set addr existing' nodeMap.

(** The body of the outer loop, for one error message. *)
Definition scanError (nodeMap : NodeMap.t) (error : string) : Js.Completion NodeMap.t :=
  let nodeMap1 := fold_left (countFailure true) (Regex.timeoutMatches error) nodeMap in
  match Regex.jsonMatch error with
  | Some group1 =>
      Js.try_catch
        (errObj <- JSON_parse_entries group1 ;;
         Js.Normal
           (fold_left
              (fun m '(addr, msg) => countFailure (Regex.includes "timeout" msg) m addr)
              errObj nodeMap1))
        (fun _ => Js.Normal nodeMap1)
  | None => Js.Normal nodeMap1
  end.

Fixpoint scanErrors (nodeMap : NodeMap.t) (errors : list string) : Js.Completion NodeMap.t :=
  match errors with
  | [] => Js.Normal nodeMap
  | error :: errors' =>
      nodeMap' <- scanError nodeMap error ;;
      scanErrors nodeMap' errors'
  end.

Definition failures (f : NodeFailure.t) : Z :=
  Z.of_nat (NodeFailure.timeouts f + NodeFailure.otherErrors f).

Definition parseNodeFailures (errors : list string) : Js.Completion (list NodeFailure.t) :=
  nodeMap <- scanErrors [] errors ;;
  Js.Normal
    (Js.Array_sort (fun a b => failures b - failures a)%Z
       (map (fun '(address, counts) => NodeFailure.mk address (fst counts) (snd counts))
          nodeMap)).

(** The reference reading of the failure attributor: every signal found in
    the messages, in the order of scanning, as the node it names and whether
    it counts as a timeout. *)
Definition signals_of (error : string) : list (string * bool) :=
  map (fun addr => (addr, true)) (Regex.timeoutMatches error) ++
  match Regex.jsonMatch error with
  | Some group1 =>
      match JSON_parse_entries group1 with
      | Js.Normal errObj => map (fun '(addr, msg) => (addr, Regex.includes "timeout" msg)) errObj
      | Js.Throw _ => []
      end
  | None => []
  end.

Definition signals (errors : list string) : list (string * bool) :=
  flat_map signals_of errors.

End ParseNodeFailures.

(** The nodes of a list of signals, each once, in the order they are first
    seen. *)
Fixpoint first_seen (addrs : list string) : list string :=
  match addrs with
  | [] => []
  | a :: addrs' => a :: filter (fun b => negb (String.eqb b a)) (first_seen addrs')
  end.

Definition count_signals (addr : string) (isTimeout : bool) (sigs : list (string * bool))
  : nat :=
  length (filter (fun '(a, t) => String.eqb a addr && Bool.eqb t isTimeout) sigs).

Definition attribution (sigs : list (string * bool)) : list NodeFailure.t :=
  map (fun addr => NodeFailure.mk addr (count_signals addr true sigs)
                     (count_signals addr false sigs))
      (first_seen (map fst sigs)).

(** What one signal does to the node map. *)
Definition applySignal (m : NodeMap.t) (sig : string * bool) : NodeMap.t :=
  countFailure (snd sig) m (fst sig).

(** The node map after scanning: the nodes in the order they were first seen,
    each with the number of its signals of either kind. *)
Definition tally (sigs : list (string * bool)) : NodeMap.t :=
  map (fun addr => (addr, (count_signals addr true sigs, count_signals addr false sigs)))
      (first_seen (map fst sigs)).


(** ** Results processing *)

Inductive Mode : Set := steady | burst.

Module RunResult.
Record Requests : Set := mkRequests { total : nat; success : nat; failed : nat }.

Record t : Set := mk
  { mode : Mode;
    targetRate : Q;
    duration : Q;
    label : option string;
    requests : Requests;
    latency : Stats.t;
    successLatency : option Stats.t;
    failureLatency : option Stats.t;
    tacoSigningTime : option Stats.t;
    successTacoSigningTime : option Stats.t;
    failureTacoSigningTime : option Stats.t;
    nodeFailures : list NodeFailure.t;
    errors : list ErrorWithCount.t;
    timeline : option (list TimelineRequest.t);
    stopReason : option StopReason;
    consecutiveFailuresAtStop : option nat;
    stoppedEarly : option bool }.

Definition set_stoppedEarly (b : bool) (r : t) : t :=
  mk (mode r) (targetRate r) (duration r) (label r) (requests r) (latency r)
     (successLatency r) (failureLatency r) (tacoSigningTime r)
     (successTacoSigningTime r) (failureTacoSigningTime r) (nodeFailures r) (errors r)
     (timeline r) (stopReason r) (consecutiveFailuresAtStop r) (Some b).

(** The three assignments of the steady branch of [main]. *)
Definition set_steady_fields (s : SteadyModeResult.t) (r : t) : t :=
  mk (mode r) (targetRate r) (duration r) (label r) (requests r) (latency r)
     (successLatency r) (failureLatency r) (tacoSigningTime r)
     (successTacoSigningTime r) (failureTacoSigningTime r) (nodeFailures r) (errors r)
     (Some (SteadyModeResult.timeline s)) (Some (SteadyModeResult.stopReason s))
     (SteadyModeResult.consecutiveFailuresAtStop s) (stoppedEarly r).
End RunResult.

Section PrintResults.
Variable JSON_parse_entries : string -> Js.Completion (list (string * string)).

(** [xs.length > 0 ? calculateStats(xs) : null] *)
Definition statsOrNull (xs : list Z) : option Stats.t :=
  match xs with
  | [] => None
  | _ :: _ => Some (calculateStats xs)
  end.

(** [.filter((r) => r.tacoSigningTimeMs !== undefined).map((r) => r.tacoSigningTimeMs!)] *)
Definition tacoTimesOf (rs : list RequestResult.t) : list Z :=
  flat_map (fun r => match RequestResult.tacoSigningTimeMs r with
                     | Some t => [t]
                     | None => []
                     end) rs.

(** [r.error || "Unknown error"]: the empty string is falsy. *)
Definition errorOrUnknown (r : RequestResult.t) : string :=
  match RequestResult.error r with
  | Some EmptyString | None => "Unknown error"
  | Some e => e
  end.

(** [errorCountMap.set(err, (errorCountMap.get(err) || 0) + 1)] *)
Fixpoint countError (err : string) (m : list (string * nat)) : list (string * nat) :=
  match m with
  | [] => [(err, 1%nat)]
  | (k, n) :: m' =>
      if String.eqb k err then (k, S n) :: m' else (k, n) :: countError err m'
  end.

(** [printResults], without what it writes to the console.  Reading
    [results[results.length - 1].endTime] throws a [TypeError] on an empty
    array. *)
Definition printResults
  (results : list RequestResult.t) (mode : Mode) (rate : Q) (label : option string)
  : Js.Completion RunResult.t :=
  match results with
  | [] => Js.Throw "TypeError: Cannot read properties of undefined (reading 'endTime')"
  | first :: _ =>
      let totalDuration :=
        inject_Z (RequestResult.endTime (last results first) - RequestResult.startTime first)
        / 1000 in
      let successResults := filter RequestResult.success results in
      let failedResults := filter (fun r => negb (RequestResult.success r)) results in
      let latencyStats := calculateStats (map RequestResult.duration results) in
      let successLatencyStats := statsOrNull (map RequestResult.duration successResults) in
      let failureLatencyStats := statsOrNull (map RequestResult.duration failedResults) in
      let tacoStats := statsOrNull (tacoTimesOf results) in
      let successTacoStats := statsOrNull (tacoTimesOf successResults) in
      let failureTacoStats := statsOrNull (tacoTimesOf failedResults) in
      let allErrors := map errorOrUnknown failedResults in
      nodeFailures <- parseNodeFailures JSON_parse_entries allErrors ;;
      let errorCountMap := fold_left (fun m err => countError err m) allErrors [] in
      let errorsWithCounts :=
        map (fun '(message, count) => ErrorWithCount.mk message count) errorCountMap in
      Js.Normal
        (RunResult.mk mode rate
           (inject_Z (Js.Math_round (totalDuration * 10)) / 10)
           label
           (RunResult.mkRequests (length results) (length successResults)
              (length failedResults))
           latencyStats successLatencyStats failureLatencyStats
           tacoStats successTacoStats failureTacoStats
           nodeFailures errorsWithCounts None None None None)
  end.

(** ** The sweep of [main] *)

(** The body of the loop over [rates], from the result of [runSteadyMode] on:
    the summary, and the mark of early degradation. *)
Definition sweepSteadyLevel (testRate : Q) (steadyResult : SteadyModeResult.t)
  : Js.Completion RunResult.t :=
  runResult <- printResults (SteadyModeResult.results steadyResult) steady testRate None ;;
  let last10 := Js.slice_last 10 (SteadyModeResult.results steadyResult) in
  Js.Normal
    (if (10 <=? length last10)%nat
        && forallb (fun r => negb (RequestResult.success r)) last10
     then RunResult.set_stoppedEarly true runResult
     else runResult).

(** The body of the loop over [burstSizes], from the result of [runBurstMode]
    on. *)
Definition sweepBurstLevel (burstSize : Q) (results : list RequestResult.t)
  : Js.Completion RunResult.t :=
  printResults results burst burstSize None.

(** [for (const x of xs) out.push(body(x))]; a throw ends the loop. *)
Fixpoint forEachPush {A B : Type} (body : A -> Js.Completion B) (xs : list A)
  : Js.Completion (list B) :=
  match xs with
  | [] => Js.Normal []
  | x :: xs' =>
      y <- body x ;;
      ys <- forEachPush body xs' ;;
      Js.Normal (y :: ys)
  end.

(** The sweep branch of [main]: each level with what its controller returned;
    [steadyResults] and [burstResults]. *)
Definition sweep
  (steadyLevels : list (Q * SteadyModeResult.t))
  (burstLevels : list (Q * list RequestResult.t))
  : Js.Completion (list RunResult.t * list RunResult.t) :=
  steadyResults <- forEachPush (fun '(testRate, r) => sweepSteadyLevel testRate r)
                     steadyLevels ;;
  burstResults <- forEachPush (fun '(burstSize, rs) => sweepBurstLevel burstSize rs)
                    burstLevels ;;
  Js.Normal (steadyResults, burstResults).

(** The steady branch of [main]. *)
Definition mainSteady (rate : Q) (steadyResult : SteadyModeResult.t)
  : Js.Completion RunResult.t :=
  runResult <- printResults (SteadyModeResult.results steadyResult) steady rate None ;;
  Js.Normal (RunResult.set_steady_fields steadyResult runResult).

End PrintResults.

(** The early-degradation heuristic in words: the run produced at least ten
    outcomes and its last ten are all failures. *)
Definition degraded (results : list RequestResult.t) : bool :=
  (10 <=? length results)%nat
  && forallb (fun r => negb (RequestResult.success r)) (Js.slice_last 10 results).

(** The heuristic as the specification words it: the last ten outcomes, or
    all of them when there are fewer, are all failures. *)
Definition last_outcomes_all_failed (results : list RequestResult.t) : bool :=
  forallb (fun r => negb (RequestResult.success r)) (Js.slice_last 10 results).

(** Sample data: a [JSON.parse] that rejects everything, a failed request, and
    a steady run that recorded three failures and nothing else. *)
Definition JSON_rejects (text : string) : Js.Completion (list (string * string)) :=
  Js.Throw "SyntaxError".

Definition failed_request (i : nat) (startTime : Z) : RequestResult.t :=
  RequestResult.mk i startTime (startTime + 40) 40 false
    (Some "[taco-signing] Node 0xABC did not respond before timeout"%string) None.

Definition three_failures : SteadyModeResult.t :=
  SteadyModeResult.mk
    [failed_request 0 0; failed_request 1 1000; failed_request 2 2000] []
    completed None.

(** ** File I/O: the persisted test data *)

Module Json.

(** A JavaScript [number] as [JSON.stringify] distinguishes them. *)
Inductive Number : Set :=
| Finite (q : Q)
| NaN
| PlusInfinity
| MinusInfinity.

(** The JavaScript values a [TestData] is made of. *)
Inductive Value : Set :=
| Undefined
| Null
| Bool (b : bool)
| Num (n : Number)
| Str (s : string)
| Arr (items : list Value)
| Obj (props : list (string * Value)).

(** A JSON document, by its structure: the text [JSON.stringify] writes, up
    to layout, and the text [JSON.parse] accepts. *)
Inductive Document : Set :=
| DNull
| DBool (b : bool)
| DNumber (q : Q)
| DString (s : string)
| DArray (items : list Document)
| DObject (members : list (string * Document)).

(** [JSON.stringify(value, null, 2)]: no text at all for [undefined]; inside
    an array [undefined] is written [null]; a property whose value is
    [undefined] is left out; a number that is not finite is written [null]. *)
Fixpoint stringify (v : Value) : option Document :=
  match v with
  | Undefined => None
  | Null => Some DNull
  | Bool b => Some (DBool b)
  | Num (Finite q) => Some (DNumber q)
  | Num _ => Some DNull
  | Str s => Some (DString s)
  | Arr items =>
      Some (DArray (map (fun item => match stringify item with
                                     | Some d => d
                                     | None => DNull
                                     end) items))
  | Obj props =>
      Some (DObject
              (flat_map (fun p => match stringify (snd p) with
                                  | Some d => [(fst p, d)]
                                  | None => []
                                  end) props))
  end.

(** [JSON.parse(text)] on the text of a document. *)
Fixpoint parse (d : Document) : Value :=
  match d with
  | DNull => Null
  | DBool b => Bool b
  | DNumber q => Num (Finite q)
  | DString s => Str s
  | DArray items => Arr (map parse items)
  | DObject members => Obj (map (fun m => (fst m, parse (snd m))) members)
  end.

(** [obj[key]]: [undefined] when the property is not there. *)
Fixpoint get (key : string) (props : list (string * Value)) : Value :=
  match props with
  | [] => Undefined
  | (k, x) :: props' => if String.eqb k key then x else get key props'
  end.

(** Field-for-field equality: the same primitive value, arrays of the same
    length with equal elements, objects on which every property reads the
    same. *)
Inductive equal : Value -> Value -> Prop :=
| equal_Undefined : equal Undefined Undefined
| equal_Null : equal Null Null
| equal_Bool b : equal (Bool b) (Bool b)
| equal_Num n : equal (Num n) (Num n)
| equal_Str s : equal (Str s) (Str s)
| equal_Arr xs ys : Forall2 equal xs ys -> equal (Arr xs) (Arr ys)
| equal_Obj ps qs : (forall key, equal (get key ps) (get key qs)) -> equal (Obj ps) (Obj qs).

(** Every number in the value is finite. *)
Fixpoint finite (v : Value) : bool :=
  match v with
  | Num (Finite _) => true
  | Num _ => false
  | Arr items => forallb finite items
  | Obj props => forallb (fun p => finite (snd p)) props
  | _ => true
  end.

(** No array holds [undefined], and no object has a key twice. *)
Fixpoint no_key_twice (keys : list string) : bool :=
  match keys with
  | [] => true
  | k :: keys' => negb (existsb (String.eqb k) keys') && no_key_twice keys'
  end.

Fixpoint regular (v : Value) : bool :=
  match v with
  | Arr items =>
      forallb (fun x => match x with Undefined => false | _ => regular x end) items
  | Obj props => no_key_twice (map fst props) && forallb (fun p => regular (snd p)) props
  | _ => true
  end.

(** What [JSON.stringify] and [JSON.parse] carry over unchanged. *)
Definition faithful (v : Value) : Prop := regular v = true /\ finite v = true.

Definition num_of_Z (z : Z) : Value := Num (Finite (inject_Z z)).
Definition num_of_nat (n : nat) : Value := Num (Finite (inject_Z (Z.of_nat n))).
Definition num_of_Q (q : Q) : Value := Num (Finite q).

(** An optional property: [undefined] when it is not set. *)
Definition optional {A : Type} (f : A -> Value) (o : option A) : Value :=
  match o with
  | Some a => f a
  | None => Undefined
  end.

(** A property of type [T | null]. *)
Definition nullable {A : Type} (f : A -> Value) (o : option A) : Value :=
  match o with
  | Some a => f a
  | None => Null
  end.

End Json.

Module TestData.
Import Json.

(** The [config] of a [TestData]: what the command line and the configuration
    file gave, numbers as they were parsed. *)
Record Config : Set := mkConfig
  { mode : string;
    rate : Number;
    duration : Number;
    rates : list Number;
    burstSizes : list Number;
    batchesPerBurst : Number;
    domain : option string;
    cohortId : option Number;
    chainId : option Number;
    maxDuration : option Number;
    maxConsecutiveFailures : option Number }.

Record t : Set := mk
  { timestamp : string;   (* [version] is the constant 1 *)
    config : Config;
    steadyResults : list RunResult.t;
    burstResults : list RunResult.t }.

(** The objects of each interface, property by property. *)
Definition of_Stats (s : Stats.t) : Value :=
  Obj [("min", num_of_Z (Stats.min s)); ("max", num_of_Z (Stats.max s));
       ("mean", num_of_Z (Stats.mean s)); ("p50", num_of_Z (Stats.p50 s));
       ("p95", num_of_Z (Stats.p95 s)); ("p99", num_of_Z (Stats.p99 s));
       ("stdDev", num_of_Z (Stats.stdDev s))]%string.

Definition of_NodeFailure (f : NodeFailure.t) : Value :=
  Obj [("address", Str (NodeFailure.address f));
       ("timeouts", num_of_nat (NodeFailure.timeouts f));
       ("otherErrors", num_of_nat (NodeFailure.otherErrors f))]%string.

Definition of_ErrorWithCount (e : ErrorWithCount.t) : Value :=
  Obj [("message", Str (ErrorWithCount.message e));
       ("count", num_of_nat (ErrorWithCount.count e))]%string.

Definition of_TimelineRequest (r : TimelineRequest.t) : Value :=
  Obj [("index", num_of_nat (TimelineRequest.index r));
       ("timestamp", num_of_Z (TimelineRequest.timestamp r));
       ("elapsedSec", num_of_Q (TimelineRequest.elapsedSec r));
       ("duration", num_of_Z (TimelineRequest.duration r));
       ("tacoSigningTimeMs", nullable num_of_Z (TimelineRequest.tacoSigningTimeMs r));
       ("success", Bool (TimelineRequest.success r));
       ("error", optional Str (TimelineRequest.error r));
       ("inFlight", num_of_nat (TimelineRequest.inFlight r))]%string.

Definition of_StopReason (r : StopReason) : Value :=
  Str match r with
      | duration_reached => "duration"
      | consecutive_failures => "consecutive-failures"
      | completed => "completed"
      end.

Definition of_Mode (m : Mode) : Value :=
  Str match m with steady => "steady" | burst => "burst" end.

Definition of_RunResult (r : RunResult.t) : Value :=
  Obj [("mode", of_Mode (RunResult.mode r));
       ("targetRate", num_of_Q (RunResult.targetRate r));
       ("duration", num_of_Q (RunResult.duration r));
       ("label", optional Str (RunResult.label r));
       ("requests",
         Obj [("total", num_of_nat (RunResult.total (RunResult.requests r)));
              ("success", num_of_nat (RunResult.success (RunResult.requests r)));
              ("failed", num_of_nat (RunResult.failed (RunResult.requests r)))]);
       ("latency", of_Stats (RunResult.latency r));
       ("successLatency", nullable of_Stats (RunResult.successLatency r));
       ("failureLatency", nullable of_Stats (RunResult.failureLatency r));
       ("tacoSigningTime", nullable of_Stats (RunResult.tacoSigningTime r));
       ("successTacoSigningTime", nullable of_Stats (RunResult.successTacoSigningTime r));
       ("failureTacoSigningTime", nullable of_Stats (RunResult.failureTacoSigningTime r));
       ("nodeFailures", Arr (map of_NodeFailure (RunResult.nodeFailures r)));
       ("errors", Arr (map of_ErrorWithCount (RunResult.errors r)));
       ("timeline",
         optional (fun tl => Arr (map of_TimelineRequest tl)) (RunResult.timeline r));
       ("stopReason", optional of_StopReason (RunResult.stopReason r));
       ("consecutiveFailuresAtStop",
         optional num_of_nat (RunResult.consecutiveFailuresAtStop r));
       ("stoppedEarly", optional Bool (RunResult.stoppedEarly r))]%string.

Definition of_Config (c : Config) : Value :=
  Obj [("mode", Str (mode c));
       ("rate", Num (rate c));
       ("duration", Num (duration c));
       ("rates", Arr (map Num (rates c)));
       ("burstSizes", Arr (map Num (burstSizes c)));
       ("batchesPerBurst", Num (batchesPerBurst c));
       ("domain", optional Str (domain c));
       ("cohortId", optional Num (cohortId c));
       ("chainId", optional Num (chainId c));
       ("maxDuration", optional Num (maxDuration c));
       ("maxConsecutiveFailures", optional Num (maxConsecutiveFailures c))]%string.

(** The object literal [testData] of [main]. *)
Definition value (d : t) : Value :=
  Obj [("version", num_of_Z 1);
       ("timestamp", Str (timestamp d));
       ("config", of_Config (config d));
       ("steadyResults", Arr (map of_RunResult (steadyResults d)));
       ("burstResults", Arr (map of_RunResult (burstResults d)))]%string.

(** No number of the [config] is [NaN] or infinite. *)
Definition finite_config (d : t) : bool := Json.finite (of_Config (config d)).

End TestData.

Module Files.
(** The files under [results/data], by path. *)
Definition FileSystem : Set := list (string * Json.Document).

Fixpoint readFileSync (filepath : string) (fs : FileSystem) : Js.Completion Json.Document :=
  match fs with
  | [] => Js.Throw "ENOENT: no such file or directory"
  | (p, d) :: fs' => if String.eqb p filepath then Js.Normal d else readFileSync filepath fs'
  end.

(** Writing replaces the file. *)
Definition writeFileSync (filepath : string) (d : Json.Document) (fs : FileSystem)
  : FileSystem :=
  (filepath, d) :: fs.

Definition DATA_DIR : string := "results/data".

(** [saveTestData]: [timestampNow] is what [generateTimestamp()] returns at
    that moment; the path, and the file system afterwards. *)
Definition saveTestData (data : TestData.t) (timestampNow : string) (fs : FileSystem)
  : Js.Completion (string * FileSystem) :=
  let filepath := (DATA_DIR ++ "/" ++ timestampNow ++ ".json")%string in
  match Json.stringify (TestData.value data) with
  | Some text => Js.Normal (filepath, writeFileSync filepath text fs)
  | None => Js.Throw "TypeError: The data argument must be of type string"
  end.

(** [loadTestData]: the parsed value, which the caller reads as a [TestData]. *)
Definition loadTestData (filepath : string) (fs : FileSystem) : Js.Completion Json.Value :=
  text <- readFileSync filepath fs ;;
  Js.Normal (Json.parse text).

End Files.

(** Sample data: a run saved after [--duration=abc --requests=1], for which
    [parseInt] gave [NaN]. *)
Definition nan_duration : TestData.t :=
  TestData.mk "2026-02-16T12:34:56.000Z"
    (TestData.mkConfig "steady" (Json.Finite 1) Json.NaN
       [Json.Finite 1] [Json.Finite 1] (Json.Finite 10)
       (Some "devnet"%string) (Some (Json.Finite 3)) (Some (Json.Finite 84532)) None None)
    [] [].

(** ** Steady mode: what a run records *)

(** The results the completion callbacks are given under a schedule, in the
    order of arrival, each with the index of its request written into it. *)
Fixpoint settlements (schedule : list Steady.Event) : list RequestResult.t :=
  match schedule with
  | [] => []
  | Steady.Settle i raw :: schedule' => RequestResult.set_index i raw :: settlements schedule'
  | Steady.LoopTurn _ _ :: schedule' => settlements schedule'
  end.

(** The number of failures a list of results starts with, and the number it
    ends with. *)
Fixpoint leading_failures (rs : list RequestResult.t) : nat :=
  match rs with
  | [] => 0
  | r :: rs' => if RequestResult.success r then 0 else S (leading_failures rs')
  end.

Definition trailing_failures (rs : list RequestResult.t) : nat :=
  leading_failures (rev rs).

(** A timeline entry that shows a result: the same request, stamped with the
    time it ended at and the seconds elapsed since the start of the test. *)
Definition mirrors (testStartTime : Z) (result : RequestResult.t)
  (entry : TimelineRequest.t) : Prop :=
  TimelineRequest.index entry = RequestResult.index result /\
  TimelineRequest.timestamp entry = RequestResult.endTime result /\
  TimelineRequest.elapsedSec entry
  = inject_Z (RequestResult.endTime result - testStartTime) / 1000 /\
  TimelineRequest.duration entry = RequestResult.duration result /\
  TimelineRequest.tacoSigningTimeMs entry = RequestResult.tacoSigningTimeMs result /\
  TimelineRequest.success entry = RequestResult.success result /\
  TimelineRequest.error entry = RequestResult.error result.

(** The books of a steady run: every result a promise holds has been
    recorded; a request that was dispatched is in flight or recorded, never
    both; the counters count what [results] holds; the timeline shows the
    results one for one, and the in-flight figure of an entry leaves room for
    the requests completed before it. *)
Definition accounted (testStartTime : Z) (st : Steady.State) : Prop :=
  (forall k r, In (k, r) (Steady.fulfilled st) ->
               In (RequestResult.index r) (map RequestResult.index (Steady.results st))) /\
  NoDup (Steady.pendingRequests st) /\
  Permutation
    (Steady.pendingRequests st ++ map RequestResult.index (Steady.results st))
    (seq 0 (Steady.nextRequestIndex st)) /\
  Steady.completedCount st = length (Steady.results st) /\
  Steady.consecutiveFailures st = trailing_failures (Steady.results st) /\
  Forall2 (mirrors testStartTime) (Steady.results st) (Steady.timeline st) /\
  (forall k entry, nth_error (Steady.timeline st) k = Some entry ->
                   (TimelineRequest.inFlight entry + S k <= Steady.nextRequestIndex st)%nat).

(** How the failure limit stands: the stop flag is only up with the reason
    set and the limit reached by the current run of failures; a run that has
    a stop condition never waits for what is in flight, and a run that waits
    has something to wait for. *)
Definition limit_respected (options : SteadyModeOptions.t) (st : Steady.State) : Prop :=
  (Steady.shouldStop st = true ->
   Steady.stopReason st = consecutive_failures /\
   exists m, Steady.maxConsecutiveFailures options = Some m /\
             Qle_bool m (inject_Z (Z.of_nat (Steady.consecutiveFailures st))) = true) /\
  (Steady.maxConsecutiveFailures options = None -> Steady.stopReason st <> consecutive_failures) /\
  (Steady.hasStopConditions options = false -> Steady.stopReason st = completed) /\
  (forall remaining, Steady.phase st = Steady.Draining remaining ->
                     Steady.hasStopConditions options = false /\
                     Steady.pendingRequests st <> []) /\
  (forall r, Steady.phase st = Steady.Returned r ->
             Steady.hasStopConditions options = false -> Steady.pendingRequests st = []).

(** The state right after the [return] statement: the result object holds the
    reason and the counter as they stand. *)
Definition returns_its_own (st : Steady.State) : Prop :=
  Steady.phase st
  = Steady.Returned
      (Steady.stopReason st,
       if StopReason_eqb (Steady.stopReason st) consecutive_failures
       then Some (Steady.consecutiveFailures st) else None).

(** Without a stop condition the function only ever returns
    [stopReason = "completed"] and no [consecutiveFailuresAtStop]. *)
Definition plain_return (options : SteadyModeOptions.t) (st : Steady.State) : Prop :=
  Steady.hasStopConditions options = false ->
  forall r, Steady.phase st = Steady.Returned r -> r = (completed, None).

(** Sample data: five requests a second for one second, with the results of
    the second and third request arriving in the opposite order and the last
    two after the loop is left. *)
Definition five_for_a_second : SteadyModeOptions.t :=
  SteadyModeOptions.mk 5 (Some 1) None None None.

Definition mixed_arrivals : list Steady.Event :=
  [Steady.LoopTurn 0 0; Steady.Settle 0 (succeeded_result 0 150);
   Steady.LoopTurn 200 200; Steady.LoopTurn 400 400;
   Steady.Settle 2 (failed_result 400 450); Steady.Settle 1 (failed_result 200 550);
   Steady.LoopTurn 600 600; Steady.LoopTurn 800 800; Steady.LoopTurn 1000 1000;
   Steady.Settle 4 (succeeded_result 800 1100);
   Steady.Settle 3 (failed_result 600 1200)]%Z.

(** Sample data: at most two seconds and at most two failures in a row, at
    five requests a second. *)
Definition two_seconds_or_two_failures : SteadyModeOptions.t :=
  SteadyModeOptions.mk 5 None None (Some 2) (Some 2).

Definition until_the_deadline : list Steady.Event :=
  [Steady.LoopTurn 0 0; Steady.Settle 0 (succeeded_result 0 150);
   Steady.LoopTurn 200 200; Steady.LoopTurn 400 400;
   Steady.Settle 1 (failed_result 200 550)]%Z.

(** ** Burst mode: what a run returns *)

(** What the [then] callback of [runBurstMode] makes of a completion. *)
Definition stamped (ev : nat * RequestResult.t) : nat * RequestResult.t :=
  (fst ev, RequestResult.set_index (fst ev) (snd ev)).

(** Where the data of a burst run comes from: the promises hold the
    completions in the order they arrived, and every result collected is the
    value of the promise of its index. *)
Definition sourced (completions : list (nat * RequestResult.t)) (st : Burst.State) : Prop :=
  Burst.fulfilled st = map stamped completions /\
  Forall (fun r => In (RequestResult.index r, r) (Burst.fulfilled st)) (Burst.results st).

(** Sample data: a steady run of half a request a second for one second. *)
Definition half_a_request : SteadyModeOptions.t :=
  SteadyModeOptions.mk (1 # 2) (Some 1) None None None.

(** ** Results processing: the figures of a summary *)

(** How often a message occurs in a list. *)
Definition occurrences (message : string) (messages : list string) : nat :=
  length (filter (String.eqb message) messages).

(** The histogram of a list of messages: each message once, in the order of
    first appearance, with the number of its occurrences. *)
Definition histogram (messages : list string) : list ErrorWithCount.t :=
  map (fun m => ErrorWithCount.mk m (occurrences m messages)) (first_seen messages).

(** The texts [printResults] keeps of the failed requests. *)
Definition failureTexts (results : list RequestResult.t) : list string :=
  map errorOrUnknown (filter (fun r => negb (RequestResult.success r)) results).

(** The span a summary reports, in seconds before rounding: from the start of
    the first result to the end of the last one. *)
Definition span (results : list RequestResult.t) : Q :=
  match results with
  | [] => 0
  | first :: _ =>
      inject_Z (RequestResult.endTime (last results first) - RequestResult.startTime first)
      / 1000
  end.

(** A result that comes from the request executor: what
    [executeSigningRequest] fulfilled with, under some behaviour of the
    signing layer, with the index a controller wrote into it. *)
Definition executed (r : RequestResult.t) : Prop :=
  exists (REQUEST_TIMEOUT_SECONDS : Z) (prepared : PreparedPayload.t) (startTime : Z)
         (signing : Executor.Signing) (now1 now2 : Z) (raw : RequestResult.t) (i : nat),
    Executor.executeSigningRequest REQUEST_TIMEOUT_SECONDS prepared startTime signing
      now1 now2 = Executor.Fulfilled raw /\
    r = RequestResult.set_index i raw.

(** [successRate] of the JSON summary of [main], which is also [successPct]
    of the report: [total > 0 ? (success / total) * 100 : 0]. *)
Definition successRate (requests : RunResult.Requests) : Q :=
  if (0 <? RunResult.total requests)%nat
  then inject_Z (Z.of_nat (RunResult.success requests))
       / inject_Z (Z.of_nat (RunResult.total requests)) * 100
  else 0.

(** Sample data: a success, a timeout of the executor and a failure of the
    signing layer, as the executor reports them. *)
Definition three_outcomes : list RequestResult.t :=
  [RequestResult.mk 0 0 150 150 true None (Some 140%Z);
   RequestResult.mk 1 200 120200 120000 false
     (Some "[timeout] Request timed out after 120s"%string) None;
   RequestResult.mk 2 400 450 50 false
     (Some "[taco-signing] Node 0xABC did not respond before timeout"%string) None;
   RequestResult.mk 3 600 120600 120000 false
     (Some "[timeout] Request timed out after 120s"%string) None].

(** ** The report generator (report.ts) *)

Module Report.

(** [generateReport], up to the call of [generateHTML]: the figures it
    derives from the test data. *)

Definition allResults (data : TestData.t) : list RunResult.t :=
  TestData.steadyResults data ++ TestData.burstResults data.

Definition totalRequests (data : TestData.t) : nat :=
  Js.reduce (fun a r => (a + RunResult.total (RunResult.requests r))%nat) 0%nat
    (allResults data).

Definition totalSuccess (data : TestData.t) : nat :=
  Js.reduce (fun a r => (a + RunResult.success (RunResult.requests r))%nat) 0%nat
    (allResults data).

Definition overallSuccessRate (data : TestData.t) : Q :=
  if (0 <? totalRequests data)%nat
  then inject_Z (Z.of_nat (totalSuccess data)) / inject_Z (Z.of_nat (totalRequests data))
       * 100
  else 0.

(** [steadyResults.length === 1 && steadyResults[0].timeline
     && steadyResults[0].timeline.length > 0] *)
Definition isTimeline (data : TestData.t) : bool :=
  match TestData.steadyResults data with
  | [r] => match RunResult.timeline r with
           | Some (_ :: _) => true
           | _ => false
           end
  | _ => false
  end.

(** [steadyResults.length > 1 || burstResults.length > 1] *)
Definition isSweep (data : TestData.t) : bool :=
  (1 <? length (TestData.steadyResults data))%nat
  || (1 <? length (TestData.burstResults data))%nat.

(** The body of the loop over [r.nodeFailures]: the entry of the node is
    fetched or created, the figures are added to it, and it is stored back. *)
Definition addNodeFailure (nodeMap : NodeMap.t) (nf : NodeFailure.t) : NodeMap.t :=
  let ex :=
    match NodeMap.get (NodeFailure.address nf) nodeMap with
    | Some e => e
    | None => (0, 0)%nat
    end in
  NodeMap.set (NodeFailure.address nf)
    (fst ex + NodeFailure.timeouts nf, snd ex + NodeFailure.otherErrors nf)%nat nodeMap.

Definition nodeMap (data : TestData.t) : NodeMap.t :=
  fold_left (fun m r => fold_left addNodeFailure (RunResult.nodeFailures r) m)
    (allResults data) [].

(** [chartData.nodeFailures] *)
Record NodeFailuresChart : Set := mkChart
  { labels : list string;
    fullLabels : list string;
    timeouts : list nat;
    otherErrors : list nat }.

Definition entryTotal (entry : string * (nat * nat)) : Z :=
  Z.of_nat (fst (snd entry) + snd (snd entry)).

(** [if (nodeMap.size > 0) { ... }]; [None] when the property is not set. *)
Definition nodeFailuresChart (data : TestData.t) : option NodeFailuresChart :=
  match nodeMap data with
  | [] => None
  | _ :: _ =>
      let entries :=
        Js.Array_sort (fun a b => entryTotal b - entryTotal a)%Z (nodeMap data) in
      Some (mkChart
              (map (fun e => (String.substring 0 10 (fst e) ++ "...")%string) entries)
              (map fst entries)
              (map (fun e => fst (snd e)) entries)
              (map (fun e => snd (snd e)) entries))
  end.

(** [s.replace(/c/g, by)] for a pattern of one character. *)
Fixpoint replaceAll (c : ascii) (by_ : string) (s : string) : string :=
  match s with
  | EmptyString => EmptyString
  | String a s' =>
      if Ascii.eqb a c then (by_ ++ replaceAll c by_ s')%string
      else String a (replaceAll c by_ s')
  end.

(** The double quote. *)
Definition quote : ascii := ascii_of_nat 34.

(** [generateHTML]: the texts of an error entry. *)
Definition isLong (message : string) : bool := (120 <? String.length message)%nat.

Definition shortMsg (message : string) : string :=
  if isLong message then (String.substring 0 120 message ++ "...")%string else message.

Definition escapedFull (message : string) : string :=
  replaceAll quote "&quot;"
    (replaceAll ">" "&gt;" (replaceAll "<" "&lt;" (replaceAll "&" "&amp;" message))).

(** The text shown in the summary line of the entry. *)
Definition escapedSummary (message : string) : string :=
  replaceAll ">" "&gt;" (replaceAll "<" "&lt;" (replaceAll "&" "&amp;" (shortMsg message))).

(** [.] of a regular expression: any character but a line terminator. *)
Definition isDot (c : ascii) : bool :=
  negb (Ascii.eqb c (ascii_of_nat 10) || Ascii.eqb c (ascii_of_nat 13)).

(** The next [n] characters are there, and each matches [.]. *)
Fixpoint dots (n : nat) (s : string) : bool :=
  match n with
  | O => true
  | S n' =>
      match s with
      | EmptyString => false
      | String c s' => isDot c && dots n' s'
      end
  end.

(** [error.replace(/(.{80})/g, "<br>")]: each run of 80 characters that is
    found is replaced by the text, which does not refer to the group;
    [skip] counts the characters of the run still to be passed over. *)
Fixpoint replaceRuns (skip : nat) (s : string) : string :=
  match s with
  | EmptyString => EmptyString
  | String c s' =>
      match skip with
      | S skip' => replaceRuns skip' s'
      | O =>
          if dots 80 s then ("<br>" ++ replaceRuns 79 s')%string
          else String c (replaceRuns 0 s')
      end
  end.

(** [generateReport]: the hover text of a request in the timeline chart,
    [t.error ? t.error.replace(...) : ""] and
    ["#" + t.index + (errText ? "<br>" + errText : "")]. *)
Definition errText (error : option string) : string :=
  match error with
  | Some (String c e) => replaceRuns 0 (String c e)
  | _ => EmptyString
  end.

Definition timelineText (index : nat) (error : option string) : string :=
  ("#" ++ NilEmpty.string_of_uint (Nat.to_uint index) ++
   match errText error with
   | EmptyString => EmptyString
   | String c text => "<br>" ++ String c text
   end)%string.

End Report.

(** The entity that stands for a character in the text of a page, and the
    one that stands for it in the value of an attribute. *)
Definition textEntity (c : ascii) : string :=
  if Ascii.eqb c "&" then "&amp;"
  else if Ascii.eqb c "<" then "&lt;"
  else if Ascii.eqb c ">" then "&gt;"
  else String c EmptyString.

Definition entity (c : ascii) : string :=
  if Ascii.eqb c Report.quote then "&quot;" else textEntity c.

(** A text, character by character. *)
Fixpoint escapeWith (ent : ascii -> string) (s : string) : string :=
  match s with
  | EmptyString => EmptyString
  | String c s' => (ent c ++ escapeWith ent s')%string
  end.

(** [f.endsWith(suffix)] *)
Definition endsWith (suffix s : string) : bool :=
  (String.length suffix <=? String.length s)%nat
  && String.eqb (String.substring (String.length s - String.length suffix)
                   (String.length suffix) s) suffix.

(** The comparator of [Array.prototype.sort()] without argument, on strings:
    by code units. *)
Definition compareStrings (a b : string) : Z :=
  match String.compare a b with
  | Lt => (-1)%Z
  | Eq => 0%Z
  | Gt => 1%Z
  end.

(** [getLatestDataFile], in runner.ts and in report.ts alike: [readdir] is
    what [fs.readdirSync(DATA_DIR)] returns. *)
Definition getLatestDataFile (readdir : list string) : option string :=
  let files := filter (endsWith ".json") readdir in
  match files with
  | [] => None
  | _ :: _ =>
      match rev (Js.Array_sort compareStrings files) with
      | latest :: _ => Some (Files.DATA_DIR ++ "/" ++ latest)%string
      | [] => None
      end
  end.

(** The figures of all the node failures of a list of summaries, added up by
    node: the reference the chart is compared with. *)
Definition allNodeFailures (data : TestData.t) : list NodeFailure.t :=
  flat_map RunResult.nodeFailures (Report.allResults data).

Definition timeoutsOf (addr : string) (nfs : list NodeFailure.t) : nat :=
  list_sum (map NodeFailure.timeouts
              (filter (fun nf => String.eqb (NodeFailure.address nf) addr) nfs)).

Definition otherErrorsOf (addr : string) (nfs : list NodeFailure.t) : nat :=
  list_sum (map NodeFailure.otherErrors
              (filter (fun nf => String.eqb (NodeFailure.address nf) addr) nfs)).

Definition merged (nfs : list NodeFailure.t) : NodeMap.t :=
  map (fun addr => (addr, (timeoutsOf addr nfs, otherErrorsOf addr nfs)))
      (first_seen (map NodeFailure.address nfs)).

(** A character occurs in a string. *)
Fixpoint occurs (c : ascii) (s : string) : bool :=
  match s with
  | EmptyString => false
  | String a s' => Ascii.eqb a c || occurs c s'
  end.

(** Sample data: directory listings, a message with markup in it, and two
    summaries that blame the same node. *)
Definition three_files : list string :=
  ["2026-02-16-093000.json"; "notes.txt"; "2026-02-17-081500.json";
   "2026-02-16-235959.json"]%string.

Definition markup_message : string := "<b>Tom & Jerry</b>".

Definition blamed (nodes : list NodeFailure.t) : RunResult.t :=
  RunResult.mk steady 1 1 None (RunResult.mkRequests 4 1 3)
    (Stats.mk 0 0 0 0 0 0 0) None None None None None nodes [] None None None None.

Definition plain_config : TestData.Config :=
  TestData.mkConfig "steady" (Json.Finite 5) (Json.Finite 1)
    [Json.Finite 1] [Json.Finite 1] (Json.Finite 10)
    (Some "devnet"%string) (Some (Json.Finite 3)) (Some (Json.Finite 84532)) None None.

Definition two_blames : TestData.t :=
  TestData.mk "2026-02-16T12:34:56.000Z" plain_config
    [blamed [NodeFailure.mk "0xAAA" 1 0; NodeFailure.mk "0xBBB" 2 1]]
    [blamed [NodeFailure.mk "0xBBB" 0 1; NodeFailure.mk "0xAAA" 1 0;
                 NodeFailure.mk "0xCCC" 5 0]].

(** ** Statistics and failure attribution: further vocabulary *)

(** Every character of a string is in a class. *)
Fixpoint forall_chars (cls : ascii -> bool) (s : string) : bool :=
  match s with
  | EmptyString => true
  | String c s' => cls c && forall_chars cls s'
  end.


Definition two_nodes_message : string :=
  "Node 0xAb12 did not respond before timeout; Node  0x00ff did not respond before timeout".

(** ** The sweep of [main]: levels and pauses *)

Module Sweep.

(** What the sweep awaits, in order: a steady run, a burst run, or one
    [sleep(ms)] of a cooldown. *)
Inductive Step : Set :=
| SteadyRun (testRate : Q)
| BurstRun (burstSize : Q)
| Sleep (ms : Z).

(** [cooldownTimer(seconds, label)], without what it writes to the console:
    the loop [for (let remaining = seconds; remaining > 0; remaining--)]
    sleeps one second per turn.  [turns] bounds the number of turns. *)
Fixpoint cooldownLoop (turns : nat) (remaining : Q) : list Step :=
  match turns with
  | O => []
  | S turns' =>
      if Qle_bool remaining 0 then []
      else Sleep 1000 :: cooldownLoop turns' (remaining - 1)
  end.

Definition cooldownTimer (seconds : Q) : list Step :=
  cooldownLoop (Z.to_nat (Qceiling seconds)) seconds.

(** [x !== xs[xs.length - 1]]; reading past the end of an empty array gives
    [undefined], which no number is equal to. *)
Definition notTheLast (x : Q) (xs : list Q) : bool :=
  match xs with
  | [] => true
  | y :: _ => negb (Qeq_bool x (last xs y))
  end.

Section Timed.
Variable JSON_parse_entries : string -> Js.Completion (list (string * string)).
Variable cooldown : Q.

(** The loop over [rates], each rate with what [runSteadyMode] returned for
    it: the steps awaited and [steadyResults].  A throw ends the loop. *)
Fixpoint steadyLoop (rates : list Q) (todo : list (Q * SteadyModeResult.t))
  : list Step * Js.Completion (list RunResult.t) :=
  match todo with
  | [] => ([], Js.Normal [])
  | (testRate, steadyResult) :: todo' =>
      match sweepSteadyLevel JSON_parse_entries testRate steadyResult with
      | Js.Throw e => ([SteadyRun testRate], Js.Throw e)
      | Js.Normal runResult =>
          let pause := if notTheLast testRate rates then cooldownTimer cooldown else [] in
          let (steps, rest) := steadyLoop rates todo' in
          (SteadyRun testRate :: pause ++ steps,
           steadyResults <- rest ;; Js.Normal (runResult :: steadyResults))
      end
  end.

(** The loop over [burstSizes], each size with what [runBurstMode] returned
    for it. *)
Fixpoint burstLoop (burstSizes : list Q) (todo : list (Q * list RequestResult.t))
  : list Step * Js.Completion (list RunResult.t) :=
  match todo with
  | [] => ([], Js.Normal [])
  | (burstSize, results) :: todo' =>
      match sweepBurstLevel JSON_parse_entries burstSize results with
      | Js.Throw e => ([BurstRun burstSize], Js.Throw e)
      | Js.Normal runResult =>
          let pause := if notTheLast burstSize burstSizes then cooldownTimer cooldown else [] in
          let (steps, rest) := burstLoop burstSizes todo' in
          (BurstRun burstSize :: pause ++ steps,
           burstResults <- rest ;; Js.Normal (runResult :: burstResults))
      end
  end.

(** The sweep branch of [main] with its pauses: the steps awaited, and
    [steadyResults] and [burstResults]. *)
Definition timed
  (steadyLevels : list (Q * SteadyModeResult.t))
  (burstLevels : list (Q * list RequestResult.t))
  : list Step * Js.Completion (list RunResult.t * list RunResult.t) :=
  let (steps1, steady) := steadyLoop (map fst steadyLevels) steadyLevels in
  match steady with
  | Js.Throw e => (steps1, Js.Throw e)
  | Js.Normal steadyResults =>
      let pause := cooldownTimer cooldown in
      let (steps2, bursts) := burstLoop (map fst burstLevels) burstLevels in
      (steps1 ++ pause ++ steps2,
       burstResults <- bursts ;; Js.Normal (steadyResults, burstResults))
  end.

End Timed.

End Sweep.

(** Runs with a pause between each two of them, and none before the first or
    after the last. *)
Fixpoint paused_between (pause : list Sweep.Step) (runs : list Sweep.Step)
  : list Sweep.Step :=
  match runs with
  | [] => []
  | [run] => [run]
  | run :: runs' => run :: pause ++ paused_between pause runs'
  end.

(** No number of the list is equal to a later one. *)
Fixpoint all_differ (xs : list Q) : Prop :=
  match xs with
  | [] => True
  | x :: xs' => Forall (fun y => ~ x == y) xs' /\ all_differ xs'
  end.

(** Sample data: the levels of a sweep under the default settings, each with
    a run of three failures or a batch of one. *)
Definition default_steady_levels : list (Q * SteadyModeResult.t) :=
  map (fun rate => (rate, three_failures)) [1 # 2; 1; 3; 5; 10].

Definition default_burst_levels : list (Q * list RequestResult.t) :=
  map (fun size => (size, [failed_request 0 0])) [1; 3; 5; 10].

(** ** The report generator: success rates and their colours *)

(** [overallSuccessRate >= 95 ? COLORS.success
     : overallSuccessRate >= 80 ? COLORS.warning : COLORS.error], the colour
    of the overall badge. *)
Definition successColor (overallSuccessRate : Q) : string :=
  if Qle_bool 95 overallSuccessRate then "#96FF5E"
  else if Qle_bool 80 overallSuccessRate then "#ffa726"
  else "#ef5350".

(** The colour of the success rate on a summary card, by the same rule. *)
Definition pctColor (successPct : Q) : string :=
  if Qle_bool 95 successPct then "#96FF5E"
  else if Qle_bool 80 successPct then "#ffa726"
  else "#ef5350".
(* ================================================================== *)
(** * Proofs *)
(* ================================================================== *)

(** ** Double precision: rounding *)

Lemma pow2_Qpower (e : Z) : Double.pow2 e == 2 ^ e.
Proof.
  destruct e as [|p|p]; [reflexivity| |].
  - unfold Double.pow2. rewrite Pos2Z.inj_pow.
    rewrite (Zpower_Qpower 2 (Z.pos p)) by discriminate. reflexivity.
  - unfold Double.pow2.
    change (2 ^ Z.neg p) with (/ (inject_Z 2 ^ Z.pos p)).
    rewrite <- (Zpower_Qpower 2 (Z.pos p)) by discriminate.
    rewrite <- Pos2Z.inj_pow. reflexivity.
Qed.

Lemma pow2_add (a b : Z) : Double.pow2 (a + b) == Double.pow2 a * Double.pow2 b.
Proof. rewrite !pow2_Qpower. apply Qpower_plus. discriminate. Qed.

Lemma pow2_pos (e : Z) : 0 < Double.pow2 e.
Proof. destruct e; reflexivity. Qed.

Lemma pow2_nonneg (e : Z) : (0 <= e)%Z -> Double.pow2 e = inject_Z (2 ^ e).
Proof.
  destruct e as [|p|p]; intros H; [reflexivity| |lia].
  unfold Double.pow2. now rewrite Pos2Z.inj_pow.
Qed.

Lemma pow2_ge_1 (e : Z) : (0 <= e)%Z -> 1 <= Double.pow2 e.
Proof.
  intros H. rewrite (pow2_nonneg H). change 1 with (inject_Z 1).
  rewrite <- Zle_Qle. pose proof (Z.pow_pos_nonneg 2 e). lia.
Qed.


Lemma pow2_lt (a b : Z) : (a < b)%Z -> Double.pow2 a < Double.pow2 b.
Proof.
  intros H. replace b with (a + 1 + (b - a - 1))%Z by lia. rewrite !pow2_add.
  pose proof (pow2_pos a). pose proof (@pow2_ge_1 (b - a - 1) ltac:(lia)).
  change (Double.pow2 1) with 2. nra.
Qed.






(** The nearest integer *)






(** Rounding a positive number *)








(** Rounding *)
















(** Rounding: the error *)





(** The square root *)


Section SquareRoot.
Variable x : Q.
Hypothesis Hx : 0 < x.

Let E := Double.floor_log2 (Qred x).
Let e := (E / 2 - 52)%Z.
Let y := Qred x / Double.pow2 (2 * e).
Let s := Z.sqrt (Qfloor y).
Let m :=
  match Qcompare y ((inject_Z s + (1 # 2)) * (inject_Z s + (1 # 2))) with
  | Eq => if Z.even s then s else (s + 1)%Z
  | Lt => s
  | Gt => (s + 1)%Z
  end.






End SquareRoot.

(** The test vectors of the specification. *)
Example calculateStats_single :
  calculateStats [100]%Z = Stats.mk 100 100 100 100 100 100 0.
Proof. vm_compute. reflexivity. Qed.

Example calculateStats_ten :
  calculateStats [10; 20; 30; 40; 50; 60; 70; 80; 90; 100]%Z
  = Stats.mk 10 100 55 50 100 100 29.
Proof. vm_compute. reflexivity. Qed.

(** ** Facts about the stable sort *)

Section SortFacts.
Variable A : Type.
Variable cmp : A -> A -> Z.

Lemma insert_perm (x : A) (l : list A) : Permutation (Js.insert cmp x l) (x :: l).
Proof.
  induction l as [|y l IH]; simpl; [reflexivity|].
  destruct (cmp x y <=? 0)%Z; [reflexivity|].
  rewrite IH. apply perm_swap.
Qed.

Lemma Array_sort_perm (l : list A) : Permutation (Js.Array_sort cmp l) l.
Proof.
  induction l as [|x l IH]; simpl; [constructor|].
  rewrite insert_perm. now constructor.
Qed.

Lemma Array_sort_length (l : list A) : length (Js.Array_sort cmp l) = length l.
Proof. apply Permutation_length, Array_sort_perm. Qed.

(** A comparator is consistent when it never puts two elements each after
    the other. *)
Hypothesis cmp_total : forall a b, (cmp a b > 0)%Z -> (cmp b a <= 0)%Z.

Let before (a b : A) : Prop := (cmp a b <= 0)%Z.

Lemma insert_sorted (x : A) (l : list A) :
  Sorted before l -> Sorted before (Js.insert cmp x l).
Proof.
  induction 1 as [|y l Hs IH Hd]; simpl.
  - repeat constructor.
  - destruct (cmp x y <=? 0)%Z eqn:E.
    + apply Z.leb_le in E. repeat constructor; assumption.
    + apply Z.leb_gt in E. constructor; [assumption|].
      destruct l as [|z l]; simpl.
      * constructor. apply cmp_total. lia.
      * inversion Hd; subst.
        destruct (cmp x z <=? 0)%Z; constructor; [apply cmp_total; lia|assumption].
Qed.

Lemma Array_sort_sorted (l : list A) : Sorted before (Js.Array_sort cmp l).
Proof.
  induction l as [|x l IH]; simpl; [constructor|]. now apply insert_sorted.
Qed.

(** Stability: elements that the comparator does not separate keep the
    order they had. *)
Lemma filter_insert (P : A -> bool) (x : A) (l : list A) :
  (forall a b, P a = true -> P b = true -> (cmp a b <= 0)%Z) ->
  filter P (Js.insert cmp x l) = filter P (x :: l).
Proof.
  intros HP. induction l as [|y l IH]; [reflexivity|].
  simpl. destruct (cmp x y <=? 0)%Z eqn:E; [reflexivity|].
  apply Z.leb_gt in E. simpl. rewrite IH. simpl.
  destruct (P x) eqn:Px, (P y) eqn:Py; try reflexivity.
  specialize (HP x y Px Py). lia.
Qed.

Lemma Array_sort_stable (P : A -> bool) (l : list A) :
  (forall a b, P a = true -> P b = true -> (cmp a b <= 0)%Z) ->
  filter P (Js.Array_sort cmp l) = filter P l.
Proof.
  intros HP. induction l as [|x l IH]; [reflexivity|].
  simpl Js.Array_sort. rewrite filter_insert by assumption.
  simpl. now rewrite IH.
Qed.
End SortFacts.

(** ** Facts about sorted lists of integers *)




(** ** Sums *)






(** ** Rounding *)

Lemma Math_round_spec (x : Q) : is_rounding_of (Js.Math_round x) x.
Proof.
  unfold is_rounding_of, Js.Math_round.
  pose proof (Qfloor_le (x + (1 # 2))) as Hl.
  pose proof (Qlt_floor (x + (1 # 2))) as Hu.
  rewrite inject_Z_plus in Hu. change (inject_Z 1) with 1 in Hu.
  split; lra.
Qed.





(** ** The statistics engine *)





(** ** Bounds of the mean and of the variance *)









(** ** The statistics in double precision *)












(** ** The standard deviation in double precision *)






Section RoundingErrors.
Variables u a : Q.
Hypothesis Hu : 0 <= u.
Hypothesis Ha : 0 <= a.
Hypothesis Hround : forall x : Q, 0 <= x ->
  x * (1 - u) - a <= Double.round x /\ Double.round x <= x * (1 + u) + a.


End RoundingErrors.










(** ** The request executor *)

(** C8.  [executeSigningRequest] never propagates an exception: whatever the
    signing layer does, its promise fulfils with one [RequestResult].  The
    result is a success exactly when the signing operation resolved before
    the timeout; when the operation threw, the error is ["[taco-signing] "]
    followed by the message thrown; when the timeout elapsed first, it is
    ["[timeout] "] followed by the timeout message. *)
Theorem executeSigningRequest_always_fulfils :
  forall (REQUEST_TIMEOUT_SECONDS : Z) (prepared : PreparedPayload.t)
         (startTime : Z) (signing : Executor.Signing) (now1 now2 : Z),
  exists r : RequestResult.t,
    Executor.executeSigningRequest REQUEST_TIMEOUT_SECONDS prepared startTime signing
      now1 now2 = Executor.Fulfilled r /\
    match signing with
    | Executor.SignResolves _ _ _ =>
        RequestResult.success r = true /\ RequestResult.error r = None
    | Executor.ContextThrows e _ | Executor.SignRejects _ e _ =>
        RequestResult.success r = false /\
        RequestResult.error r = Some ("[taco-signing] " ++ Executor.errorMessage e)%string
    | Executor.StillSigning =>
        RequestResult.success r = false /\
        RequestResult.error r =
          Some ("[timeout] " ++ "Request timed out after "
                ++ Executor.String_of_Z REQUEST_TIMEOUT_SECONDS ++ "s")%string
    end /\
    (RequestResult.success r = false ->
     exists rest : string,
       (Executor.threw signing <> None /\
        RequestResult.error r = Some ("[taco-signing] " ++ rest)%string) \/
       (signing = Executor.StillSigning /\
        RequestResult.error r = Some ("[timeout] " ++ rest)%string)).
Proof.
  intros T prepared startTime signing now1 now2.
  destruct signing as [e t|t0 t1 t2|t0 e t|]; cbn;
    eexists; (split; [reflexivity|]); cbn; (split; [split; reflexivity|]); intros H;
    try discriminate H.
  - exists (Executor.errorMessage e). left. split; [discriminate|reflexivity].
  - exists (Executor.errorMessage e). left. split; [discriminate|reflexivity].
  - eexists. right. split; reflexivity.
Qed.

(** ** Failure attribution *)

Lemma fold_left_map {A B C : Type} (f : A -> C -> A) (g : B -> C) (l : list B) (a : A) :
  fold_left f (map g l) a = fold_left (fun acc x => f acc (g x)) l a.
Proof. revert a. induction l as [|x l IH]; intros a; simpl; [reflexivity|apply IH]. Qed.

Lemma fold_left_pointwise {A B : Type} (f g : A -> B -> A) (l : list B) (a : A) :
  (forall acc x, f acc x = g acc x) -> fold_left f l a = fold_left g l a.
Proof.
  intros E. revert a. induction l as [|x l IH]; intros a; simpl; [reflexivity|].
  now rewrite E, IH.
Qed.

Section AttributionFacts.
Variable JSON_parse_entries : string -> Js.Completion (list (string * string)).

Lemma scanError_signals (m : NodeMap.t) (error : string) :
  scanError JSON_parse_entries m error
  = Js.Normal (fold_left applySignal (signals_of JSON_parse_entries error) m).
Proof.
  unfold scanError, signals_of. rewrite fold_left_app, fold_left_map.
  change (fun acc x => applySignal acc (x, true)) with (countFailure true).
  destruct (Regex.jsonMatch error) as [g|]; [|reflexivity].
  destruct (JSON_parse_entries g) as [errObj|e]; simpl; [|reflexivity].
  rewrite fold_left_map. f_equal. apply fold_left_pointwise. now intros acc [addr msg].
Qed.

Lemma scanErrors_signals (errors : list string) (m : NodeMap.t) :
  scanErrors JSON_parse_entries m errors
  = Js.Normal (fold_left applySignal (signals JSON_parse_entries errors) m).
Proof.
  revert m. induction errors as [|error errors IH]; intros m; simpl; [reflexivity|].
  rewrite scanError_signals. simpl. rewrite IH. unfold signals. simpl.
  now rewrite fold_left_app.
Qed.
End AttributionFacts.

Lemma first_seen_In (a : string) (l : list string) : In a (first_seen l) <-> In a l.
Proof.
  induction l as [|b l IH]; simpl; [tauto|].
  rewrite filter_In, IH, negb_true_iff, String.eqb_neq.
  destruct (String.string_dec b a) as [->|Hne]; [tauto|].
  split; [tauto|]. intros [H|H]; [tauto|]. right. split; [assumption|congruence].
Qed.

Lemma first_seen_NoDup (l : list string) : NoDup (first_seen l).
Proof.
  induction l as [|b l IH]; simpl; constructor.
  - rewrite filter_In, String.eqb_refl. simpl. intros [_ H]. discriminate.
  - now apply NoDup_filter.
Qed.

Lemma first_seen_snoc (l : list string) (a : string) :
  first_seen (l ++ [a])
  = if existsb (String.eqb a) l then first_seen l else first_seen l ++ [a].
Proof.
  induction l as [|b l IH]; simpl; [reflexivity|]. rewrite IH.
  destruct (String.eqb_spec a b) as [->|Hne]; simpl.
  - destruct (existsb (String.eqb b) l); [reflexivity|].
    rewrite filter_app. simpl. rewrite String.eqb_refl. simpl. now rewrite app_nil_r.
  - destruct (existsb (String.eqb a) l); [reflexivity|].
    rewrite filter_app. simpl.
    destruct (String.eqb_spec a b) as [E|_]; [contradiction|reflexivity].
Qed.

Lemma existsb_eqb_In (a : string) (l : list string) :
  existsb (String.eqb a) l = true <-> In a l.
Proof.
  rewrite existsb_exists. split.
  - intros (x & Hx & E). apply String.eqb_eq in E. now subst.
  - intros H. exists a. split; [assumption|apply String.eqb_refl].
Qed.

Lemma NodeMap_get_map (f : string -> nat * nat) (a : string) (keys : list string) :
  NodeMap.get a (map (fun k => (k, f k)) keys)
  = if existsb (String.eqb a) keys then Some (f a) else None.
Proof.
  induction keys as [|k keys IH]; simpl; [reflexivity|].
  rewrite (String.eqb_sym a k).
  destruct (String.eqb_spec k a) as [->|_]; simpl; [reflexivity|apply IH].
Qed.

Lemma NodeMap_set_absent (f : string -> nat * nat) (a : string) (v : nat * nat)
  (keys : list string) :
  ~ In a keys ->
  NodeMap.set a v (map (fun k => (k, f k)) keys) = map (fun k => (k, f k)) keys ++ [(a, v)].
Proof.
  induction keys as [|k keys IH]; simpl; intros H; [reflexivity|].
  destruct (String.eqb_spec k a) as [->|_]; [tauto|]. rewrite IH; tauto.
Qed.

Lemma NodeMap_set_present (f g : string -> nat * nat) (a : string) (keys : list string) :
  NoDup keys -> In a keys -> (forall k, k <> a -> g k = f k) ->
  NodeMap.set a (g a) (map (fun k => (k, f k)) keys) = map (fun k => (k, g k)) keys.
Proof.
  intros ND Hin Hg. induction keys as [|k keys IH]; simpl; [contradiction|].
  inversion ND as [|? ? Hk ND']; subst.
  destruct (String.eqb_spec k a) as [->|Hne].
  - f_equal. apply map_ext_in. intros k Hk'. rewrite Hg; [reflexivity|]. congruence.
  - rewrite (Hg k Hne). f_equal. apply IH; [assumption|].
    destruct Hin; [contradiction|assumption].
Qed.

Lemma count_signals_snoc (a : string) (t : bool) (sigs : list (string * bool))
  (b : string) (t' : bool) :
  count_signals a t (sigs ++ [(b, t')])
  = (count_signals a t sigs + if String.eqb b a && Bool.eqb t' t then 1 else 0)%nat.
Proof.
  unfold count_signals. rewrite filter_app, length_app. simpl.
  destruct (String.eqb b a && Bool.eqb t' t); reflexivity.
Qed.

Lemma count_signals_absent (a : string) (t : bool) (sigs : list (string * bool)) :
  ~ In a (map fst sigs) -> count_signals a t sigs = 0%nat.
Proof.
  unfold count_signals. induction sigs as [|[b t'] sigs IH]; simpl; intros H; [reflexivity|].
  destruct (String.eqb_spec b a) as [->|_]; [tauto|]. simpl. apply IH. tauto.
Qed.

Lemma fold_applySignal_tally (sigs : list (string * bool)) :
  fold_left applySignal sigs [] = tally sigs.
Proof.
  induction sigs as [|[b t] sigs IH] using rev_ind; [reflexivity|].
  rewrite fold_left_app, IH. simpl. unfold applySignal, countFailure, tally. simpl.
  rewrite map_app. change (map fst [(b, t)]) with [b]. rewrite first_seen_snoc.
  rewrite NodeMap_get_map.
  destruct (existsb (String.eqb b) (first_seen (map fst sigs))) eqn:E1.
  - assert (Hin : In b (first_seen (map fst sigs))) by now apply existsb_eqb_In.
    assert (E2 : existsb (String.eqb b) (map fst sigs) = true)
      by now apply existsb_eqb_In, first_seen_In.
    rewrite E2. cbn [fst snd].
    set (g := fun addr => (count_signals addr true (sigs ++ [(b, t)]),
                           count_signals addr false (sigs ++ [(b, t)]))).
    replace (if t then _ else _) with (g b).
    + apply NodeMap_set_present; [apply first_seen_NoDup|assumption|].
      intros k Hne. unfold g. rewrite !count_signals_snoc.
      destruct (String.eqb_spec b k) as [->|_]; [contradiction|]. simpl.
      now rewrite !Nat.add_0_r.
    + unfold g. rewrite !count_signals_snoc, String.eqb_refl.
      destruct t; simpl; f_equal; lia.
  - assert (Hnin : ~ In b (first_seen (map fst sigs))).
    { intros H. apply existsb_eqb_In in H. congruence. }
    assert (E2 : existsb (String.eqb b) (map fst sigs) = false).
    { destruct (existsb _ (map fst sigs)) eqn:E; [|reflexivity].
      apply existsb_eqb_In, first_seen_In in E. contradiction. }
    rewrite E2, NodeMap_set_absent by assumption. rewrite map_app. simpl.
    assert (H0 : forall t', count_signals b t' sigs = 0%nat)
      by (intros; apply count_signals_absent; now rewrite <- first_seen_In).
    f_equal.
    + apply map_ext_in. intros k Hk. rewrite !count_signals_snoc.
      destruct (String.eqb_spec b k) as [->|_]; [contradiction|]. simpl.
      now rewrite !Nat.add_0_r.
    + rewrite !count_signals_snoc, !H0, String.eqb_refl. cbn [fst snd].
      destruct t; reflexivity.
Qed.

Lemma failures_sorted (l : list NodeFailure.t) :
  StronglySorted (fun a b => (failures b <= failures a)%Z)
    (Js.Array_sort (fun a b => failures b - failures a)%Z l).
Proof.
  apply Sorted_StronglySorted.
  - intros a b c Hab Hbc. lia.
  - pose proof (@Array_sort_sorted _ (fun a b => failures b - failures a)%Z
                  ltac:(intros; lia) l) as H.
    induction H as [|a l0 _ IH Hd]; constructor; [assumption|].
    destruct Hd; constructor. lia.
Qed.

(** C6.  On the single message ["Node 0xABC did not respond before timeout"]
    [parseNodeFailures] returns the one entry [0xABC] with one timeout and no
    other error.  On every list of messages it returns without throwing,
    whatever [JSON.parse] does; its output holds each node named by a signal
    once, with the number of its timeouts and of its other errors; it is
    sorted by descending total of failures, and nodes with the same total
    stand in the order they were first seen. *)
Theorem parseNodeFailures_sorted_attribution :
  forall (JSON_parse_entries : string -> Js.Completion (list (string * string)))
         (errors : list string),
    parseNodeFailures JSON_parse_entries ["Node 0xABC did not respond before timeout"%string]
    = Js.Normal [NodeFailure.mk "0xABC" 1 0] /\
    exists out : list NodeFailure.t,
      parseNodeFailures JSON_parse_entries errors = Js.Normal out /\
      Permutation out (attribution (signals JSON_parse_entries errors)) /\
      StronglySorted (fun a b => (failures b <= failures a)%Z) out /\
      forall k : Z,
        filter (fun f => (failures f =? k)%Z) out
        = filter (fun f => (failures f =? k)%Z)
            (attribution (signals JSON_parse_entries errors)).
Proof.
  intros J errors. split; [reflexivity|].
  unfold parseNodeFailures. rewrite scanErrors_signals. simpl Js.bind.
  rewrite fold_applySignal_tally.
  set (sigs := signals J errors).
  assert (E : map (fun '(address, counts) => NodeFailure.mk address (fst counts) (snd counts))
                (tally sigs) = attribution sigs).
  { unfold tally, attribution. rewrite map_map. reflexivity. }
  rewrite E. eexists. split; [reflexivity|]. split; [apply Array_sort_perm|].
  split; [apply failures_sorted|].
  intros k. apply Array_sort_stable. intros a b Ha Hb.
  apply Z.eqb_eq in Ha, Hb. lia.
Qed.

(** ** Results processing and the sweep *)

Lemma parseNodeFailures_returns
  (J : string -> Js.Completion (list (string * string))) (errors : list string) :
  exists out, parseNodeFailures J errors = Js.Normal out.
Proof.
  unfold parseNodeFailures. rewrite scanErrors_signals. simpl. eexists. reflexivity.
Qed.

Lemma printResults_nonempty
  (J : string -> Js.Completion (list (string * string)))
  (results : list RequestResult.t) (mode : Mode) (rate : Q) (label : option string) :
  results <> [] ->
  exists rr : RunResult.t,
    printResults J results mode rate label = Js.Normal rr /\
    RunResult.mode rr = mode /\
    RunResult.targetRate rr = rate /\
    RunResult.requests rr
    = RunResult.mkRequests (length results)
        (length (filter RequestResult.success results))
        (length (filter (fun r => negb (RequestResult.success r)) results)) /\
    RunResult.latency rr = calculateStats (map RequestResult.duration results) /\
    RunResult.timeline rr = None /\
    RunResult.stopReason rr = None /\
    RunResult.consecutiveFailuresAtStop rr = None /\
    RunResult.stoppedEarly rr = None.
Proof.
  intros Hne. destruct results as [|first rest]; [congruence|].
  unfold printResults.
  destruct (parseNodeFailures_returns J
              (map errorOrUnknown
                 (filter (fun r => negb (RequestResult.success r)) (first :: rest))))
    as [out ->].
  simpl Js.bind. eexists. split; [reflexivity|]. repeat split.
Qed.

Lemma printResults_empty
  (J : string -> Js.Completion (list (string * string)))
  (mode : Mode) (rate : Q) (label : option string) :
  exists what, printResults J [] mode rate label = Js.Throw what.
Proof. eexists. reflexivity. Qed.

Lemma slice_last_length {A : Type} (n : nat) (l : list A) :
  length (Js.slice_last n l) = Nat.min n (length l).
Proof. unfold Js.slice_last. rewrite length_skipn. lia. Qed.

Lemma sweepSteadyLevel_spec
  (J : string -> Js.Completion (list (string * string)))
  (testRate : Q) (steadyResult : SteadyModeResult.t) :
  SteadyModeResult.results steadyResult <> [] ->
  exists rr : RunResult.t,
    sweepSteadyLevel J testRate steadyResult = Js.Normal rr /\
    RunResult.mode rr = steady /\
    RunResult.targetRate rr = testRate /\
    RunResult.total (RunResult.requests rr)
    = length (SteadyModeResult.results steadyResult) /\
    RunResult.stoppedEarly rr
    = if degraded (SteadyModeResult.results steadyResult) then Some true else None.
Proof.
  intros Hne. unfold sweepSteadyLevel.
  destruct (printResults_nonempty J steady testRate None Hne)
    as (rr & -> & Hm & Hr & Hq & _ & _ & _ & _ & Hs).
  cbn [Js.bind]. eexists. split; [reflexivity|].
  unfold degraded, last_outcomes_all_failed. rewrite slice_last_length.
  replace (10 <=? Nat.min 10 (length (SteadyModeResult.results steadyResult)))%nat
    with (10 <=? length (SteadyModeResult.results steadyResult))%nat
    by (destruct (Nat.leb_spec 10 (length (SteadyModeResult.results steadyResult)));
        symmetry; [apply Nat.leb_le|apply Nat.leb_gt]; lia).
  fold (last_outcomes_all_failed (SteadyModeResult.results steadyResult)).
  destruct ((10 <=? length (SteadyModeResult.results steadyResult))%nat
            && last_outcomes_all_failed (SteadyModeResult.results steadyResult));
    cbn [RunResult.set_stoppedEarly RunResult.mode RunResult.targetRate
         RunResult.requests RunResult.stoppedEarly];
    rewrite ?Hq; repeat split; try assumption; reflexivity.
Qed.

Lemma forEachPush_Forall2 {A B : Type} (body : A -> Js.Completion B)
  (P : A -> B -> Prop) (xs : list A) :
  (forall x, In x xs -> exists y, body x = Js.Normal y /\ P x y) ->
  exists ys, Js.Normal ys = forEachPush body xs /\ Forall2 P xs ys.
Proof.
  induction xs as [|x xs IH]; intros H; simpl.
  - exists []. split; constructor.
  - destruct (H x (or_introl eq_refl)) as (y & -> & Hy).
    destruct IH as (ys & <- & Hys); [intros; apply H; now right|].
    simpl. exists (y :: ys). split; [reflexivity|now constructor].
Qed.

(** C4, as the code has it.  In sweep mode every configured level, steady
    then burst, yields its summary, in order, as long as every run recorded
    at least one outcome; the summary of a steady level is marked
    [stoppedEarly = true] exactly when the run recorded at least ten outcomes
    and its last ten are all failures, and carries no mark otherwise. *)
Theorem sweep_marks_degraded_levels :
  forall (JSON_parse_entries : string -> Js.Completion (list (string * string)))
         (steadyLevels : list (Q * SteadyModeResult.t))
         (burstLevels : list (Q * list RequestResult.t)),
    (forall lvl, In lvl steadyLevels -> SteadyModeResult.results (snd lvl) <> []) ->
    (forall lvl, In lvl burstLevels -> snd lvl <> []) ->
    exists steadyResults burstResults : list RunResult.t,
      sweep JSON_parse_entries steadyLevels burstLevels
      = Js.Normal (steadyResults, burstResults) /\
      Forall2 (fun lvl rr =>
                 RunResult.mode rr = steady /\
                 RunResult.targetRate rr = fst lvl /\
                 RunResult.stoppedEarly rr
                 = if degraded (SteadyModeResult.results (snd lvl))
                   then Some true else None)
        steadyLevels steadyResults /\
      Forall2 (fun lvl rr =>
                 RunResult.mode rr = burst /\
                 RunResult.targetRate rr = fst lvl /\
                 RunResult.stoppedEarly rr = None)
        burstLevels burstResults.
Proof.
  intros J steadyLevels burstLevels Hs Hb. unfold sweep.
  edestruct (@forEachPush_Forall2 _ _
               (fun '(testRate, r) => sweepSteadyLevel J testRate r)
               (fun lvl rr =>
                  RunResult.mode rr = steady /\
                  RunResult.targetRate rr = fst lvl /\
                  RunResult.stoppedEarly rr
                  = if degraded (SteadyModeResult.results (snd lvl))
                    then Some true else None) steadyLevels)
    as (steadyResults & <- & HS).
  { intros [testRate r] Hin.
    destruct (sweepSteadyLevel_spec J testRate r (Hs _ Hin)) as (rr & E & Hm & Hr & _ & He).
    exists rr. auto. }
  edestruct (@forEachPush_Forall2 _ _
               (fun '(burstSize, rs) => sweepBurstLevel J burstSize rs)
               (fun lvl rr =>
                  RunResult.mode rr = burst /\
                  RunResult.targetRate rr = fst lvl /\
                  RunResult.stoppedEarly rr = None) burstLevels)
    as (burstResults & <- & HB).
  { intros [burstSize rs] Hin. unfold sweepBurstLevel.
    destruct (printResults_nonempty J burst burstSize None (Hb _ Hin))
      as (rr & E & Hm & Hr & _ & _ & _ & _ & _ & He).
    exists rr. auto. }
  exists steadyResults, burstResults. cbn [Js.bind]. auto.
Qed.

(** The hypotheses of C4 hold on a sweep of one steady level, which recorded
    three failures, and one burst level. *)
Lemma sweep_marks_degraded_levels_witness :
  exists steadyResults burstResults : list RunResult.t,
    sweep JSON_rejects [(1, three_failures)] [(2, [failed_request 0 0])]
    = Js.Normal (steadyResults, burstResults) /\
    Forall2 (fun lvl rr =>
               RunResult.mode rr = steady /\
               RunResult.targetRate rr = fst lvl /\
               RunResult.stoppedEarly rr
               = if degraded (SteadyModeResult.results (snd lvl))
                 then Some true else None)
      [(1, three_failures)] steadyResults /\
    Forall2 (fun lvl rr =>
               RunResult.mode rr = burst /\
               RunResult.targetRate rr = fst lvl /\
               RunResult.stoppedEarly rr = None)
      [(2, [failed_request 0 0])] burstResults.
Proof.
  apply (sweep_marks_degraded_levels JSON_rejects
           [(1, three_failures)] [(2, [failed_request 0 0])]).
  - intros lvl [<-|[]]. discriminate.
  - intros lvl [<-|[]]. discriminate.
Defined.

(** C4 as the specification words it fails on a run that recorded three
    outcomes, all failures: the last ten outcomes, here all of them, are
    failures, and the summary carries no mark. *)
Lemma sweep_stoppedEarly_counterexample :
  (length (SteadyModeResult.results three_failures) < 10)%nat /\
  last_outcomes_all_failed (SteadyModeResult.results three_failures) = true /\
  exists rr : RunResult.t,
    sweepSteadyLevel JSON_rejects 1 three_failures = Js.Normal rr /\
    RunResult.stoppedEarly rr = None /\
    RunResult.stoppedEarly rr <> Some true.
Proof.
  split; [simpl; lia|]. split; [reflexivity|].
  eexists. split; [vm_compute; reflexivity|]. split; [reflexivity|discriminate].
Qed.

(** ** The persisted test data *)

Lemma Value_induction (P : Json.Value -> Prop) :
  P Json.Undefined -> P Json.Null -> (forall b, P (Json.Bool b)) ->
  (forall n, P (Json.Num n)) -> (forall s, P (Json.Str s)) ->
  (forall items, Forall P items -> P (Json.Arr items)) ->
  (forall props, Forall (fun p => P (snd p)) props -> P (Json.Obj props)) ->
  forall v, P v.
Proof.
  intros HU HN HB HNum HS HA HO. fix IH 1.
  intros [| |b|n|s|items|props];
    [exact HU|exact HN|apply HB|apply HNum|apply HS| |].
  - apply HA. induction items as [|x items IHl]; constructor; [apply IH|exact IHl].
  - apply HO. induction props as [|[k x] props IHl]; constructor; [apply IH|exact IHl].
Qed.

Lemma get_absent (key : string) (ms : list (string * Json.Document)) :
  ~ In key (map fst ms) ->
  Json.get key (map (fun m => (fst m, Json.parse (snd m))) ms) = Json.Undefined.
Proof.
  induction ms as [|[k d] ms IH]; simpl; intros H; [reflexivity|].
  destruct (String.eqb_spec k key) as [->|_]; [tauto|]. apply IH. tauto.
Qed.

Lemma members_keys (props : list (string * Json.Value)) (key : string) :
  In key (map fst (flat_map (fun p => match Json.stringify (snd p) with
                                      | Some d => [(fst p, d)]
                                      | None => []
                                      end) props)) ->
  In key (map fst props).
Proof.
  induction props as [|[k x] props IH]; simpl; [tauto|].
  destruct (Json.stringify x); simpl; tauto.
Qed.

Lemma no_key_twice_cons (k : string) (keys : list string) :
  Json.no_key_twice (k :: keys) = true -> ~ In k keys /\ Json.no_key_twice keys = true.
Proof.
  simpl. rewrite andb_true_iff, negb_true_iff. intros [H1 H2]. split; [|assumption].
  intros Hin. apply existsb_eqb_In in Hin. congruence.
Qed.

(** What [JSON.stringify] writes reads back, through [JSON.parse], as a value
    equal field for field, on a value that has no number other than finite
    ones. *)
Lemma stringify_parse_equal (v : Json.Value) :
  Json.regular v = true -> Json.finite v = true ->
  match Json.stringify v with
  | Some d => Json.equal v (Json.parse d)
  | None => v = Json.Undefined
  end.
Proof.
  induction v as [| |b|n|s|items IH|props IH] using Value_induction; intros Hr Hf.
  - reflexivity.
  - constructor.
  - constructor.
  - destruct n; simpl in *; try discriminate. constructor.
  - constructor.
  - simpl. constructor. simpl in Hr, Hf.
    induction items as [|x items IHl]; simpl; constructor.
    + inversion IH as [|? ? Hx _]; subst. simpl in Hr, Hf.
      apply andb_true_iff in Hr as [Hr _]. apply andb_true_iff in Hf as [Hf _].
      assert (Hrx : Json.regular x = true) by (destruct x; try discriminate; assumption).
      specialize (Hx Hrx Hf).
      destruct (Json.stringify x); [assumption|]. subst x. discriminate.
    + inversion IH; subst. simpl in Hr, Hf.
      apply andb_true_iff in Hr as [_ Hr]. apply andb_true_iff in Hf as [_ Hf].
      now apply IHl.
  - cbn [Json.stringify Json.parse]. constructor. intros key.
    cbn [Json.regular Json.finite] in Hr, Hf. apply andb_true_iff in Hr as [Hk Hr].
    induction props as [|[k x] props IHl]; [constructor|].
    inversion IH as [|? ? Hx IH']; subst. cbn [snd] in Hx.
    apply no_key_twice_cons in Hk as [Hnk Hk].
    cbn [forallb snd] in Hr, Hf.
    apply andb_true_iff in Hr as [Hrx Hr]. apply andb_true_iff in Hf as [Hfx Hf].
    specialize (Hx Hrx Hfx). specialize (IHl IH' Hk Hr Hf).
    cbn [flat_map snd fst]. cbn [Json.get].
    destruct (Json.stringify x) as [d|] eqn:E.
    + cbn [app map fst snd Json.get].
      destruct (String.eqb k key); [assumption|apply IHl].
    + subst x. cbn [app].
      destruct (String.eqb_spec k key) as [->|_]; [|apply IHl].
      rewrite get_absent; [constructor|].
      intros Hin. apply Hnk. now apply members_keys in Hin.
Qed.

(** The object of every interface is carried over unchanged, as long as the
    numbers of the configuration are finite. *)
Lemma faithful_Obj (props : list (string * Json.Value)) :
  Json.no_key_twice (map fst props) = true ->
  Forall (fun p => Json.faithful (snd p)) props ->
  Json.faithful (Json.Obj props).
Proof.
  intros Hk HF. unfold Json.faithful in *. cbn [Json.regular Json.finite]. rewrite Hk.
  clear Hk. induction props as [|p props IH]; [split; reflexivity|].
  inversion HF as [|? ? [Hr Hf] HF']; subst. destruct (IH HF') as [IHr IHf].
  cbn [forallb andb] in *. rewrite Hr, Hf. split; assumption.
Qed.

Lemma faithful_Arr_map {A : Type} (f : A -> Json.Value) (l : list A) :
  (forall a, f a <> Json.Undefined /\ Json.faithful (f a)) ->
  Json.faithful (Json.Arr (map f l)).
Proof.
  intros H. unfold Json.faithful. cbn [Json.regular Json.finite].
  induction l as [|a l [IHr IHf]]; [split; reflexivity|].
  destruct (H a) as (Hu & Hr & Hf). cbn [map forallb]. rewrite IHr, IHf, Hf.
  revert Hu Hr. generalize (f a). intros v Hu Hr.
  split; [|reflexivity]. rewrite andb_true_r. destruct v; try congruence; exact Hr.
Qed.

Lemma faithful_optional {A : Type} (f : A -> Json.Value) (o : option A) :
  (forall a, Json.faithful (f a)) -> Json.faithful (Json.optional f o).
Proof. intros H. destruct o; [apply H|split; reflexivity]. Qed.

Lemma faithful_nullable {A : Type} (f : A -> Json.Value) (o : option A) :
  (forall a, Json.faithful (f a)) -> Json.faithful (Json.nullable f o).
Proof. intros H. destruct o; [apply H|split; reflexivity]. Qed.

Lemma faithful_num_of_Z (z : Z) : Json.faithful (Json.num_of_Z z).
Proof. split; reflexivity. Qed.

Lemma faithful_num_of_nat (n : nat) : Json.faithful (Json.num_of_nat n).
Proof. split; reflexivity. Qed.

Lemma faithful_num_of_Q (q : Q) : Json.faithful (Json.num_of_Q q).
Proof. split; reflexivity. Qed.

Lemma faithful_Str (s : string) : Json.faithful (Json.Str s).
Proof. split; reflexivity. Qed.

Lemma faithful_Bool (b : bool) : Json.faithful (Json.Bool b).
Proof. split; reflexivity. Qed.

Create HintDb faithful.
#[local] Hint Resolve faithful_optional faithful_nullable faithful_num_of_Z
  faithful_num_of_nat faithful_num_of_Q faithful_Str faithful_Bool : faithful.

Ltac faithful_object :=
  apply faithful_Obj;
  [vm_compute; reflexivity
  |repeat (apply Forall_cons; [cbn [snd]; auto with faithful|]); try apply Forall_nil].

Lemma of_Stats_faithful (s : Stats.t) : Json.faithful (TestData.of_Stats s).
Proof. faithful_object. Qed.

Lemma of_NodeFailure_faithful (f : NodeFailure.t) :
  Json.faithful (TestData.of_NodeFailure f).
Proof. faithful_object. Qed.

Lemma of_ErrorWithCount_faithful (e : ErrorWithCount.t) :
  Json.faithful (TestData.of_ErrorWithCount e).
Proof. faithful_object. Qed.

Lemma of_TimelineRequest_faithful (r : TimelineRequest.t) :
  Json.faithful (TestData.of_TimelineRequest r).
Proof. faithful_object. Qed.

Lemma of_StopReason_faithful (r : StopReason) : Json.faithful (TestData.of_StopReason r).
Proof. split; reflexivity. Qed.

#[local] Hint Resolve of_Stats_faithful of_NodeFailure_faithful of_ErrorWithCount_faithful
  of_TimelineRequest_faithful of_StopReason_faithful : faithful.

Lemma of_RunResult_faithful (r : RunResult.t) : Json.faithful (TestData.of_RunResult r).
Proof.
  assert (forall tl, Json.faithful (Json.Arr (map TestData.of_TimelineRequest tl)))
    by (intros; apply faithful_Arr_map; split; [discriminate|auto with faithful]).
  assert (Json.faithful (Json.Arr (map TestData.of_NodeFailure (RunResult.nodeFailures r))))
    by (apply faithful_Arr_map; split; [discriminate|auto with faithful]).
  assert (Json.faithful (Json.Arr (map TestData.of_ErrorWithCount (RunResult.errors r))))
    by (apply faithful_Arr_map; split; [discriminate|auto with faithful]).
  assert (Json.faithful (TestData.of_Mode (RunResult.mode r))) by (split; reflexivity).
  assert (Json.faithful
            (Json.Obj
               [("total"%string, Json.num_of_nat (RunResult.total (RunResult.requests r)));
                ("success"%string, Json.num_of_nat (RunResult.success (RunResult.requests r)));
                ("failed"%string, Json.num_of_nat (RunResult.failed (RunResult.requests r)))]))
    by faithful_object.
  faithful_object.
Qed.

Lemma value_faithful (d : TestData.t) :
  TestData.finite_config d = true -> Json.faithful (TestData.value d).
Proof.
  unfold TestData.finite_config. intros Hfin.
  assert (Hc : Json.faithful (TestData.of_Config (TestData.config d))).
  { split; [|exact Hfin]. clear Hfin.
    destruct (TestData.config d) as [mo ra du rs bs bp dom co ch md mf].
    unfold TestData.of_Config.
    cbn [TestData.mode TestData.rate TestData.duration TestData.rates
         TestData.burstSizes TestData.batchesPerBurst TestData.domain TestData.cohortId
         TestData.chainId TestData.maxDuration TestData.maxConsecutiveFailures].
    assert (R : forall ns, Json.regular (Json.Arr (map Json.Num ns)) = true)
      by (intros ns; induction ns as [|n ns IH]; [reflexivity|exact IH]).
    pose proof (R rs) as R1. pose proof (R bs) as R2. revert R1 R2.
    generalize (Json.Arr (map Json.Num rs)). generalize (Json.Arr (map Json.Num bs)).
    intros a2 a1 R1 R2.
    destruct dom, co, ch, md, mf; cbn; rewrite R1, R2; reflexivity. }
  assert (forall rs, Json.faithful (Json.Arr (map TestData.of_RunResult rs)))
    by (intros; apply faithful_Arr_map; split; [discriminate|apply of_RunResult_faithful]).
  unfold TestData.value. faithful_object.
Qed.

(** C9, as the code has it.  For every [TestData] whose configuration holds no
    [NaN] and no infinite number, [saveTestData] writes a file from which
    [loadTestData] reads a value equal to the original field for field (a
    property left [undefined] is not written, and reads [undefined] again). *)
Theorem saveTestData_loadTestData_roundtrip :
  forall (data : TestData.t) (timestampNow : string) (fs : Files.FileSystem),
    TestData.finite_config data = true ->
    exists (filepath : string) (fs' : Files.FileSystem) (loaded : Json.Value),
      Files.saveTestData data timestampNow fs = Js.Normal (filepath, fs') /\
      Files.loadTestData filepath fs' = Js.Normal loaded /\
      Json.equal (TestData.value data) loaded.
Proof.
  intros data ts fs Hfin.
  pose proof (stringify_parse_equal (TestData.value data)
                (proj1 (value_faithful data Hfin)) (proj2 (value_faithful data Hfin))) as H.
  unfold Files.saveTestData.
  destruct (Json.stringify (TestData.value data)) as [text|]; [|discriminate H].
  do 3 eexists. split; [reflexivity|].
  unfold Files.loadTestData, Files.writeFileSync. cbn [Files.readFileSync].
  rewrite String.eqb_refl. cbn [Js.bind]. split; [reflexivity|exact H].
Qed.

(** The hypothesis of C9 holds on a run whose configuration is all finite. *)
Lemma saveTestData_loadTestData_roundtrip_witness :
  TestData.finite_config
    (TestData.mk "2026-02-16T12:34:56.000Z"
       (TestData.mkConfig "steady" (Json.Finite 2) (Json.Finite 30) [] [] (Json.Finite 10)
          None None None None None) [] []) = true /\
  exists (filepath : string) (fs' : Files.FileSystem) (loaded : Json.Value),
    Files.saveTestData
      (TestData.mk "2026-02-16T12:34:56.000Z"
         (TestData.mkConfig "steady" (Json.Finite 2) (Json.Finite 30) [] [] (Json.Finite 10)
            None None None None None) [] [])
      "2026-02-16-123456" [] = Js.Normal (filepath, fs') /\
    Files.loadTestData filepath fs' = Js.Normal loaded /\
    Json.equal
      (TestData.value
         (TestData.mk "2026-02-16T12:34:56.000Z"
            (TestData.mkConfig "steady" (Json.Finite 2) (Json.Finite 30) [] []
               (Json.Finite 10) None None None None None) [] []))
      loaded.
Proof.
  split; [reflexivity|].
  apply saveTestData_loadTestData_roundtrip. reflexivity.
Defined.

(** C9 as the specification words it fails on a run whose [duration] is [NaN]:
    the file holds [null] in its place, so the [duration] of the configuration
    reads [null] where the original has [NaN]. *)
Lemma saveTestData_loadTestData_counterexample :
  exists (filepath : string) (fs' : Files.FileSystem) (loaded : Json.Value),
    Files.saveTestData nan_duration "2026-02-16-123456" [] = Js.Normal (filepath, fs') /\
    Files.loadTestData filepath fs' = Js.Normal loaded /\
    ~ Json.equal (TestData.value nan_duration) loaded.
Proof.
  do 3 eexists. split; [reflexivity|]. split; [vm_compute; reflexivity|].
  intros H. inversion H as [| | | | | |ps qs Hk]; subst.
  specialize (Hk "config"%string). vm_compute in Hk.
  inversion Hk as [| | | | | |ps' qs' Hk']; subst.
  specialize (Hk' "duration"%string). vm_compute in Hk'. inversion Hk'.
Qed.

(** ** The steady-rate controller *)

(** Reduce the projections of a state that is given field by field. *)
Ltac steady_fields :=
  cbn [Steady.payloadIndex Steady.completedCount Steady.consecutiveFailures
       Steady.results Steady.timeline Steady.pendingRequests Steady.nextRequestIndex
       Steady.stopReason Steady.shouldStop Steady.phase Steady.fulfilled
       Steady.dispatched Steady.set_phase Steady.set_stopReason Steady.set_shouldStop
       Steady.finish] in *.

Section SteadyFacts.
Variable preparedPayloads : list PreparedPayload.t.
Variable options : SteadyModeOptions.t.
Variable testStartTime : Z.

Local Abbreviation step := (Steady.step preparedPayloads options testStartTime).
Local Abbreviation run := (Steady.run preparedPayloads options testStartTime).
Local Abbreviation processResult := (Steady.processResult options testStartTime).
Local Abbreviation onFulfilled := (Steady.onFulfilled options testStartTime).
Local Abbreviation loopTurn := (Steady.loopTurn preparedPayloads options testStartTime).
Local Abbreviation recordRemaining := (Steady.recordRemaining options testStartTime).

(** An invariant of the steps is an invariant of the runs. *)
Lemma run_invariant (P : Steady.State -> Prop) :
  (forall st ev st', P st -> step st ev = Some st' -> P st') ->
  forall schedule st st', P st -> run schedule st = Some st' -> P st'.
Proof.
  intros Hstep. induction schedule as [|ev schedule IH]; intros st st' HP Hrun; simpl in Hrun.
  - now inversion Hrun; subst.
  - destruct (step st ev) as [st1|] eqn:E; [|discriminate]. eauto.
Qed.

Lemma run_app (s1 s2 : list Steady.Event) (st : Steady.State) :
  run (s1 ++ s2) st
  = match run s1 st with Some st1 => run s2 st1 | None => None end.
Proof.
  revert st. induction s1 as [|ev s1 IH]; intros st; simpl; [reflexivity|].
  destruct (step st ev); [apply IH|reflexivity].
Qed.

(** What [processResult] changes. *)
Lemma processResult_fields (st : Steady.State) (r : RequestResult.t) :
  let st' := fst (processResult st r) in
  Steady.results st' = Steady.results st ++ [r] /\
  map TimelineRequest.index (Steady.timeline st')
  = map TimelineRequest.index (Steady.timeline st) ++ [RequestResult.index r] /\
  Steady.pendingRequests st' = Steady.pendingRequests st /\
  Steady.nextRequestIndex st' = Steady.nextRequestIndex st /\
  Steady.payloadIndex st' = Steady.payloadIndex st /\
  Steady.dispatched st' = Steady.dispatched st /\
  Steady.fulfilled st' = Steady.fulfilled st /\
  Steady.phase st' = Steady.phase st /\
  Steady.shouldStop st' = Steady.shouldStop st /\
  Steady.completedCount st' = S (Steady.completedCount st) /\
  Steady.consecutiveFailures st'
  = (if RequestResult.success r then 0 else S (Steady.consecutiveFailures st))%nat.
Proof.
  unfold Steady.processResult.
  destruct (Steady.maxConsecutiveFailures options) as [m|];
    [destruct (Qle_bool m _)|]; cbn; rewrite ?map_app; repeat split; reflexivity.
Qed.

Lemma member_In (i : nat) (keys : list nat) : Steady.member i keys = true <-> In i keys.
Proof.
  unfold Steady.member. rewrite existsb_exists. split.
  - intros (k & Hk & E). apply Nat.eqb_eq in E. now subst.
  - intros H. exists i. split; [assumption|apply Nat.eqb_refl].
Qed.

Lemma delete_In (i j : nat) (keys : list nat) :
  In j (Steady.delete i keys) <-> In j keys /\ j <> i.
Proof.
  unfold Steady.delete. rewrite filter_In, negb_true_iff, Nat.eqb_neq. tauto.
Qed.

Lemma found_In (i : nat) (rs : list RequestResult.t) :
  Steady.found i rs = true <-> In i (map RequestResult.index rs).
Proof.
  unfold Steady.found. rewrite existsb_exists, in_map_iff. split.
  - intros (r & Hr & E). apply Nat.eqb_eq in E. eauto.
  - intros (r & E & Hr). exists r. split; [assumption|now apply Nat.eqb_eq].
Qed.

(** What the [then] callback of a request changes. *)
Lemma onFulfilled_fields (i : nat) (raw : RequestResult.t) (st : Steady.State) :
  let st' := onFulfilled i raw st in
  Steady.results st' = Steady.results st ++ [RequestResult.set_index i raw] /\
  map TimelineRequest.index (Steady.timeline st')
  = map TimelineRequest.index (Steady.timeline st) ++ [i] /\
  Steady.pendingRequests st' = Steady.delete i (Steady.pendingRequests st) /\
  Steady.nextRequestIndex st' = Steady.nextRequestIndex st /\
  Steady.payloadIndex st' = Steady.payloadIndex st /\
  Steady.dispatched st' = Steady.dispatched st /\
  Steady.fulfilled st' = Steady.fulfilled st ++ [(i, RequestResult.set_index i raw)] /\
  Steady.phase st' = Steady.phase st.
Proof.
  unfold Steady.onFulfilled.
  match goal with |- context [processResult ?s ?r] =>
    pose proof (processResult_fields s r) as H;
    destruct (processResult s r) as [st2 stop] end.
  cbn in H. cbn. intuition.
Qed.

Local Abbreviation Inv := (indices_consistent preparedPayloads).

Lemma Inv_initial : Inv Steady.initial.
Proof.
  repeat split; cbn; try reflexivity; try constructor; try contradiction.
Qed.

(** The invariant does not look at the control variables. *)
Lemma Inv_same_data (st st' : Steady.State) :
  Steady.payloadIndex st' = Steady.payloadIndex st ->
  Steady.nextRequestIndex st' = Steady.nextRequestIndex st ->
  Steady.dispatched st' = Steady.dispatched st ->
  Steady.pendingRequests st' = Steady.pendingRequests st ->
  Steady.results st' = Steady.results st ->
  Steady.timeline st' = Steady.timeline st ->
  Steady.fulfilled st' = Steady.fulfilled st ->
  Inv st -> Inv st'.
Proof.
  unfold indices_consistent. intros -> -> -> -> -> -> ->. tauto.
Qed.

Lemma Inv_afterLoop (st : Steady.State) : Inv st -> Inv (Steady.afterLoop st).
Proof.
  intros H. unfold Steady.afterLoop, Steady.finish.
  destruct (Steady.pendingRequests st) eqn:E;
    [|destruct (negb _)]; (eapply Inv_same_data; [..|exact H]); reflexivity.
Qed.

Lemma Inv_loopTurn (nowTop nowAfter : Z) (st : Steady.State) :
  Inv st -> Inv (loopTurn nowTop nowAfter st).
Proof.
  intros H. unfold Steady.loopTurn.
  destruct (Steady.shouldStop st); [now apply Inv_afterLoop|].
  destruct (match Steady.maxDuration options with Some _ => _ | None => _ end).
  { apply Inv_afterLoop. eapply Inv_same_data; [..|exact H]; reflexivity. }
  destruct (match Steady.totalRequests options with Some _ => _ | None => _ end);
    [now apply Inv_afterLoop|].
  destruct H as (Hp & Hd & Hpend & Hnd & Hres & Htl & Hful).
  unfold indices_consistent. steady_fields.
  split; [congruence|]. split.
  { rewrite seq_S, map_app, Hd, Hp. reflexivity. }
  split.
  { intros i Hi. apply in_app_or in Hi as [Hi|[<-|[]]]; [apply Hpend in Hi|]; lia. }
  split; [assumption|]. split.
  { intros i Hi. destruct (Hres i Hi) as [Hlt Hnp]. split; [lia|].
    intros Hin. apply in_app_or in Hin as [Hin|[<-|[]]]; [contradiction|lia]. }
  split; [assumption|].
  intros k r Hin. destruct (Hful k r Hin) as [Hlt Hnp]. split; [lia|].
  intros Hin'. apply in_app_or in Hin' as [Hin'|[E|[]]]; [contradiction|lia].
Qed.

Lemma Inv_onFulfilled (i : nat) (raw : RequestResult.t) (st : Steady.State) :
  In i (Steady.pendingRequests st) -> Inv st -> Inv (onFulfilled i raw st).
Proof.
  intros Hi (Hp & Hd & Hpend & Hnd & Hres & Htl & Hful).
  destruct (onFulfilled_fields i raw st)
    as (Er & Et & Epd & En & Epi & Ed & Ef & _).
  unfold indices_consistent. rewrite Er, Et, Epd, En, Epi, Ed, Ef, map_app. cbn [map].
  change (RequestResult.index (RequestResult.set_index i raw)) with i.
  split; [assumption|]. split; [assumption|]. split.
  { intros j Hj. apply delete_In in Hj. apply Hpend. tauto. }
  split.
  { apply NoDup_app; [assumption|repeat constructor; intros []|].
    intros j Hj [<-|[]]. apply Hres in Hj. tauto. }
  split.
  { intros j Hj. rewrite delete_In. apply in_app_or in Hj as [Hj|[<-|[]]].
    - apply Hres in Hj. tauto.
    - split; [now apply Hpend|]. intros [_ H]. now apply H. }
  split; [now rewrite Htl|].
  intros k r Hin. rewrite delete_In. apply in_app_or in Hin as [Hin|[E|[]]].
  - apply Hful in Hin. tauto.
  - inversion E; subst. change (RequestResult.index (RequestResult.set_index k raw)) with k.
    split; [now apply Hpend|]. intros [_ H]. now apply H.
Qed.

Lemma lookup_In (i : nat) (m : list (nat * RequestResult.t)) (r : RequestResult.t) :
  Steady.lookup i m = Some r -> In (i, r) m.
Proof.
  induction m as [|[k v] m IH]; simpl; [discriminate|].
  destruct (Nat.eqb_spec k i) as [->|_].
  - intros E. inversion E. now left.
  - intros E. right. now apply IH.
Qed.

(** The guard of the loop over [remaining] is what keeps an index from being
    recorded twice. *)
Lemma Inv_recordRemaining (remaining : list nat) (st : Steady.State) :
  Inv st -> Inv (recordRemaining remaining st).
Proof.
  unfold Steady.recordRemaining. revert st.
  induction remaining as [|i remaining IH]; intros st H; simpl; [assumption|].
  apply IH.
  destruct (Steady.lookup i (Steady.fulfilled st)) as [r|] eqn:El; [|assumption].
  destruct (Steady.found (RequestResult.index r) (Steady.results st)) eqn:Ef;
    [assumption|]. cbn [negb].
  assert (Hnf : ~ In (RequestResult.index r) (map RequestResult.index (Steady.results st))).
  { intros Hin. apply found_In in Hin. congruence. }
  apply lookup_In in El.
  destruct H as (Hp & Hd & Hpend & Hnd & Hres & Htl & Hful).
  destruct (Hful _ _ El) as [Hlt Hnp].
  destruct (processResult_fields st r)
    as (Er & Et & Epd & En & Epi & Ed & Efu & _).
  unfold indices_consistent. rewrite Er, Et, Epd, En, Epi, Ed, Efu, map_app. cbn [map].
  split; [assumption|]. split; [assumption|]. split; [assumption|]. split.
  { apply NoDup_app; [assumption|repeat constructor; intros []|].
    intros j Hj [<-|[]]. contradiction. }
  split.
  { intros j Hj. apply in_app_or in Hj as [Hj|[<-|[]]]; [now apply Hres|tauto]. }
  split; [now rewrite Htl|assumption].
Qed.

Lemma Inv_step (st : Steady.State) (ev : Steady.Event) (st' : Steady.State) :
  Inv st -> step st ev = Some st' -> Inv st'.
Proof.
  intros H. unfold Steady.step.
  destruct ev as [nowTop nowAfter|i raw]; destruct (Steady.phase st) eqn:Eph;
    try discriminate.
  - intros E; inversion E; subst. now apply Inv_loopTurn.
  - intros E; inversion E; subst. now apply Inv_loopTurn.
  - destruct (Steady.member i (Steady.pendingRequests st)) eqn:Em; [|discriminate].
    apply member_In in Em. intros E; inversion E; subst. now apply Inv_onFulfilled.
  - destruct (Steady.member i (Steady.pendingRequests st)) eqn:Em; [|discriminate].
    apply member_In in Em. pose proof (Inv_onFulfilled i raw Em H) as H'.
    destruct (Steady.pendingRequests (onFulfilled i raw st));
      intros E; inversion E; subst; [|assumption].
    unfold Steady.finish. eapply Inv_same_data; [..|apply Inv_recordRemaining, H'];
      reflexivity.
  - destruct (Steady.member i (Steady.pendingRequests st)) eqn:Em; [|discriminate].
    apply member_In in Em. intros E; inversion E; subst. now apply Inv_onFulfilled.
Qed.

Lemma Inv_run (schedule : list Steady.Event) (st : Steady.State) :
  run schedule Steady.initial = Some st -> Inv st.
Proof. apply (run_invariant Inv Inv_step), Inv_initial. Qed.

(** Every step only appends to [results]. *)
Lemma step_results_grow (st : Steady.State) (ev : Steady.Event) (st' : Steady.State) :
  step st ev = Some st' ->
  exists added, Steady.results st' = Steady.results st ++ added.
Proof.
  assert (Hafter : forall s, Steady.results (Steady.afterLoop s) = Steady.results s).
  { intros s. unfold Steady.afterLoop, Steady.finish.
    destruct (Steady.pendingRequests s); [|destruct (negb _)]; reflexivity. }
  assert (Hrec : forall rem s, exists added,
             Steady.results (recordRemaining rem s) = Steady.results s ++ added).
  { unfold Steady.recordRemaining. induction rem as [|i rem IH]; intros s; simpl.
    - exists []. now rewrite app_nil_r.
    - match goal with |- context [fold_left _ rem ?s1] => destruct (IH s1) as [a Ha] end.
      rewrite Ha.
      destruct (Steady.lookup i (Steady.fulfilled s)) as [r|]; [|eauto].
      destruct (negb _); [|eauto].
      destruct (processResult_fields s r) as (-> & _).
      exists ([r] ++ a). now rewrite app_assoc. }
  unfold Steady.step.
  destruct ev as [nowTop nowAfter|i raw]; destruct (Steady.phase st) eqn:Eph;
    try discriminate.
  1,2: intros E; inversion E; subst; exists []; rewrite app_nil_r;
       unfold Steady.loopTurn;
       destruct (Steady.shouldStop st); [apply Hafter|];
       destruct (match Steady.maxDuration options with Some _ => _ | None => _ end);
       [rewrite Hafter; reflexivity|];
       destruct (match Steady.totalRequests options with Some _ => _ | None => _ end);
       [apply Hafter|reflexivity].
  1,3: destruct (Steady.member i (Steady.pendingRequests st)); [|discriminate];
       intros E; inversion E; subst;
       destruct (onFulfilled_fields i raw st) as (-> & _); eauto.
  destruct (Steady.member i (Steady.pendingRequests st)); [|discriminate].
  destruct (onFulfilled_fields i raw st) as (Er & _).
  destruct (Steady.pendingRequests (onFulfilled i raw st));
    intros E; inversion E; subst; [|eauto].
  unfold Steady.finish. cbn [Steady.set_phase Steady.results].
  destruct (Hrec remaining (onFulfilled i raw st)) as [a ->]. rewrite Er.
  exists ([RequestResult.set_index i raw] ++ a). now rewrite app_assoc.
Qed.
End SteadyFacts.

Lemma NoDup_app_fresh {A : Type} (l1 l2 : list A) (x : A) :
  NoDup (l1 ++ l2) -> In x l2 -> ~ In x l1.
Proof.
  induction l1 as [|a l1 IH]; simpl; intros ND Hx; [tauto|].
  inversion ND as [|? ? Ha ND']; subst. intros [->|Hin].
  - apply Ha, in_or_app. now right.
  - now apply (IH ND' Hx).
Qed.

(** C7.  At every moment of a steady run, under every schedule, no index
    occurs twice in [results] nor in [timeline]; and every later event only
    appends records whose index is not yet there, also the late result of a
    request that a stop condition abandoned. *)
Theorem steady_indices_unique :
  forall (preparedPayloads : list PreparedPayload.t) (options : SteadyModeOptions.t)
         (testStartTime : Z) (schedule : list Steady.Event) (st : Steady.State),
    Steady.runSteadyMode preparedPayloads options testStartTime schedule = Some st ->
    NoDup (map RequestResult.index (Steady.results st)) /\
    NoDup (map TimelineRequest.index (Steady.timeline st)) /\
    forall (ev : Steady.Event) (st' : Steady.State),
      Steady.step preparedPayloads options testStartTime st ev = Some st' ->
      exists added : list RequestResult.t,
        Steady.results st' = Steady.results st ++ added /\
        forall r, In r added ->
                  ~ In (RequestResult.index r) (map RequestResult.index (Steady.results st)).
Proof.
  intros payloads options t0 schedule st Hrun.
  pose proof (Inv_run payloads options t0 schedule Hrun) as HI.
  pose proof HI as (_ & _ & _ & Hnd & _ & Htl & _).
  split; [assumption|]. split; [now rewrite Htl|].
  intros ev st' Hstep.
  destruct (step_results_grow payloads options t0 st ev Hstep) as [added Ha].
  exists added. split; [assumption|]. intros r Hr.
  pose proof (@Inv_step payloads options t0 st ev st' HI Hstep) as (_ & _ & _ & Hnd' & _).
  rewrite Ha, map_app in Hnd'.
  apply (NoDup_app_fresh _ _ _ Hnd'). now apply in_map.
Qed.

(** The hypothesis of C7 holds on a run that abandons a request and receives
    its result late. *)
Lemma steady_indices_unique_witness :
  exists st : Steady.State,
    Steady.runSteadyMode [] stop_after_one_failure 0 late_arrival = Some st /\
    Steady.returned st = true /\
    map RequestResult.index (Steady.results st) = [0; 1]%nat /\
    NoDup (map RequestResult.index (Steady.results st)).
Proof.
  eexists. split; [vm_compute; reflexivity|]. split; [reflexivity|].
  split; [reflexivity|].
  apply (steady_indices_unique [] stop_after_one_failure 0 late_arrival).
  vm_compute. reflexivity.
Defined.

(** *** Sizing *)

Lemma Qle_bool_ceiling (t : Q) (n : nat) :
  Qle_bool t (inject_Z (Z.of_nat n)) = true <-> (Z.to_nat (Qceiling t) <= n)%nat.
Proof.
  rewrite Qle_bool_iff. split; intros H.
  - apply Qceiling_resp_le in H. rewrite Qceiling_Z in H. lia.
  - apply Qle_trans with (y := inject_Z (Qceiling t)); [apply Qle_ceiling|].
    rewrite <- Zle_Qle. lia.
Qed.

Section SizingFacts.
Variable preparedPayloads : list PreparedPayload.t.
Variable options : SteadyModeOptions.t.
Variable testStartTime : Z.

Local Abbreviation step := (Steady.step preparedPayloads options testStartTime).
Local Abbreviation run := (Steady.run preparedPayloads options testStartTime).

Lemma afterLoop_fields (st : Steady.State) :
  Steady.inLoop (Steady.afterLoop st) = false /\
  Steady.stopReason (Steady.afterLoop st) = Steady.stopReason st /\
  Steady.shouldStop (Steady.afterLoop st) = Steady.shouldStop st /\
  Steady.nextRequestIndex (Steady.afterLoop st) = Steady.nextRequestIndex st /\
  Steady.dispatched (Steady.afterLoop st) = Steady.dispatched st /\
  Steady.results (Steady.afterLoop st) = Steady.results st /\
  Steady.consecutiveFailures (Steady.afterLoop st) = Steady.consecutiveFailures st.
Proof.
  unfold Steady.afterLoop, Steady.finish, Steady.inLoop.
  destruct (Steady.pendingRequests st); [|destruct (negb _)]; cbn; repeat split.
Qed.

(** Without [maxConsecutiveFailures], [processResult] answers [false] and
    leaves [stopReason] alone. *)
Lemma processResult_no_limit (st : Steady.State) (r : RequestResult.t) :
  Steady.maxConsecutiveFailures options = None ->
  snd (Steady.processResult options testStartTime st r) = false /\
  Steady.stopReason (fst (Steady.processResult options testStartTime st r))
  = Steady.stopReason st.
Proof. unfold Steady.processResult. intros ->. split; reflexivity. Qed.

(** In any case [processResult] answers [true] only with the reason set, and
    sets the reason to nothing else. *)
Lemma processResult_reason (st : Steady.State) (r : RequestResult.t) :
  let (st', stop) := Steady.processResult options testStartTime st r in
  (stop = true -> Steady.stopReason st' = consecutive_failures) /\
  (Steady.stopReason st' = Steady.stopReason st \/
   Steady.stopReason st' = consecutive_failures).
Proof.
  unfold Steady.processResult.
  destruct (Steady.maxConsecutiveFailures options) as [m|];
    [destruct (Qle_bool m _)|]; cbn; split; auto; discriminate.
Qed.

Lemma recordRemaining_reason (remaining : list nat) (st : Steady.State) :
  let st' := Steady.recordRemaining options testStartTime remaining st in
  (Steady.stopReason st' = Steady.stopReason st \/
   Steady.stopReason st' = consecutive_failures) /\
  (Steady.maxConsecutiveFailures options = None ->
   Steady.stopReason st' = Steady.stopReason st) /\
  Steady.nextRequestIndex st' = Steady.nextRequestIndex st /\
  Steady.dispatched st' = Steady.dispatched st /\
  Steady.shouldStop st' = Steady.shouldStop st.
Proof.
  unfold Steady.recordRemaining. revert st.
  induction remaining as [|i remaining IH]; intros st; simpl; [tauto|].
  match goal with |- context [fold_left _ remaining ?s1] =>
    specialize (IH s1); set (st1 := s1) in * end.
  assert (H1 : (Steady.stopReason st1 = Steady.stopReason st \/
                Steady.stopReason st1 = consecutive_failures) /\
               (Steady.maxConsecutiveFailures options = None ->
                Steady.stopReason st1 = Steady.stopReason st) /\
               Steady.nextRequestIndex st1 = Steady.nextRequestIndex st /\
               Steady.dispatched st1 = Steady.dispatched st /\
               Steady.shouldStop st1 = Steady.shouldStop st).
  { subst st1. destruct (Steady.lookup i (Steady.fulfilled st)) as [r|]; [|tauto].
    destruct (negb _); [|tauto].
    pose proof (processResult_reason st r) as Hr.
    pose proof (processResult_no_limit st r) as Hn.
    pose proof (processResult_fields options testStartTime st r) as Hf.
    destruct (Steady.processResult options testStartTime st r) as [st2 stop].
    cbn [fst snd] in *. intuition. }
  cbv zeta in IH. destruct IH as (I1 & I2 & I3 & I4 & I5).
  destruct H1 as (J1 & J2 & J3 & J4 & J5).
  repeat split; try congruence.
  - destruct I1 as [I1|I1]; [rewrite I1; exact J1|now right].
  - intros Hm. rewrite I2, J2; auto.
Qed.

Lemma onFulfilled_reason (i : nat) (raw : RequestResult.t) (st : Steady.State) :
  let st' := Steady.onFulfilled options testStartTime i raw st in
  (Steady.shouldStop st' = true -> Steady.stopReason st' = consecutive_failures) /\
  (Steady.stopReason st' = Steady.stopReason st \/
   Steady.stopReason st' = consecutive_failures) /\
  (Steady.maxConsecutiveFailures options = None ->
   Steady.shouldStop st' = false /\ Steady.stopReason st' = Steady.stopReason st).
Proof.
  unfold Steady.onFulfilled.
  match goal with |- context [Steady.processResult _ _ ?s ?r] =>
    pose proof (processResult_reason s r) as Hr;
    pose proof (processResult_no_limit s r) as Hn;
    destruct (Steady.processResult options testStartTime s r) as [st2 stop] end.
  cbn [fst snd] in *. steady_fields. intuition.
Qed.

Lemma step_cases (st : Steady.State) (ev : Steady.Event) (st' : Steady.State) :
  step st ev = Some st' ->
  StepCase preparedPayloads options testStartTime st ev st'.
Proof.
  unfold Steady.step.
  pose proof (fun i raw => proj2 (proj2 (proj2 (proj2 (proj2 (proj2 (proj2
                (onFulfilled_fields options testStartTime i raw st)))))))) as Hph.
  destruct ev as [nowTop nowAfter|i raw]; destruct (Steady.phase st) eqn:Eph;
    try discriminate.
  1,2: intros E; inversion E; subst; constructor; unfold Steady.inLoop; now rewrite Eph.
  1,3: destruct (Steady.member i (Steady.pendingRequests st)) eqn:Em; [|discriminate];
       apply member_In in Em; intros E; inversion E; subst;
       constructor; [assumption|congruence|rewrite Eph; apply Hph].
  destruct (Steady.member i (Steady.pendingRequests st)) eqn:Em; [|discriminate].
  apply member_In in Em.
  destruct (Steady.pendingRequests (Steady.onFulfilled options testStartTime i raw st))
    eqn:Ep; intros E; inversion E; subst.
  - now apply case_drained.
  - constructor; [assumption|congruence|rewrite Eph; apply Hph].
Qed.

Lemma loopTurn_cases (nowTop nowAfter : Z) (st : Steady.State) :
  TurnCase options st
    (Steady.loopTurn preparedPayloads options testStartTime nowTop nowAfter st).
Proof.
  unfold Steady.loopTurn.
  destruct (Steady.shouldStop st) eqn:Es; [now apply turn_stop|].
  destruct (Steady.maxDuration options) as [m|] eqn:Em.
  - destruct (Qle_bool m _); [eapply turn_duration; eauto|].
    destruct (Steady.totalRequests options) as [t|] eqn:Et.
    + destruct (Qle_bool t _) eqn:El; [eapply turn_count; eauto|].
      apply turn_dispatch; steady_fields; try reflexivity; try assumption;
        try (symmetry; assumption).
      * intros t' E. congruence.
      * unfold Steady.inLoop. steady_fields. now destruct (Qle_bool (Js.Math_max _ _) _).
      * now rewrite length_app, Nat.add_comm.
    + apply turn_dispatch; steady_fields; try reflexivity; try assumption;
        try (symmetry; assumption).
      * congruence.
      * unfold Steady.inLoop. steady_fields. now destruct (Qle_bool (Js.Math_max _ _) _).
      * now rewrite length_app, Nat.add_comm.
  - destruct (Steady.totalRequests options) as [t|] eqn:Et.
    + destruct (Qle_bool t _) eqn:El; [eapply turn_count; eauto|].
      apply turn_dispatch; steady_fields; try reflexivity; try assumption;
        try (symmetry; assumption).
      * intros t' E. congruence.
      * unfold Steady.inLoop. steady_fields. now destruct (Qle_bool (Js.Math_max _ _) _).
      * now rewrite length_app, Nat.add_comm.
    + apply turn_dispatch; steady_fields; try reflexivity; try assumption;
        try (symmetry; assumption).
      * congruence.
      * unfold Steady.inLoop. steady_fields. now destruct (Qle_bool (Js.Math_max _ _) _).
      * now rewrite length_app, Nat.add_comm.
Qed.

(** With a stop condition there is no count to reach. *)
Lemma totalRequests_unbounded :
  Steady.hasStopConditions options = true -> Steady.totalRequests options = None.
Proof. unfold Steady.totalRequests. now intros ->. Qed.

Lemma no_conditions :
  Steady.hasStopConditions options = false ->
  Steady.maxDuration options = None /\ Steady.maxConsecutiveFailures options = None /\
  exists t, Steady.totalRequests options = Some t.
Proof.
  unfold Steady.totalRequests. intros H. rewrite H. unfold Steady.hasStopConditions in H.
  destruct (Steady.maxDuration options), (Steady.maxConsecutiveFailures options);
    try discriminate.
  repeat split. eexists. reflexivity.
Qed.

Lemma stopped_by_condition_step (st : Steady.State) (ev : Steady.Event)
  (st' : Steady.State) :
  Steady.hasStopConditions options = true ->
  stopped_by_condition st -> step st ev = Some st' -> stopped_by_condition st'.
Proof.
  intros Hc [H1 H2] Hstep. apply step_cases in Hstep.
  destruct Hstep as [nowTop nowAfter Hin|i raw Hi Hph Heq|i raw remaining Hi Hph Hp].
  - destruct (loopTurn_cases nowTop nowAfter st)
      as [Hs|m Hs Hm|t Hs Ht Hle|st' Hs Hle Hin' Hn Hd Hr Hcf Hsr Hss].
    + destruct (afterLoop_fields st) as (A1 & A2 & A3 & _).
      split; rewrite A2, H1 by assumption; [reflexivity|discriminate].
    + destruct (afterLoop_fields (Steady.set_stopReason duration_reached st))
        as (A1 & A2 & A3 & _).
      split; rewrite ?A2, ?A3; steady_fields; [congruence|discriminate].
    + rewrite (totalRequests_unbounded Hc) in Ht. discriminate.
    + split; [rewrite Hss, Hsr; exact H1|congruence].
  - destruct (onFulfilled_reason i raw st) as (O1 & O2 & _).
    split; [assumption|]. unfold Steady.inLoop in *. rewrite Heq. intros Hout.
    specialize (H2 Hout). destruct O2 as [O2|O2]; rewrite O2; [assumption|discriminate].
  - destruct (onFulfilled_reason i raw st) as (O1 & O2 & _).
    destruct (recordRemaining_reason remaining
                (Steady.onFulfilled options testStartTime i raw st))
      as (R1 & _ & _ & _ & R5).
    cbv zeta in *. unfold stopped_by_condition. steady_fields.
    assert (Hout : Steady.stopReason st <> completed)
      by (apply H2; unfold Steady.inLoop; now rewrite Hph).
    split.
    + rewrite R5. intros Hs. apply O1 in Hs. destruct R1 as [R1|R1]; congruence.
    + intros _. destruct R1 as [R1|R1]; rewrite R1; [|discriminate].
      destruct O2 as [O2|O2]; rewrite O2; [assumption|discriminate].
Qed.

Lemma sized_by_count_step (st : Steady.State) (ev : Steady.Event) (st' : Steady.State)
  (turns : nat) :
  Steady.hasStopConditions options = false ->
  sized_by_count options st turns -> step st ev = Some st' ->
  sized_by_count options st' (count_turns [ev] + turns).
Proof.
  intros Hc (Q1 & Q2 & Q3 & Q4 & Q5) Hstep.
  destruct (no_conditions Hc) as (Hmd & Hmf & T & HT).
  assert (Hplan : planned_requests options = Z.to_nat (Qceiling T))
    by (unfold planned_requests; now rewrite HT).
  apply step_cases in Hstep.
  destruct Hstep as [nowTop nowAfter Hin|i raw Hi Hph Heq|i raw remaining Hi Hph Hp].
  - destruct (Q4 Hin) as [Hn Hle]. cbn [count_turns Nat.add].
    destruct (loopTurn_cases nowTop nowAfter st)
      as [Hs|m Hs Hm|t Hs Ht Hle'|st' Hs Hle' Hin' Hn' Hd Hr Hcf Hsr Hss].
    + congruence.
    + congruence.
    + destruct (afterLoop_fields st) as (A1 & A2 & A3 & A4 & A5 & _).
      assert (t = T) by congruence. subst t.
      apply Qle_bool_ceiling in Hle'. rewrite <- Hplan in Hle'.
      unfold sized_by_count. rewrite A1, A2, A3, A4, A5.
      repeat split; try assumption; try discriminate; lia.
    + specialize (Hle' T HT).
      assert (Hlt : (Steady.nextRequestIndex st < planned_requests options)%nat).
      { destruct (Nat.lt_ge_cases (Steady.nextRequestIndex st) (planned_requests options))
          as [|Hge]; [assumption|].
        rewrite Hplan in Hge. apply Qle_bool_ceiling in Hge. congruence. }
      unfold sized_by_count. rewrite Hss, Hsr, Hd, Hn', Hin'.
      repeat split; try assumption; try discriminate; lia.
  - cbn [count_turns Nat.add].
    destruct (onFulfilled_reason i raw st) as (_ & _ & O3).
    destruct (O3 Hmf) as [O4 O5].
    destruct (onFulfilled_fields options testStartTime i raw st)
      as (_ & _ & _ & En & _ & Ed & _ & _).
    unfold sized_by_count, Steady.inLoop in *. rewrite O4, O5, En, Ed, Heq. tauto.
  - cbn [count_turns Nat.add].
    destruct (onFulfilled_reason i raw st) as (_ & _ & O3).
    destruct (O3 Hmf) as [O4 O5].
    destruct (onFulfilled_fields options testStartTime i raw st)
      as (_ & _ & _ & En & _ & Ed & _ & _).
    destruct (recordRemaining_reason remaining
                (Steady.onFulfilled options testStartTime i raw st))
      as (_ & R2 & R3 & R4 & R5).
    cbv zeta in *.
    assert (Hout : Steady.inLoop st = false) by (unfold Steady.inLoop; now rewrite Hph).
    destruct (Q5 Hout) as [Hn Ht].
    unfold sized_by_count, Steady.inLoop. steady_fields.
    rewrite R5, (R2 Hmf), R3, R4, O4, O5, En, Ed.
    repeat split; try assumption; try discriminate.
Qed.

Lemma sized_by_count_run (schedule : list Steady.Event) (st st' : Steady.State)
  (turns : nat) :
  Steady.hasStopConditions options = false ->
  sized_by_count options st turns -> run schedule st = Some st' ->
  sized_by_count options st' (count_turns schedule + turns).
Proof.
  intros Hc. revert st turns.
  induction schedule as [|ev schedule IH]; intros st turns HQ Hrun; simpl in Hrun.
  - inversion Hrun; subst. exact HQ.
  - destruct (step st ev) as [st1|] eqn:E; [|discriminate].
    pose proof (@sized_by_count_step st ev st1 turns Hc HQ E) as HQ1.
    specialize (IH st1 _ HQ1 Hrun).
    replace (count_turns (ev :: schedule) + turns)%nat
      with (count_turns schedule + (count_turns [ev] + turns))%nat; [exact IH|].
    destruct ev; simpl; lia.
Qed.

End SizingFacts.

Lemma sized_by_count_initial (options : SteadyModeOptions.t) :
  sized_by_count options Steady.initial 0.
Proof.
  unfold sized_by_count. cbn. repeat split; try reflexivity; try lia; discriminate.
Qed.

Lemma stopped_by_condition_initial : stopped_by_condition Steady.initial.
Proof. split; discriminate. Qed.

(** C3, as the code has it.  [runSteadyMode] uses one sizing rule.  If
    [maxDuration] or [maxConsecutiveFailures] is supplied there is no bound on
    the number of requests and the loop is only left with a stop reason other
    than [completed].  Otherwise the loop dispatches one request a turn and
    is left at the turn that finds the planned number dispatched; the planned
    number is the explicit [requestCount] when one is supplied, else
    [floor (d * rate)] where [d] is [duration] when that is supplied and not
    zero, and 60 when it is absent or zero; the product is the one of the
    doubles, rounded to a double before the floor is taken. *)
Theorem steady_sizing_rule :
  forall (preparedPayloads : list PreparedPayload.t) (options : SteadyModeOptions.t)
         (testStartTime : Z) (schedule : list Steady.Event) (st : Steady.State),
    Steady.runSteadyMode preparedPayloads options testStartTime schedule = Some st ->
    (SteadyModeOptions.maxDuration options <> None \/
     SteadyModeOptions.maxConsecutiveFailures options <> None ->
     Steady.totalRequests options = None /\
     (Steady.inLoop st = false -> Steady.stopReason st <> completed)) /\
    (SteadyModeOptions.maxDuration options = None /\
     SteadyModeOptions.maxConsecutiveFailures options = None ->
     length (Steady.dispatched st)
     = Nat.min (count_turns schedule) (planned_requests options) /\
     (Steady.inLoop st = false <->
      (planned_requests options < count_turns schedule)%nat) /\
     (forall n : nat,
        SteadyModeOptions.requestCount options = Some (inject_Z (Z.of_nat n)) ->
        planned_requests options = n) /\
     (SteadyModeOptions.requestCount options = None ->
      (forall d : Q,
         SteadyModeOptions.duration options = Some d -> ~ Double.round d == 0 ->
         planned_requests options
         = Z.to_nat (Js.Math_floor
                       (Double.mul (Double.round d)
                          (Double.round (SteadyModeOptions.rate options))))) /\
      (SteadyModeOptions.duration options = None \/
       (exists d : Q,
           SteadyModeOptions.duration options = Some d /\ Double.round d == 0) ->
       planned_requests options
       = Z.to_nat (Js.Math_floor
                     (Double.mul 60 (Double.round (SteadyModeOptions.rate options))))))).
Proof.
  intros payloads options t0 schedule st Hrun. split.
  - intros Hsup.
    assert (Hc : Steady.hasStopConditions options = true).
    { unfold Steady.hasStopConditions, Steady.maxDuration, Steady.maxConsecutiveFailures.
      destruct (SteadyModeOptions.maxDuration options),
               (SteadyModeOptions.maxConsecutiveFailures options);
        try reflexivity. destruct Hsup; congruence. }
    split; [now apply totalRequests_unbounded|].
    apply (run_invariant payloads options t0 stopped_by_condition) with (st' := st)
      in Hrun; [apply Hrun| |apply stopped_by_condition_initial].
    intros s ev s' Hs Hstep. eapply stopped_by_condition_step; eassumption.
  - intros [Hmd Hmf].
    assert (Hc : Steady.hasStopConditions options = false).
    { unfold Steady.hasStopConditions, Steady.maxDuration, Steady.maxConsecutiveFailures.
      now rewrite Hmd, Hmf. }
    pose proof (@sized_by_count_run payloads options t0 schedule _ _ 0%nat Hc
                  (sized_by_count_initial options) Hrun) as (_ & _ & Q3 & Q4 & Q5).
    rewrite Nat.add_0_r in Q4, Q5.
    assert (Hplan : planned_requests options
                    = Z.to_nat (Qceiling
                        match SteadyModeOptions.requestCount options with
                        | Some requestCount => requestCount
                        | None =>
                            inject_Z (Js.Math_floor
                                        (Double.mul
                                           (Js.or_default
                                              (option_map Double.round
                                                 (SteadyModeOptions.duration options)) 60)
                                           (Double.round (SteadyModeOptions.rate options))))
                        end)).
    { unfold planned_requests, Steady.totalRequests. rewrite Hc. reflexivity. }
    split; [|split; [|split; [|intros Hrc; split]]].
    + rewrite Q3. destruct (Steady.inLoop st); [destruct Q4; [reflexivity|]|
                                                destruct Q5; [reflexivity|]]; lia.
    + destruct (Steady.inLoop st); [destruct Q4; [reflexivity|]|
                                    destruct Q5; [reflexivity|]]; split;
        try discriminate; try lia; reflexivity.
    + intros n Hn. rewrite Hplan, Hn, Qceiling_Z. lia.
    + intros d Hd Hnz. rewrite Hplan, Hrc, Hd, Qceiling_Z. unfold Js.or_default.
      cbn [option_map].
      destruct (Qeq_bool (Double.round d) 0) eqn:E;
        [apply Qeq_bool_iff in E; contradiction|reflexivity].
    + intros Hd. rewrite Hplan, Hrc, Qceiling_Z. unfold Js.or_default.
      destruct Hd as [->|(d & -> & Hz)]; [reflexivity|]. cbn [option_map].
      apply Qeq_bool_iff in Hz. now rewrite Hz.
Qed.

(** The hypothesis of C3 holds on a run sized by a duration of sixty
    seconds at 4.1 requests a second: the product of the doubles is
    245.99999999999997, so that 245 requests are planned, and eleven turns
    of the loop dispatch eleven of them. *)
Lemma steady_sizing_rule_witness :
  exists st : Steady.State,
    Steady.runSteadyMode [] sixty_seconds_at_4_1 0 eleven_turns = Some st /\
    length (Steady.dispatched st)
    = Nat.min (count_turns eleven_turns) (planned_requests sixty_seconds_at_4_1) /\
    planned_requests sixty_seconds_at_4_1 = 245%nat.
Proof.
  eexists. split; [vm_compute; reflexivity|].
  split; [|vm_compute; reflexivity].
  apply (steady_sizing_rule [] sixty_seconds_at_4_1 0 eleven_turns).
  - vm_compute. reflexivity.
  - split; reflexivity.
Defined.

(** C3 as the specification words it fails on a duration of zero: at one
    request a second [floor (duration * rate)] is 0, and the run dispatches 60
    requests before the loop is left. *)
Lemma steady_sizing_counterexample :
  SteadyModeOptions.duration zero_duration = Some 0 /\
  SteadyModeOptions.requestCount zero_duration = None /\
  Js.Math_floor (0 * SteadyModeOptions.rate zero_duration) = 0%Z /\
  exists st : Steady.State,
    Steady.runSteadyMode [] zero_duration 0 sixty_one_turns = Some st /\
    Steady.inLoop st = false /\
    length (Steady.dispatched st) = 60%nat.
Proof.
  split; [reflexivity|]. split; [reflexivity|]. split; [reflexivity|].
  eexists. split; [vm_compute; reflexivity|]. split; reflexivity.
Qed.

(** *** Stopping on consecutive failures *)

Lemma Qle_bool_nat (k n : nat) :
  Qle_bool (inject_Z (Z.of_nat k)) (inject_Z (Z.of_nat n)) = (k <=? n)%nat.
Proof.
  destruct (Nat.leb_spec k n) as [H|H].
  - apply Qle_bool_iff. rewrite <- Zle_Qle. lia.
  - destruct (Qle_bool _ _) eqn:E; [|reflexivity].
    apply Qle_bool_iff in E. rewrite <- Zle_Qle in E. lia.
Qed.

Section FailingBackend.
Variable preparedPayloads : list PreparedPayload.t.
Variable rate : Q.
Variable duration requestCount : option Q.
Variable testStartTime : Z.
Variable k : nat.
Hypothesis k_positive : (1 <= k)%nat.

Let options : SteadyModeOptions.t :=
  SteadyModeOptions.mk rate duration requestCount None (Some (inject_Z (Z.of_nat k))).

Local Abbreviation step := (Steady.step preparedPayloads options testStartTime).
Local Abbreviation run := (Steady.run preparedPayloads options testStartTime).

Lemma onFulfilled_failure (i : nat) (raw : RequestResult.t) (st : Steady.State) :
  RequestResult.success raw = false ->
  let st' := Steady.onFulfilled options testStartTime i raw st in
  Steady.consecutiveFailures st' = S (Steady.consecutiveFailures st) /\
  Steady.results st' = Steady.results st ++ [RequestResult.set_index i raw] /\
  Steady.shouldStop st' = (k <=? S (Steady.consecutiveFailures st))%nat /\
  Steady.stopReason st'
  = (if (k <=? S (Steady.consecutiveFailures st))%nat
     then consecutive_failures else Steady.stopReason st).
Proof.
  intros Hf. unfold Steady.onFulfilled, Steady.processResult.
  change (Steady.maxConsecutiveFailures options) with (Some (inject_Z (Z.of_nat k))).
  cbn [RequestResult.success RequestResult.set_index]. rewrite Hf.
  steady_fields. rewrite Qle_bool_nat.
  destruct (k <=? S (Steady.consecutiveFailures st))%nat; steady_fields;
    repeat split; reflexivity.
Qed.

Lemma failing_run_step (st : Steady.State) (ev : Steady.Event) (st' : Steady.State)
  (n : nat) :
  all_fail [ev] -> failing_run k st n -> step st ev = Some st' ->
  failing_run k st' (count_settles [ev] + n).
Proof.
  intros Hev (F1 & F2 & F3 & F4 & F5 & F6) Hstep. apply step_cases in Hstep.
  destruct Hstep as [nowTop nowAfter Hin|i raw Hi Hph Heq|i raw remaining Hi Hph Hp].
  - cbn [count_settles Nat.add].
    destruct (loopTurn_cases preparedPayloads options testStartTime nowTop nowAfter st)
      as [Hs|m Hs Hm|t Hs Ht Hle|st' Hs Hle Hin' Hn Hd Hr Hcf Hsr Hss].
    + rewrite F4 in Hs.
      assert (E : Steady.afterLoop st = Steady.finish st).
      { unfold Steady.afterLoop. rewrite F5, Hs.
        destruct (Steady.pendingRequests st); reflexivity. }
      rewrite E. unfold failing_run, Steady.inLoop. steady_fields.
      split; [exact F1|]. split; [exact F2|]. split; [exact F3|].
      split; [exact F4|]. split; [exact F5|].
      right. exists n. rewrite F5, Hs, F1. cbn [StopReason_eqb].
      split; [reflexivity|]. apply Nat.leb_le in Hs. lia.
    + discriminate.
    + discriminate.
    + unfold failing_run. rewrite Hin', Hr, Hcf, Hsr, Hss. auto 10.
  - cbn [count_settles Nat.add].
    pose proof (Forall_inv Hev) as Hf. cbn beta iota in Hf.
    destruct (onFulfilled_failure i raw st Hf) as (O1 & O2 & O3 & O4).
    unfold failing_run, Steady.inLoop in *. rewrite O1, O2, O3, O4, Heq, F1, F5.
    rewrite length_app, F2. cbn [length].
    split; [reflexivity|]. split; [lia|]. split.
    { apply Forall_app. split; [assumption|]. repeat constructor. exact Hf. }
    split; [reflexivity|]. split.
    { destruct (Nat.leb_spec k (S n)), (Nat.leb_spec k n); try reflexivity; lia. }
    destruct F6 as [F6|(m & F6 & Hm)]; [now left|right]. exists m. split; [assumption|lia].
  - exfalso. unfold Steady.inLoop in F6. rewrite Hph in F6.
    destruct F6 as [F6|(m & F6 & _)]; discriminate.
Qed.

Lemma failing_run_run (schedule : list Steady.Event) (st st' : Steady.State) (n : nat) :
  all_fail schedule -> failing_run k st n -> run schedule st = Some st' ->
  failing_run k st' (count_settles schedule + n).
Proof.
  revert st n. induction schedule as [|ev schedule IH]; intros st n Hall HF Hrun;
    simpl in Hrun.
  - inversion Hrun; subst. exact HF.
  - destruct (step st ev) as [st1|] eqn:E; [|discriminate].
    inversion Hall as [|? ? Hev Hall']; subst.
    assert (Hev1 : all_fail [ev]) by (constructor; [assumption|constructor]).
    pose proof (@failing_run_step st ev st1 n Hev1 HF E) as HF1.
    specialize (IH st1 _ Hall' HF1 Hrun).
    replace (count_settles (ev :: schedule) + n)%nat
      with (count_settles schedule + (count_settles [ev] + n))%nat; [exact IH|].
    destruct ev; simpl; lia.
Qed.

Lemma failing_run_initial : failing_run k Steady.initial 0.
Proof.
  unfold failing_run. cbn.
  assert (E : (k <=? 0)%nat = false) by (apply Nat.leb_gt; lia). rewrite E.
  repeat split; try reflexivity; [constructor|now left].
Qed.

(** A turn of the loop against the failing backend: the run goes on while
    fewer than [k] requests have failed, and returns otherwise. *)
Lemma failing_turn (st : Steady.State) (n : nat) (nowTop nowAfter : Z) :
  failing_run k st n -> Steady.inLoop st = true ->
  exists st1,
    step st (Steady.LoopTurn nowTop nowAfter) = Some st1 /\
    (((n < k)%nat /\ Steady.inLoop st1 = true) \/
     ((k <= n)%nat /\
      Steady.phase st1 = Steady.Returned (consecutive_failures, Some n) /\
      Steady.results st1 = Steady.results st)).
Proof.
  intros (F1 & F2 & F3 & F4 & F5 & F6) Hin.
  exists (Steady.loopTurn preparedPayloads options testStartTime nowTop nowAfter st).
  split.
  { unfold Steady.step, Steady.inLoop in *. destruct (Steady.phase st); try discriminate;
      reflexivity. }
  destruct (loopTurn_cases preparedPayloads options testStartTime nowTop nowAfter st)
    as [Hs|m Hs Hm|t Hs Ht Hle|st' Hs Hle Hin' Hn Hd Hr Hcf Hsr Hss].
  - right. rewrite F4 in Hs.
    assert (E : Steady.afterLoop st = Steady.finish st).
    { unfold Steady.afterLoop. rewrite F5, Hs.
      destruct (Steady.pendingRequests st); reflexivity. }
    rewrite E. steady_fields. rewrite F5, Hs, F1. cbn [StopReason_eqb].
    split; [now apply Nat.leb_le|]. split; reflexivity.
  - discriminate.
  - discriminate.
  - left. rewrite F4 in Hs. apply Nat.leb_gt in Hs. split; assumption.
Qed.

End FailingBackend.

Lemma filter_all_failed (rs : list RequestResult.t) :
  Forall (fun r => RequestResult.success r = false) rs ->
  filter RequestResult.success rs = [] /\
  filter (fun r => negb (RequestResult.success r)) rs = rs.
Proof.
  induction 1 as [|r rs Hr _ [IH1 IH2]]; [split; reflexivity|].
  simpl. rewrite Hr. simpl. rewrite IH1, IH2. split; reflexivity.
Qed.

(** C2, as the code has it.  A steady run with [maxConsecutiveFailures = k]
    (3 in the specification) and no [maxDuration], against a backend whose
    every request fails: at each turn of the loop the run goes on while fewer
    than [k] failures have arrived, and returns once [k] or more have.  It
    then returns normally, with [stopReason = "consecutive-failures"], and
    [consecutiveFailuresAtStop] and [counts.total] both equal to the number of
    failures that had arrived by that turn: [k] when they arrive one by one,
    more when several arrive between two turns.  The summary of [main] is
    complete: every request counted failed, none succeeded. *)
Theorem steady_stops_on_consecutive_failures :
  forall (JSON_parse_entries : string -> Js.Completion (list (string * string)))
         (preparedPayloads : list PreparedPayload.t) (rate : Q)
         (duration requestCount : option Q) (testStartTime : Z) (k : nat)
         (arrived : list Steady.Event) (nowTop nowAfter : Z) (st : Steady.State),
    (1 <= k)%nat ->
    all_fail arrived ->
    Steady.runSteadyMode preparedPayloads
      (SteadyModeOptions.mk rate duration requestCount None (Some (inject_Z (Z.of_nat k))))
      testStartTime arrived = Some st ->
    Steady.returned st = false ->
    exists st1 : Steady.State,
      Steady.step preparedPayloads
        (SteadyModeOptions.mk rate duration requestCount None
           (Some (inject_Z (Z.of_nat k))))
        testStartTime st (Steady.LoopTurn nowTop nowAfter) = Some st1 /\
      (((count_settles arrived < k)%nat /\ Steady.returned st1 = false) \/
       ((k <= count_settles arrived)%nat /\
        exists (steadyResult : SteadyModeResult.t) (summary : RunResult.t),
          Steady.result st1 = Some steadyResult /\
          SteadyModeResult.stopReason steadyResult = consecutive_failures /\
          SteadyModeResult.consecutiveFailuresAtStop steadyResult
          = Some (count_settles arrived) /\
          mainSteady JSON_parse_entries rate steadyResult = Js.Normal summary /\
          RunResult.requests summary
          = RunResult.mkRequests (count_settles arrived) 0 (count_settles arrived) /\
          RunResult.stopReason summary = Some consecutive_failures /\
          RunResult.consecutiveFailuresAtStop summary = Some (count_settles arrived))).
Proof.
  intros J payloads rate duration requestCount t0 k arrived nowTop nowAfter st
    Hk Hall Hrun Hret.
  pose proof (@failing_run_run payloads rate duration requestCount t0 k Hk arrived _ _ 0%nat
                Hall (failing_run_initial Hk) Hrun) as HF.
  rewrite Nat.add_0_r in HF. set (n := count_settles arrived) in *.
  assert (Hin : Steady.inLoop st = true).
  { destruct HF as (_ & _ & _ & _ & _ & [H|(m & H & _)]); [assumption|].
    unfold Steady.returned in Hret. rewrite H in Hret. discriminate. }
  destruct (@failing_turn payloads rate duration requestCount t0 k st n nowTop nowAfter
              HF Hin) as (st1 & Hstep & Hcase).
  exists st1. split; [exact Hstep|].
  destruct Hcase as [[Hlt Hin1]|(Hle & Hph & Hres)].
  - left. split; [assumption|]. unfold Steady.returned, Steady.inLoop in *.
    destruct (Steady.phase st1); try discriminate; reflexivity.
  - right. split; [assumption|].
    destruct HF as (_ & Hlen & Hfail & _).
    assert (Hne : Steady.results st1 <> []).
    { rewrite Hres. intros E. rewrite E in Hlen. simpl in Hlen. lia. }
    destruct (printResults_nonempty J steady rate None Hne)
      as (rr & Epr & _ & _ & Hreq & _).
    destruct (filter_all_failed Hfail) as [Es Ef].
    rewrite Hres, Es, Ef, Hlen in Hreq. cbn [length] in Hreq.
    eexists. eexists. unfold Steady.result. rewrite Hph.
    split; [reflexivity|]. split; [reflexivity|]. split; [reflexivity|].
    unfold mainSteady. cbn [SteadyModeResult.results]. rewrite Epr. cbn [Js.bind].
    split; [reflexivity|]. cbn. auto.
Qed.

(** The hypotheses of C2 hold with [maxConsecutiveFailures = 3] when three
    failures have arrived one by one; the next turn of the loop returns. *)
Lemma steady_stops_on_consecutive_failures_witness :
  exists st : Steady.State,
    Steady.runSteadyMode [] stop_after_three_failures 0 three_arrived = Some st /\
    Steady.returned st = false /\
    all_fail three_arrived /\
    exists st1 : Steady.State,
      Steady.step [] stop_after_three_failures 0 st (Steady.LoopTurn 300 300) = Some st1 /\
      (((count_settles three_arrived < 3)%nat /\ Steady.returned st1 = false) \/
       ((3 <= count_settles three_arrived)%nat /\
        exists (steadyResult : SteadyModeResult.t) (summary : RunResult.t),
          Steady.result st1 = Some steadyResult /\
          SteadyModeResult.stopReason steadyResult = consecutive_failures /\
          SteadyModeResult.consecutiveFailuresAtStop steadyResult
          = Some (count_settles three_arrived) /\
          mainSteady JSON_rejects 10 steadyResult = Js.Normal summary /\
          RunResult.requests summary
          = RunResult.mkRequests (count_settles three_arrived) 0
              (count_settles three_arrived) /\
          RunResult.stopReason summary = Some consecutive_failures /\
          RunResult.consecutiveFailuresAtStop summary
          = Some (count_settles three_arrived))).
Proof.
  assert (Hall : all_fail three_arrived) by (repeat constructor).
  eexists. split; [vm_compute; reflexivity|]. split; [reflexivity|].
  split; [exact Hall|].
  apply (@steady_stops_on_consecutive_failures JSON_rejects [] 10 None None 0%Z 3
           three_arrived 300%Z 300%Z).
  - lia.
  - exact Hall.
  - vm_compute. reflexivity.
  - reflexivity.
Defined.

(** C2 as the specification words it fails when the failures arrive in a
    burst: with four requests in flight and all four failed between two turns
    of the loop, the run stops with [consecutiveFailuresAtStop = 4] and
    [counts.total = 4]. *)
Lemma steady_stops_at_three_counterexample :
  all_fail failures_in_a_burst /\
  exists (steadyResult : SteadyModeResult.t) (summary : RunResult.t),
    awaitSteadyMode [] stop_after_three_failures 0 failures_in_a_burst = Some steadyResult /\
    SteadyModeResult.stopReason steadyResult = consecutive_failures /\
    SteadyModeResult.consecutiveFailuresAtStop steadyResult = Some 4%nat /\
    mainSteady JSON_rejects 10 steadyResult = Js.Normal summary /\
    RunResult.total (RunResult.requests summary) = 4%nat /\
    RunResult.consecutiveFailuresAtStop summary <> Some 3%nat.
Proof.
  split; [repeat constructor|].
  eexists. eexists. split; [vm_compute; reflexivity|].
  split; [reflexivity|]. split; [reflexivity|].
  split; [vm_compute; reflexivity|]. split; [reflexivity|discriminate].
Qed.

(** ** The burst controller *)

Ltac burst_fields :=
  cbn [Burst.results Burst.payloadIndex Burst.requestIndex Burst.batch Burst.phase
       Burst.inFlight Burst.fulfilled Burst.trace Burst.dispatched] in *.

Lemma overlap_snoc_completion (B : nat) (tr : list Burst.Observed) (i : nat) :
  batches_do_not_overlap B tr -> batches_do_not_overlap B (tr ++ [Burst.Completion i]).
Proof.
  intros H pre j post E k Hk.
  destruct (exists_last (l := Burst.Dispatch j :: post) ltac:(discriminate))
    as (body & lastev & El).
  rewrite El, app_assoc in E. apply app_inj_tail in E as [E1 E2]. subst lastev.
  destruct body as [|b body]; simpl in El.
  - inversion El.
  - inversion El; subst. apply (H pre j body); [reflexivity|assumption].
Qed.

Lemma overlap_snoc_dispatch (B : nat) (tr : list Burst.Observed) (j : nat) :
  batches_do_not_overlap B tr ->
  (forall i, (i < (j / B) * B)%nat -> In (Burst.Completion i) tr) ->
  batches_do_not_overlap B (tr ++ [Burst.Dispatch j]).
Proof.
  intros H Hj pre j' post E k Hk.
  destruct (exists_last (l := Burst.Dispatch j' :: post) ltac:(discriminate))
    as (body & lastev & El).
  rewrite El, app_assoc in E. apply app_inj_tail in E as [E1 E2]. subst lastev.
  destruct body as [|b body]; simpl in El.
  - inversion El; subst. rewrite app_nil_r in Hj. now apply Hj.
  - inversion El; subst. apply (H pre j' body); [reflexivity|assumption].
Qed.

Lemma overlap_dispatches (B b n : nat) (tr : list Burst.Observed) :
  batches_do_not_overlap B tr ->
  (forall i, (i < b * B)%nat -> In (Burst.Completion i) tr) ->
  (n <= B)%nat ->
  batches_do_not_overlap B (tr ++ map Burst.Dispatch (seq (b * B) n)).
Proof.
  intros H Hdone. induction n as [|n IH]; intros Hn.
  - simpl. now rewrite app_nil_r.
  - rewrite seq_S, map_app, app_assoc. simpl map.
    apply overlap_snoc_dispatch; [apply IH; lia|].
    intros i Hi. apply in_or_app. left. apply Hdone.
    rewrite Nat.div_add_l, Nat.div_small in Hi by lia. lia.
Qed.

Lemma lookup_app (i : nat) (f g : list (nat * RequestResult.t)) :
  Steady.lookup i (f ++ g)
  = match Steady.lookup i f with Some r => Some r | None => Steady.lookup i g end.
Proof.
  induction f as [|[k v] f IH]; simpl; [reflexivity|].
  destruct (k =? i)%nat; [reflexivity|apply IH].
Qed.

Lemma delete_length (i : nat) (l : list nat) :
  NoDup l -> In i l -> S (length (Steady.delete i l)) = length l.
Proof.
  unfold Steady.delete. induction 1 as [|a l Ha ND IH]; intros Hin; [contradiction|].
  simpl. destruct (Nat.eqb_spec a i) as [->|Hne]; simpl.
  - f_equal. clear IH. induction l as [|b l IHl]; [reflexivity|].
    simpl. destruct (Nat.eqb_spec b i) as [->|_]; simpl.
    + exfalso. apply Ha. now left.
    + f_equal. apply IHl.
      * intros H. apply Ha. now right.
      * now inversion ND.
      * destruct Hin as [Hin|Hin]; [now left|]. now left.
  - f_equal. apply IH. destruct Hin; [contradiction|assumption].
Qed.

Lemma delete_NoDup (i : nat) (l : list nat) : NoDup l -> NoDup (Steady.delete i l).
Proof. apply NoDup_filter. Qed.

Section BurstFacts.
Variable preparedPayloads : list PreparedPayload.t.
Variable burstSize : nat.
Variable totalBatches : nat.

Local Abbreviation B := burstSize.
Local Abbreviation consistent := (burst_consistent preparedPayloads burstSize totalBatches).

Lemma dispatchBatch_spec (n : nat) (acc : list nat) (st : Burst.State) :
  let (bp, st') := Burst.dispatchBatch preparedPayloads n acc st in
  bp = acc ++ seq (Burst.requestIndex st) n /\
  Burst.requestIndex st' = (Burst.requestIndex st + n)%nat /\
  Burst.payloadIndex st' = (Burst.payloadIndex st + n)%nat /\
  Burst.inFlight st' = Burst.inFlight st ++ seq (Burst.requestIndex st) n /\
  Burst.trace st' = Burst.trace st ++ map Burst.Dispatch (seq (Burst.requestIndex st) n) /\
  (Burst.payloadIndex st = Burst.requestIndex st ->
   Burst.dispatched st'
   = Burst.dispatched st
     ++ map (round_robin preparedPayloads) (seq (Burst.requestIndex st) n)) /\
  Burst.results st' = Burst.results st /\
  Burst.batch st' = Burst.batch st /\
  Burst.phase st' = Burst.phase st /\
  Burst.fulfilled st' = Burst.fulfilled st.
Proof.
  revert acc st. induction n as [|n IH]; intros acc st; simpl.
  - rewrite !app_nil_r, !Nat.add_0_r. repeat split; reflexivity.
  - match goal with |- context [Burst.dispatchBatch _ n ?a ?s] =>
      specialize (IH a s); destruct (Burst.dispatchBatch preparedPayloads n a s)
        as [bp st'] end.
    burst_fields.
    destruct IH as (E1 & E2 & E3 & E4 & E5 & E6 & E7 & E8 & E9 & E10).
    rewrite E1, E2, E3, E4, E5, E7, E8, E9, E10, <- !app_assoc. simpl app.
    repeat split; try reflexivity; try lia.
    intros Hp. rewrite E6 by congruence. rewrite <- app_assoc. simpl app.
    unfold round_robin at 2. now rewrite Hp.
Qed.

Lemma map_index_batchResults (fulfilled : list (nat * RequestResult.t)) (bp : list nat) :
  (forall k r, In (k, r) fulfilled -> RequestResult.index r = k) ->
  (forall i, In i bp -> exists r, Steady.lookup i fulfilled = Some r) ->
  map RequestResult.index
    (flat_map (fun idx => match Steady.lookup idx fulfilled with
                          | Some r => [r]
                          | None => []
                          end) bp) = bp.
Proof.
  intros Hk. induction bp as [|i bp IH]; intros H; [reflexivity|].
  simpl. destruct (H i (or_introl eq_refl)) as [r Hr]. rewrite Hr. simpl.
  rewrite (Hk i r (lookup_In _ _ Hr)). f_equal. apply IH. intros j Hj. apply H. now right.
Qed.

Lemma runBatches_consistent (batchesLeft : nat) (st : Burst.State) :
  at_batch_start preparedPayloads burstSize st ->
  (Burst.batch st + batchesLeft = totalBatches)%nat ->
  consistent (Burst.runBatches preparedPayloads burstSize totalBatches batchesLeft st).
Proof.
  revert st. induction batchesLeft as [|left IH];
    intros st (I1 & I2 & I3 & I4 & I5 & I6 & I7 & I8) Hb.
  - unfold burst_consistent, settled_requests in *. cbn [Burst.runBatches]. burst_fields.
    split; [exact I1|]. split; [exact I2|]. split; [exact I3|]. split; [exact I4|].
    split; [exact I5|]. split; [rewrite I6; constructor|].
    split; [rewrite I6, I7; simpl; lia|]. split; [lia|].
    split; [rewrite I8; f_equal; lia|exact I6].
  - cbn [Burst.runBatches].
    assert (Hcur : Nat.min burstSize (Burst.totalRequests burstSize totalBatches
                                      - Burst.requestIndex st) = burstSize).
    { unfold Burst.totalRequests. rewrite I8, <- Hb. nia. }
    rewrite Hcur.
    pose proof (dispatchBatch_spec burstSize [] st) as Hd.
    destruct (Burst.dispatchBatch preparedPayloads burstSize [] st) as [bp st1].
    destruct Hd as (E1 & E2 & E3 & E4 & E5 & E6 & E7 & E8 & E9 & E10).
    simpl app in E1. specialize (E6 I1). rewrite I6 in E4. simpl app in E4.
    destruct I5 as [I5a I5b].
    assert (Hdone : forall i, (i < Burst.batch st * burstSize)%nat ->
                              In (Burst.Completion i) (Burst.trace st)).
    { intros i Hi. apply I5b; [lia|]. rewrite I6. intros []. }
    destruct bp as [|b0 bp'].
    + (* an empty batch: [burstSize] is 0 *)
      assert (HB : burstSize = 0%nat).
      { destruct burstSize; [reflexivity|]. simpl in E1. discriminate. }
      rewrite HB in E2, E3, E4, E5, E6. simpl in E4, E5, E6.
      rewrite app_nil_r in E5, E6. rewrite Nat.add_0_r in E2, E3.
      apply IH; [|unfold Burst.collectBatch; burst_fields; lia].
      unfold at_batch_start, Burst.collectBatch, settled_requests. burst_fields.
      simpl flat_map. rewrite app_nil_r, E2, E3, E4, E5, E6, E7, E10.
      split; [exact I1|]. split; [exact I2|].
      split; [rewrite I3, HB, !Nat.mul_0_r; reflexivity|]. split; [exact I4|].
      split; [split; [exact I5a|rewrite <- I6; exact I5b]|].
      split; [reflexivity|]. split; [exact I7|]. rewrite I8, HB. lia.
    + unfold burst_consistent. burst_fields.
      assert (HB : (0 < burstSize)%nat).
      { destruct burstSize; [discriminate|lia]. }
      rewrite E2, E3, E4, E5, E6, E7, E8, E10, I2, I8, <- map_app, <- seq_app.
      split; [lia|]. split; [reflexivity|]. split; [assumption|]. split.
      { apply overlap_dispatches; [assumption|assumption|lia]. }
      split.
      { unfold settled_requests. burst_fields.
        split; [assumption|]. intros i Hi Hn.
        assert (Hlt : (i < Burst.batch st * burstSize)%nat).
        { destruct (Nat.lt_ge_cases i (Burst.batch st * burstSize)); [assumption|].
          exfalso. apply Hn, in_seq. lia. }
        destruct (I5b i ltac:(lia) ltac:(rewrite I6; intros [])) as [Ht Hr].
        split; [apply in_or_app; now left|assumption]. }
      split; [apply seq_NoDup|]. split; [rewrite length_seq; lia|].
      split; [lia|]. split; [lia|]. split; [now rewrite <- I8|].
      split; [rewrite <- I8, <- E1; discriminate|].
      intros i Hi. apply in_seq in Hi. lia.
Qed.


Lemma initial_at_batch_start : at_batch_start preparedPayloads burstSize Burst.initial.
Proof.
  unfold at_batch_start, settled_requests. cbn.
  repeat split; try reflexivity; try contradiction; try lia.
  intros pre j post E. destruct pre; discriminate.
Qed.

Lemma step_consistent (st : Burst.State) (ev : nat * RequestResult.t) (st' : Burst.State) :
  consistent st ->
  Burst.step preparedPayloads burstSize totalBatches st ev = Some st' ->
  consistent st'.
Proof.
  intros (I1 & I2 & I3 & I4 & [I5a I5b] & I6 & I7 & I8). unfold Burst.step.
  destruct ev as [idx raw].
  destruct (Burst.phase st) as [bp left|] eqn:Eph; [|discriminate].
  destruct I8 as (P1 & P2 & P3 & P4 & P5).
  destruct (Steady.member idx (Burst.inFlight st)) eqn:Em; [|discriminate].
  apply member_In in Em. burst_fields.
  pose proof (@delete_length idx _ I6 Em) as Hlen.
  assert (Hsa : forall k r,
             In (k, r) (Burst.fulfilled st ++ [(idx, RequestResult.set_index idx raw)]) ->
             RequestResult.index r = k).
  { intros k r Hin. apply in_app_or in Hin as [Hin|[E|[]]]; [now apply I5a|].
    now inversion E; subst. }
  assert (Hsb : forall i, (i < Burst.requestIndex st)%nat ->
             ~ In i (Steady.delete idx (Burst.inFlight st)) ->
             In (Burst.Completion i) (Burst.trace st ++ [Burst.Completion idx]) /\
             exists r, Steady.lookup i
                         (Burst.fulfilled st ++ [(idx, RequestResult.set_index idx raw)])
                       = Some r).
  { intros i Hi Hn. rewrite lookup_app.
    destruct (Nat.eq_dec i idx) as [->|Hne].
    + split; [apply in_or_app; right; now left|].
      destruct (Steady.lookup idx (Burst.fulfilled st)); [eauto|].
      simpl. rewrite Nat.eqb_refl. eauto.
    + assert (Hn' : ~ In i (Burst.inFlight st))
        by (intros H; apply Hn, delete_In; tauto).
      destruct (I5b i Hi Hn') as [Ht [r Hr]].
      split; [apply in_or_app; now left|]. rewrite Hr. eauto. }
  pose proof (@delete_NoDup idx _ I6) as Hnd.
  assert (Hp5 : forall i, In i (Steady.delete idx (Burst.inFlight st)) ->
                          (Burst.batch st * burstSize <= i < Burst.requestIndex st)%nat)
    by (intros i Hi; apply delete_In in Hi; apply P5; tauto).
  destruct (Steady.delete idx (Burst.inFlight st)) as [|i0 rest] eqn:Ed;
    intros E; inversion E; subst st'; clear E.
  - apply runBatches_consistent; [|unfold Burst.collectBatch; burst_fields; lia].
    unfold at_batch_start, Burst.collectBatch, settled_requests. burst_fields.
    split; [exact I1|]. split; [exact I2|]. split.
    { rewrite map_app, I3, map_index_batchResults, P3.
      - rewrite <- seq_app. f_equal. lia.
      - exact Hsa.
      - intros i Hi. rewrite P3 in Hi. apply in_seq in Hi.
        destruct (Hsb i ltac:(lia) ltac:(intros [])) as [_ Hr]. exact Hr. }
    split; [now apply overlap_snoc_completion|].
    split; [split; [exact Hsa|exact Hsb]|].
    split; [reflexivity|]. split; [|exact P2].
    rewrite length_app. simpl in *. lia.
  - unfold burst_consistent, settled_requests. burst_fields.
    split; [exact I1|]. split; [exact I2|]. split; [exact I3|].
    split; [now apply overlap_snoc_completion|].
    split; [split; [exact Hsa|exact Hsb]|].
    split; [exact Hnd|].
    split; [rewrite length_app; simpl in *; lia|].
    split; [exact P1|]. split; [exact P2|]. split; [exact P3|].
    split; [discriminate|exact Hp5].
Qed.

Lemma run_consistent (schedule : list (nat * RequestResult.t)) (st : Burst.State) :
  Burst.runBurstMode preparedPayloads burstSize totalBatches schedule = Some st ->
  consistent st.
Proof.
  unfold Burst.runBurstMode.
  assert (H0 : consistent
                 (Burst.runBatches preparedPayloads burstSize totalBatches totalBatches
                    Burst.initial))
    by (apply runBatches_consistent; [apply initial_at_batch_start|reflexivity]).
  revert H0.
  generalize (Burst.runBatches preparedPayloads burstSize totalBatches totalBatches
                Burst.initial).
  induction schedule as [|ev schedule IH]; intros s Hs Hrun; simpl in Hrun.
  - now inversion Hrun; subst.
  - destruct (Burst.step preparedPayloads burstSize totalBatches s ev) as [s1|] eqn:E;
      [|discriminate].
    apply (IH s1); [eapply step_consistent; eassumption|assumption].
Qed.

(** Every completion is counted once. *)
Lemma run_fulfilled_length (schedule : list (nat * RequestResult.t)) (st : Burst.State) :
  Burst.runBurstMode preparedPayloads burstSize totalBatches schedule = Some st ->
  length (Burst.fulfilled st) = length schedule.
Proof.
  unfold Burst.runBurstMode.
  assert (Hrb : forall left s,
             Burst.fulfilled (Burst.runBatches preparedPayloads burstSize totalBatches left s)
             = Burst.fulfilled s).
  { induction left as [|left IH]; intros s; cbn [Burst.runBatches]; [reflexivity|].
    match goal with |- context [Burst.dispatchBatch _ ?n ?a ?s0] =>
      pose proof (dispatchBatch_spec n a s0) as Hd;
      destruct (Burst.dispatchBatch preparedPayloads n a s0) as [bp s1] end.
    destruct Hd as (_ & _ & _ & _ & _ & _ & _ & _ & _ & E10).
    destruct bp; [rewrite IH; exact E10|exact E10]. }
  assert (H0 : length (Burst.fulfilled
                         (Burst.runBatches preparedPayloads burstSize totalBatches
                            totalBatches Burst.initial)) = 0%nat)
    by (rewrite Hrb; reflexivity).
  revert H0.
  generalize (Burst.runBatches preparedPayloads burstSize totalBatches totalBatches
                Burst.initial).
  assert (G : forall sched s n, length (Burst.fulfilled s) = n ->
                Burst.run preparedPayloads burstSize totalBatches sched s = Some st ->
                length (Burst.fulfilled st) = (length sched + n)%nat).
  { induction sched as [|[idx raw] sched IH]; intros s n Hn Hrun;
      cbn [Burst.run] in Hrun.
    - inversion Hrun; subst. reflexivity.
    - destruct (Burst.step preparedPayloads burstSize totalBatches s (idx, raw))
        as [s1|] eqn:E; [|discriminate].
      rewrite (IH s1 (S n)); [simpl; lia| |assumption].
      unfold Burst.step in E. destruct (Burst.phase s); [|discriminate].
      destruct (Steady.member idx (Burst.inFlight s)); [|discriminate].
      burst_fields.
      destruct (Steady.delete idx (Burst.inFlight s)); inversion E; subst s1.
      + rewrite Hrb. unfold Burst.collectBatch. burst_fields.
        rewrite length_app. simpl. lia.
      + burst_fields. rewrite length_app. simpl. lia. }
  intros s Hs Hrun. rewrite (G schedule s 0%nat Hs Hrun). lia.
Qed.

End BurstFacts.

(** C5.  In a burst run of [totalBatches] batches of [burstSize] requests,
    under every order and timing of the completions: no request is dispatched
    before every request of the earlier batches has completed; the requests
    are given the indices 0, 1, 2, ... in the order they are dispatched; the
    run returns exactly when [totalBatches * burstSize] completions have
    arrived, until then some request is in flight and its completion is
    accepted; and the results returned carry the indices
    [0 .. totalBatches * burstSize - 1] in increasing order. *)
Theorem burst_batches_do_not_overlap :
  forall (preparedPayloads : list PreparedPayload.t) (burstSize totalBatches : nat)
         (schedule : list (nat * RequestResult.t)) (st : Burst.State),
    Burst.runBurstMode preparedPayloads burstSize totalBatches schedule = Some st ->
    batches_do_not_overlap burstSize (Burst.trace st) /\
    map fst (Burst.dispatched st) = seq 0 (Burst.requestIndex st) /\
    (Burst.returned st = true <-> length schedule = (totalBatches * burstSize)%nat) /\
    (Burst.returned st = false ->
     exists idx, forall raw,
       Burst.step preparedPayloads burstSize totalBatches st (idx, raw) <> None) /\
    (Burst.returned st = true ->
     map RequestResult.index (Burst.results st) = seq 0 (totalBatches * burstSize) /\
     length (Burst.results st) = (totalBatches * burstSize)%nat).
Proof.
  intros payloads B N schedule st Hrun.
  pose proof (run_consistent payloads B N schedule Hrun)
    as (I1 & I2 & I3 & I4 & I5 & I6 & I7 & I8).
  pose proof (run_fulfilled_length payloads B N schedule Hrun) as Hlen.
  split; [exact I4|]. split.
  { rewrite I2, map_map. unfold round_robin. cbn [fst]. apply map_id. }
  unfold Burst.returned, Burst.step.
  destruct (Burst.phase st) as [bp left|].
  - destruct I8 as (P1 & P2 & P3 & P4 & P5).
    assert (Hpos : (0 < length (Burst.inFlight st))%nat)
      by (destruct (Burst.inFlight st); [congruence|simpl; lia]).
    split; [split; [discriminate|]|].
    { intros E. exfalso. rewrite <- P1 in E. nia. }
    split; [|discriminate]. intros _.
    destruct (Burst.inFlight st) as [|idx rest] eqn:Ei; [congruence|].
    exists idx. intros raw. unfold Steady.member. cbn [existsb]. rewrite Nat.eqb_refl.
    cbn [orb]. burst_fields. destruct (Steady.delete idx (idx :: rest)); discriminate.
  - destruct I8 as (P1 & P2 & P3). rewrite P3 in I7. simpl in I7.
    split; [split; [intros _; lia|reflexivity]|].
    split; [discriminate|]. intros _. rewrite P1 in I3.
    split; [exact I3|]. rewrite <- (length_map RequestResult.index), I3. apply length_seq.
Qed.

(** The hypothesis of C5 holds on two batches of two requests completed out of
    order. *)
Lemma burst_batches_do_not_overlap_witness :
  exists st : Burst.State,
    Burst.runBurstMode two_payloads 2 2 out_of_order = Some st /\
    Burst.returned st = true /\
    batches_do_not_overlap 2 (Burst.trace st) /\
    map RequestResult.index (Burst.results st) = seq 0 (2 * 2).
Proof.
  eexists. split; [vm_compute; reflexivity|]. split; [reflexivity|].
  pose proof (burst_batches_do_not_overlap two_payloads 2 2 out_of_order
                ltac:(vm_compute; reflexivity)) as (H1 & _ & _ & _ & H5).
  split; [exact H1|]. apply H5. reflexivity.
Defined.

(** C10.  In steady mode and in burst mode alike, under every schedule, the
    [k]-th request dispatched in the run, counting from 0 and across the
    batches of a burst run, is given index [k] and the payload
    [preparedPayloads[k mod preparedPayloads.length]]. *)
Theorem payloads_round_robin :
  (forall (preparedPayloads : list PreparedPayload.t) (options : SteadyModeOptions.t)
          (testStartTime : Z) (schedule : list Steady.Event) (st : Steady.State),
     Steady.runSteadyMode preparedPayloads options testStartTime schedule = Some st ->
     Steady.dispatched st
     = map (fun k => (k, nth_error preparedPayloads (k mod length preparedPayloads)))
         (seq 0 (length (Steady.dispatched st)))) /\
  (forall (preparedPayloads : list PreparedPayload.t) (burstSize totalBatches : nat)
          (schedule : list (nat * RequestResult.t)) (st : Burst.State),
     Burst.runBurstMode preparedPayloads burstSize totalBatches schedule = Some st ->
     Burst.dispatched st
     = map (fun k => (k, nth_error preparedPayloads (k mod length preparedPayloads)))
         (seq 0 (length (Burst.dispatched st)))).
Proof.
  split.
  - intros payloads options t0 schedule st Hrun.
    pose proof (Inv_run payloads options t0 schedule Hrun) as (_ & Hd & _).
    rewrite Hd at 2. rewrite length_map, length_seq. exact Hd.
  - intros payloads B N schedule st Hrun.
    pose proof (run_consistent payloads B N schedule Hrun) as (_ & Hd & _).
    rewrite Hd at 2. rewrite length_map, length_seq. exact Hd.
Qed.

(** The hypotheses of C10 hold on a steady run and on a burst run over two
    payloads. *)
Lemma payloads_round_robin_witness :
  (exists st : Steady.State,
     Steady.runSteadyMode two_payloads ten_for_a_second 0 eleven_turns = Some st /\
     Steady.dispatched st
     = map (fun k => (k, nth_error two_payloads (k mod length two_payloads)))
         (seq 0 (length (Steady.dispatched st)))) /\
  (exists st : Burst.State,
     Burst.runBurstMode two_payloads 2 2 out_of_order = Some st /\
     Burst.dispatched st
     = map (fun k => (k, nth_error two_payloads (k mod length two_payloads)))
         (seq 0 (length (Burst.dispatched st)))).
Proof.
  split.
  - eexists. split; [vm_compute; reflexivity|].
    apply (proj1 payloads_round_robin two_payloads ten_for_a_second 0%Z eleven_turns).
    vm_compute. reflexivity.
  - eexists. split; [vm_compute; reflexivity|].
    apply (proj2 payloads_round_robin two_payloads 2%nat 2%nat out_of_order).
    vm_compute. reflexivity.
Defined.

(** ** Steady mode: what a run records *)

Lemma trailing_failures_snoc (rs : list RequestResult.t) (r : RequestResult.t) :
  trailing_failures (rs ++ [r])
  = if RequestResult.success r then 0%nat else S (trailing_failures rs).
Proof. unfold trailing_failures. rewrite rev_app_distr. reflexivity. Qed.

Lemma delete_absent (i : nat) (l : list nat) : ~ In i l -> Steady.delete i l = l.
Proof.
  unfold Steady.delete. induction l as [|a l IH]; intros H; [reflexivity|].
  simpl. destruct (Nat.eqb_spec a i) as [->|_]; simpl.
  - exfalso. apply H. now left.
  - f_equal. apply IH. intros Hin. apply H. now right.
Qed.

Lemma delete_perm (i : nat) (l : list nat) :
  NoDup l -> In i l -> Permutation (i :: Steady.delete i l) l.
Proof.
  induction 1 as [|a l Ha ND IH]; intros Hin; [contradiction|].
  unfold Steady.delete. simpl. destruct (Nat.eqb_spec a i) as [->|Hne]; simpl.
  - fold (Steady.delete i l). now rewrite delete_absent.
  - fold (Steady.delete i l). destruct Hin as [E|Hin]; [contradiction|].
    rewrite perm_swap. constructor. now apply IH.
Qed.

Lemma settlements_app (s1 s2 : list Steady.Event) :
  settlements (s1 ++ s2) = settlements s1 ++ settlements s2.
Proof.
  induction s1 as [|[a b|i raw] s1 IH]; simpl; [reflexivity|assumption|now rewrite IH].
Qed.

Lemma settlements_length (schedule : list Steady.Event) :
  length (settlements schedule) = count_settles schedule.
Proof.
  induction schedule as [|[a b|i raw] s IH]; simpl; [reflexivity|assumption|now rewrite IH].
Qed.

Section Accounting.
Variable preparedPayloads : list PreparedPayload.t.
Variable options : SteadyModeOptions.t.
Variable testStartTime : Z.

Local Abbreviation step := (Steady.step preparedPayloads options testStartTime).
Local Abbreviation run := (Steady.run preparedPayloads options testStartTime).
Local Abbreviation onFulfilled := (Steady.onFulfilled options testStartTime).
Local Abbreviation loopTurn := (Steady.loopTurn preparedPayloads options testStartTime).
Local Abbreviation recordRemaining := (Steady.recordRemaining options testStartTime).
Local Abbreviation Books := (accounted testStartTime).

(** Once every fulfilled promise has had its result recorded, the loop over
    [remaining] finds each of them in [results] and changes nothing. *)
Lemma recordRemaining_nothing (remaining : list nat) (st : Steady.State) :
  (forall k r, In (k, r) (Steady.fulfilled st) ->
               In (RequestResult.index r) (map RequestResult.index (Steady.results st))) ->
  recordRemaining remaining st = st.
Proof.
  intros Hrec. unfold Steady.recordRemaining.
  induction remaining as [|i remaining IH]; simpl; [reflexivity|].
  destruct (Steady.lookup i (Steady.fulfilled st)) as [r|] eqn:El; [|exact IH].
  apply lookup_In, Hrec, found_In in El. rewrite El. exact IH.
Qed.

Lemma Books_same_data (st st' : Steady.State) :
  Steady.fulfilled st' = Steady.fulfilled st ->
  Steady.results st' = Steady.results st ->
  Steady.pendingRequests st' = Steady.pendingRequests st ->
  Steady.nextRequestIndex st' = Steady.nextRequestIndex st ->
  Steady.completedCount st' = Steady.completedCount st ->
  Steady.consecutiveFailures st' = Steady.consecutiveFailures st ->
  Steady.timeline st' = Steady.timeline st ->
  Books st -> Books st'.
Proof. unfold accounted. intros -> -> -> -> -> -> ->. tauto. Qed.

Lemma Books_initial : Books Steady.initial.
Proof.
  unfold accounted. cbn. repeat split; try constructor; try contradiction.
  intros [|k] entry E; discriminate.
Qed.

Lemma Books_afterLoop (st : Steady.State) : Books st -> Books (Steady.afterLoop st).
Proof.
  intros H. unfold Steady.afterLoop, Steady.finish.
  destruct (Steady.pendingRequests st) eqn:E;
    [|destruct (negb _)]; (eapply Books_same_data; [..|exact H]); reflexivity.
Qed.

Lemma Books_loopTurn (nowTop nowAfter : Z) (st : Steady.State) :
  Books st -> Books (loopTurn nowTop nowAfter st).
Proof.
  intros H. unfold Steady.loopTurn.
  destruct (Steady.shouldStop st); [now apply Books_afterLoop|].
  destruct (match Steady.maxDuration options with Some _ => _ | None => _ end).
  { apply Books_afterLoop. eapply Books_same_data; [..|exact H]; reflexivity. }
  destruct (match Steady.totalRequests options with Some _ => _ | None => _ end);
    [now apply Books_afterLoop|].
  destruct H as (Hrec & Hnd & Hperm & Hcc & Hcf & Htl & Hfl).
  unfold accounted. steady_fields.
  split; [assumption|]. split.
  { apply NoDup_app; [assumption|repeat constructor; intros []|].
    intros j Hj [<-|[]].
    assert (Hin : In (Steady.nextRequestIndex st) (seq 0 (Steady.nextRequestIndex st))).
    { eapply Permutation_in; [exact Hperm|]. apply in_or_app. now left. }
    apply in_seq in Hin. lia. }
  split.
  { rewrite seq_S, <- app_assoc. cbn [Nat.add].
    rewrite <- Hperm, <- app_assoc. apply Permutation_app_head, Permutation_app_comm. }
  split; [assumption|]. split; [assumption|]. split; [assumption|].
  intros k entry E. apply Hfl in E. lia.
Qed.

Lemma Books_onFulfilled (i : nat) (raw : RequestResult.t) (st : Steady.State) :
  In i (Steady.pendingRequests st) -> Books st -> Books (onFulfilled i raw st).
Proof.
  intros Hi (Hrec & Hnd & Hperm & Hcc & Hcf & Htl & Hfl).
  assert (Hlen : (length (Steady.pendingRequests st) + length (Steady.results st)
                  = Steady.nextRequestIndex st)%nat).
  { apply Permutation_length in Hperm.
    now rewrite length_app, length_map, length_seq in Hperm. }
  assert (Htlen : length (Steady.timeline st) = length (Steady.results st))
    by (symmetry; eapply Forall2_length; exact Htl).
  unfold Steady.onFulfilled.
  match goal with |- context [Steady.processResult _ _ ?s ?r] =>
    pose proof (processResult_fields options testStartTime s r) as Hf;
    assert (Ht : Steady.timeline (fst (Steady.processResult options testStartTime s r))
                 = Steady.timeline s
                   ++ [TimelineRequest.mk (RequestResult.index r) (RequestResult.endTime r)
                         (inject_Z (RequestResult.endTime r - testStartTime) / 1000)
                         (RequestResult.duration r) (RequestResult.tacoSigningTimeMs r)
                         (RequestResult.success r) (RequestResult.error r)
                         (length (Steady.pendingRequests s))])
      by (unfold Steady.processResult;
          destruct (Steady.maxConsecutiveFailures options) as [m|];
          [destruct (Qle_bool m _)|]; reflexivity);
    destruct (Steady.processResult options testStartTime s r) as [st2 stop] end.
  cbn [fst] in Hf, Ht. steady_fields.
  destruct Hf as (Er & _ & Epd & En & _ & _ & Efu & _ & _ & Ecc & Ecf).
  unfold accounted. steady_fields.
  rewrite Er, Epd, En, Efu, Ecc, Ecf, Ht. steady_fields.
  rewrite map_app. cbn [map RequestResult.index RequestResult.set_index].
  split.
  { intros k r Hin. apply in_or_app. apply in_app_or in Hin as [Hin|[E|[]]].
    - left. eauto.
    - right. inversion E; subst. now left. }
  split; [now apply delete_NoDup|]. split.
  { rewrite <- Hperm.
    transitivity ((i :: Steady.delete i (Steady.pendingRequests st))
                  ++ map RequestResult.index (Steady.results st)).
    - cbn [app]. rewrite app_assoc. apply Permutation_sym, Permutation_cons_append.
    - apply Permutation_app_tail, delete_perm; assumption. }
  split; [rewrite length_app; simpl; lia|]. split.
  { rewrite trailing_failures_snoc. cbn [RequestResult.success]. now rewrite Hcf. }
  split.
  { apply Forall2_app; [assumption|]. constructor; [|constructor].
    unfold mirrors. cbn. repeat split; reflexivity. }
  intros k entry E.
  destruct (Nat.lt_ge_cases k (length (Steady.timeline st))) as [Hlt|Hge].
  - rewrite nth_error_app1 in E by assumption. now apply Hfl.
  - rewrite nth_error_app2 in E by assumption.
    destruct (k - length (Steady.timeline st))%nat as [|d] eqn:Ek;
      [|destruct d; discriminate].
    inversion E; subst entry. cbn [TimelineRequest.inFlight].
    pose proof (@delete_length i _ Hnd Hi). lia.
Qed.

Lemma Books_step (st : Steady.State) (ev : Steady.Event) (st' : Steady.State) :
  Books st -> step st ev = Some st' ->
  Books st' /\ Steady.results st' = Steady.results st ++ settlements [ev].
Proof.
  intros H. unfold Steady.step.
  assert (Hturn : forall a b,
             Steady.results (loopTurn a b st) = Steady.results st ++ []).
  { intros a b. rewrite app_nil_r. unfold Steady.loopTurn.
    destruct (Steady.shouldStop st);
      [apply (afterLoop_fields st)|].
    destruct (match Steady.maxDuration options with Some _ => _ | None => _ end);
      [apply (afterLoop_fields (Steady.set_stopReason duration_reached st))|].
    destruct (match Steady.totalRequests options with Some _ => _ | None => _ end);
      [apply (afterLoop_fields st)|reflexivity]. }
  destruct ev as [nowTop nowAfter|i raw]; destruct (Steady.phase st) eqn:Eph;
    try discriminate.
  1,2: intros E; inversion E; subst; split; [now apply Books_loopTurn|apply Hturn].
  1,3: destruct (Steady.member i (Steady.pendingRequests st)) eqn:Em; [|discriminate];
       apply member_In in Em; intros E; inversion E; subst;
       split; [now apply Books_onFulfilled|];
       apply (onFulfilled_fields options testStartTime i raw st).
  destruct (Steady.member i (Steady.pendingRequests st)) eqn:Em; [|discriminate].
  apply member_In in Em. pose proof (Books_onFulfilled i raw Em H) as H'.
  pose proof (proj1 (onFulfilled_fields options testStartTime i raw st)) as Er.
  destruct (Steady.pendingRequests (onFulfilled i raw st));
    intros E; inversion E; subst; [|split; assumption].
  rewrite (recordRemaining_nothing remaining _ (proj1 H')).
  split; [|exact Er].
  unfold Steady.finish. eapply Books_same_data; [..|exact H']; reflexivity.
Qed.

Lemma Books_run (schedule : list Steady.Event) (st st' : Steady.State) :
  Books st -> run schedule st = Some st' ->
  Books st' /\ Steady.results st' = Steady.results st ++ settlements schedule.
Proof.
  revert st. induction schedule as [|ev schedule IH]; intros st H Hrun; simpl in Hrun.
  - inversion Hrun; subst. split; [assumption|now rewrite app_nil_r].
  - destruct (step st ev) as [st1|] eqn:E; [|discriminate].
    destruct (@Books_step st ev st1 H E) as [H1 E1]. destruct (IH st1 H1 Hrun) as [H2 E2].
    split; [assumption|].
    rewrite E2, E1, <- app_assoc, <- settlements_app. reflexivity.
Qed.

End Accounting.

(** *** The stop flag, the reason and the phases *)

Ltac limit_side :=
  try solve [intros; first [assumption | discriminate | congruence | tauto]].

Section Limits.
Variable preparedPayloads : list PreparedPayload.t.
Variable options : SteadyModeOptions.t.
Variable testStartTime : Z.

Local Abbreviation step := (Steady.step preparedPayloads options testStartTime).
Local Abbreviation run := (Steady.run preparedPayloads options testStartTime).
Local Abbreviation onFulfilled := (Steady.onFulfilled options testStartTime).
Local Abbreviation loopTurn := (Steady.loopTurn preparedPayloads options testStartTime).
Local Abbreviation Limit := (limit_respected options).

Lemma limit_is_condition (m : Q) :
  Steady.maxConsecutiveFailures options = Some m ->
  Steady.hasStopConditions options = true.
Proof.
  unfold Steady.hasStopConditions. intros ->.
  now destruct (Steady.maxDuration options).
Qed.

Lemma deadline_is_condition (m : Q) :
  Steady.maxDuration options = Some m -> Steady.hasStopConditions options = true.
Proof. unfold Steady.hasStopConditions. now intros ->. Qed.

Lemma count_is_no_condition (t : Q) :
  Steady.totalRequests options = Some t -> Steady.hasStopConditions options = false.
Proof.
  unfold Steady.totalRequests.
  destruct (Steady.hasStopConditions options); [discriminate|reflexivity].
Qed.

Lemma Limit_initial : Limit Steady.initial.
Proof.
  unfold limit_respected. cbn.
  repeat split; try discriminate; intros; discriminate.
Qed.

Lemma Limit_afterLoop (st : Steady.State) :
  Limit st -> Steady.inLoop st = true ->
  (Steady.stopReason st = completed -> Steady.hasStopConditions options = false) ->
  Limit (Steady.afterLoop st).
Proof.
  intros (L1 & L2 & L3 & L4 & L5) Hin Hc. unfold Steady.afterLoop, Steady.finish.
  destruct (Steady.pendingRequests st) as [|p ps] eqn:Ep.
  - unfold limit_respected. steady_fields. rewrite Ep.
    repeat split; limit_side; now apply L1.
  - destruct (StopReason_eqb (Steady.stopReason st) completed) eqn:Er; cbn [negb].
    + assert (Hr : Steady.stopReason st = completed)
        by (destruct (Steady.stopReason st); try discriminate; reflexivity).
      unfold limit_respected. steady_fields. rewrite Ep.
      repeat split; limit_side; try (now apply L1); intros rem _; now apply Hc.
    + assert (Hr : Steady.stopReason st <> completed)
        by (intros E; rewrite E in Er; discriminate).
      unfold limit_respected. steady_fields. rewrite Ep.
      repeat split; limit_side; try (now apply L1);
        intros r _ Hno; apply L3 in Hno; contradiction.
Qed.

Lemma Limit_loopTurn (nowTop nowAfter : Z) (st : Steady.State) :
  Limit st -> Steady.inLoop st = true -> Limit (loopTurn nowTop nowAfter st).
Proof.
  intros HL Hin. pose proof HL as (L1 & L2 & L3 & L4 & L5). unfold Steady.loopTurn.
  destruct (Steady.shouldStop st) eqn:Es.
  { apply Limit_afterLoop; [assumption..|].
    intros E. destruct (L1 eq_refl) as [E' _]. congruence. }
  assert (Hgo : forall p i w d,
             Limit (Steady.mk p (Steady.completedCount st) (Steady.consecutiveFailures st)
                      (Steady.results st) (Steady.timeline st) i w
                      (Steady.stopReason st) false
                      (if Qle_bool (Js.Math_max 0 d) 0 then Steady.Looping
                       else Steady.Sleeping)
                      (Steady.fulfilled st) (Steady.dispatched st ++ [(Steady.nextRequestIndex st, nth_error preparedPayloads (Steady.payloadIndex st mod length preparedPayloads))]))).
  { intros p i w d. unfold limit_respected. steady_fields.
    repeat split; limit_side; try (now apply L1);
      intros; destruct (Qle_bool (Js.Math_max _ _) _); discriminate. }
  destruct (Steady.maxDuration options) as [m|] eqn:Em.
  - destruct (Qle_bool m _).
    { apply Limit_afterLoop; [|exact Hin|discriminate].
      unfold limit_respected. steady_fields.
      repeat split; limit_side;
        try (match goal with H : Steady.phase st = _ |- _ =>
               unfold Steady.inLoop in Hin; rewrite H in Hin; discriminate end);
        first [ intros Hno; rewrite (deadline_is_condition Em) in Hno; discriminate
              | intros r Hph; unfold Steady.inLoop in Hin; rewrite Hph in Hin;
                discriminate ]. }
    destruct (Steady.totalRequests options) as [t|] eqn:Et; [|apply Hgo].
    apply count_is_no_condition in Et. rewrite (deadline_is_condition Em) in Et.
    discriminate.
  - destruct (Steady.totalRequests options) as [t|] eqn:Et; [|apply Hgo].
    destruct (Qle_bool t _); [|apply Hgo].
    apply Limit_afterLoop; [assumption..|]. intros _.
    now apply count_is_no_condition in Et.
Qed.

(** What the [then] callback does to the flag and the reason. *)
Lemma onFulfilled_limit (i : nat) (raw : RequestResult.t) (st : Steady.State) :
  Limit st ->
  let st' := onFulfilled i raw st in
  (Steady.shouldStop st' = true ->
   Steady.stopReason st' = consecutive_failures /\
   exists m, Steady.maxConsecutiveFailures options = Some m /\
             Qle_bool m (inject_Z (Z.of_nat (Steady.consecutiveFailures st'))) = true) /\
  (Steady.maxConsecutiveFailures options = None ->
   Steady.stopReason st' <> consecutive_failures) /\
  (Steady.hasStopConditions options = false -> Steady.stopReason st' = completed).
Proof.
  intros (L1 & L2 & L3 & L4 & L5). unfold Steady.onFulfilled, Steady.processResult.
  destruct (Steady.maxConsecutiveFailures options) as [m|] eqn:Em.
  - destruct (Qle_bool m _) eqn:El; steady_fields.
    + split; [intros _; split; [reflexivity|]; exists m; split; [reflexivity|exact El]|].
      split; [discriminate|]. intros Hno.
      rewrite (limit_is_condition Em) in Hno. discriminate.
    + split; [discriminate|]. split; [discriminate|]. assumption.
  - steady_fields. split; [discriminate|]. split; assumption.
Qed.

Lemma Limit_step (st : Steady.State) (ev : Steady.Event) (st' : Steady.State) :
  accounted testStartTime st -> Limit st -> step st ev = Some st' -> Limit st'.
Proof.
  intros HB HL. pose proof HL as (L1 & L2 & L3 & L4 & L5). unfold Steady.step.
  destruct ev as [nowTop nowAfter|i raw]; destruct (Steady.phase st) eqn:Eph;
    try discriminate.
  1,2: intros E; inversion E; subst; apply Limit_loopTurn;
       [assumption|unfold Steady.inLoop; now rewrite Eph].
  all: destruct (Steady.member i (Steady.pendingRequests st)) eqn:Em; [|discriminate];
       apply member_In in Em;
       pose proof (onFulfilled_limit i raw HL) as (O1 & O2 & O3);
       destruct (onFulfilled_fields options testStartTime i raw st)
         as (_ & _ & Epd & _ & _ & _ & _ & Eph').
  - intros E; inversion E; subst. unfold limit_respected.
    rewrite Eph', Eph. repeat split; limit_side; now apply O1.
  - destruct (L4 _ eq_refl) as [Hno _].
    destruct (Steady.pendingRequests (onFulfilled i raw st)) as [|p ps] eqn:Ep;
      intros E; inversion E; subst.
    + rewrite (recordRemaining_nothing options testStartTime remaining _
                 (proj1 (Books_onFulfilled options i raw Em HB))).
      unfold limit_respected, Steady.finish. steady_fields. rewrite Ep.
      repeat split; limit_side; now apply O1.
    + unfold limit_respected. rewrite Eph', Eph, Ep.
      repeat split; limit_side; now apply O1.
  - intros E; inversion E; subst. unfold limit_respected.
    rewrite Eph', Eph. repeat split; limit_side; try (now apply O1).
    intros r' _ Hno. rewrite (L5 _ eq_refl Hno) in Em. contradiction.
Qed.

Lemma Books_Limit_run (schedule : list Steady.Event) (st : Steady.State) :
  run schedule Steady.initial = Some st ->
  accounted testStartTime st /\ Limit st /\ Steady.results st = settlements schedule.
Proof.
  intros Hrun.
  destruct (Books_run preparedPayloads options schedule (Books_initial testStartTime) Hrun)
    as [HB Er].
  split; [assumption|]. split; [|exact Er].
  apply (run_invariant preparedPayloads options testStartTime
           (fun s => accounted testStartTime s /\ Limit s))
    with (schedule := schedule) (st := Steady.initial).
  - intros s ev s' [B L] Hs. split.
    + eapply Books_step; eassumption.
    + eapply Limit_step; eassumption.
  - split; [apply Books_initial|apply Limit_initial].
  - exact Hrun.
Qed.

End Limits.

(** *** The step at which the function returns *)

Section Returning.
Variable preparedPayloads : list PreparedPayload.t.
Variable options : SteadyModeOptions.t.
Variable testStartTime : Z.

Local Abbreviation step := (Steady.step preparedPayloads options testStartTime).
Local Abbreviation run := (Steady.run preparedPayloads options testStartTime).
Local Abbreviation onFulfilled := (Steady.onFulfilled options testStartTime).
Local Abbreviation loopTurn := (Steady.loopTurn preparedPayloads options testStartTime).

Lemma afterLoop_returns (st : Steady.State) :
  Steady.returned (Steady.afterLoop st) = true -> returns_its_own (Steady.afterLoop st).
Proof.
  unfold Steady.afterLoop, Steady.finish, returns_its_own, Steady.returned.
  destruct (Steady.pendingRequests st); [reflexivity|].
  destruct (negb _); [reflexivity|discriminate].
Qed.

Lemma loopTurn_returns (nowTop nowAfter : Z) (st : Steady.State) :
  limit_respected options st ->
  Steady.returned (loopTurn nowTop nowAfter st) = true ->
  returns_its_own (loopTurn nowTop nowAfter st) /\
  (Steady.stopReason (loopTurn nowTop nowAfter st) = consecutive_failures ->
   Steady.shouldStop (loopTurn nowTop nowAfter st) = true).
Proof.
  intros (L1 & L2 & L3 & L4 & L5). unfold Steady.loopTurn.
  destruct (Steady.shouldStop st) eqn:Es.
  { intros H. split; [now apply afterLoop_returns|]. intros _.
    destruct (afterLoop_fields st) as (_ & _ & -> & _). exact Es. }
  destruct (match Steady.maxDuration options with Some _ => _ | None => _ end).
  { intros H. split; [now apply afterLoop_returns|].
    destruct (afterLoop_fields (Steady.set_stopReason duration_reached st))
      as (_ & -> & _). discriminate. }
  destruct (Steady.totalRequests options) as [t|] eqn:Et.
  - destruct (Qle_bool t _).
    + intros H. split; [now apply afterLoop_returns|].
      destruct (afterLoop_fields st) as (_ & -> & _).
      rewrite (L3 (@count_is_no_condition options t Et)). discriminate.
    + unfold Steady.returned. steady_fields.
      destruct (Qle_bool (Js.Math_max _ _) _); discriminate.
  - unfold Steady.returned. steady_fields.
    destruct (Qle_bool (Js.Math_max _ _) _); discriminate.
Qed.

Lemma step_returns (st : Steady.State) (ev : Steady.Event) (st' : Steady.State) :
  accounted testStartTime st -> limit_respected options st ->
  Steady.returned st = false -> step st ev = Some st' -> Steady.returned st' = true ->
  returns_its_own st' /\
  (Steady.stopReason st' = consecutive_failures -> Steady.shouldStop st' = true).
Proof.
  intros HB HL Hnot. pose proof HL as (L1 & L2 & L3 & L4 & L5). unfold Steady.step.
  destruct ev as [nowTop nowAfter|i raw]; destruct (Steady.phase st) eqn:Eph;
    try discriminate.
  1,2: intros E; inversion E; subst; now apply loopTurn_returns.
  all: destruct (Steady.member i (Steady.pendingRequests st)) eqn:Em; [|discriminate];
       apply member_In in Em;
       pose proof (@onFulfilled_limit options testStartTime i raw st HL) as (O1 & O2 & O3);
       destruct (onFulfilled_fields options testStartTime i raw st)
         as (_ & _ & Epd & _ & _ & _ & _ & Eph').
  - intros E; inversion E; subst. unfold Steady.returned. rewrite Eph', Eph. discriminate.
  - destruct (L4 _ eq_refl) as [Hno _].
    destruct (Steady.pendingRequests (onFulfilled i raw st)) as [|p ps] eqn:Ep;
      intros E; inversion E; subst.
    + rewrite (recordRemaining_nothing options testStartTime remaining _
                 (proj1 (Books_onFulfilled options i raw Em HB))).
      intros _. split; [reflexivity|]. unfold Steady.finish. steady_fields.
      rewrite (O3 Hno). discriminate.
    + unfold Steady.returned. rewrite Eph', Eph. discriminate.
  - unfold Steady.returned in Hnot. rewrite Eph in Hnot. discriminate.
Qed.

End Returning.

Lemma dispatched_count
  (preparedPayloads : list PreparedPayload.t) (options : SteadyModeOptions.t)
  (testStartTime : Z) (schedule : list Steady.Event) (st : Steady.State) :
  Steady.run preparedPayloads options testStartTime schedule Steady.initial = Some st ->
  map fst (Steady.dispatched st) = seq 0 (Steady.nextRequestIndex st) /\
  length (Steady.dispatched st) = Steady.nextRequestIndex st.
Proof.
  intros Hrun.
  destruct (Inv_run preparedPayloads options testStartTime schedule Hrun)
    as (_ & Hd & _).
  rewrite Hd. rewrite map_map. cbn [round_robin fst].
  rewrite map_id, length_map, length_seq. split; reflexivity.
Qed.

(** X1.  Under every schedule [results] holds exactly the results the
    completion callbacks were given, in the order they arrived, each once and
    with the index of its request, those that arrive after the function has
    returned included; [completedCount] is their number; and the loop over
    [remaining] that follows [Promise.all] finds every one of them recorded
    and adds nothing. *)
Theorem steady_results_are_the_settlements :
  forall (preparedPayloads : list PreparedPayload.t) (options : SteadyModeOptions.t)
         (testStartTime : Z) (schedule : list Steady.Event) (st : Steady.State),
    Steady.runSteadyMode preparedPayloads options testStartTime schedule = Some st ->
    Steady.results st = settlements schedule /\
    Steady.completedCount st = count_settles schedule /\
    forall remaining : list nat,
      Steady.recordRemaining options testStartTime remaining st = st.
Proof.
  intros payloads options t0 schedule st Hrun.
  destruct (Books_Limit_run payloads options t0 schedule Hrun) as (HB & _ & Er).
  split; [exact Er|]. split.
  - destruct HB as (_ & _ & _ & -> & _). now rewrite Er, settlements_length.
  - intros remaining. apply recordRemaining_nothing, HB.
Qed.

(** The hypothesis of X1 holds on a run of five requests whose results
    arrive out of order, two of them while [Promise.all] is awaited. *)
Lemma steady_results_are_the_settlements_witness :
  exists st : Steady.State,
    Steady.runSteadyMode [] five_for_a_second 0 mixed_arrivals = Some st /\
    Steady.returned st = true /\
    map RequestResult.index (Steady.results st) = [0; 2; 1; 4; 3]%nat /\
    Steady.results st = settlements mixed_arrivals.
Proof.
  eexists. split; [vm_compute; reflexivity|]. split; [reflexivity|].
  split; [reflexivity|].
  apply (steady_results_are_the_settlements [] five_for_a_second 0 mixed_arrivals).
  vm_compute. reflexivity.
Defined.

(** X2.  Under every schedule the timeline shows the results one for one and
    in the same order: entry [k] carries the index, the outcome, the error,
    the duration and the signing time of result [k], its timestamp is the
    time the request ended at and its [elapsedSec] that time counted from the
    start of the test, in seconds.  Its [inFlight] figure counts requests
    that were dispatched and not completed: together with the [k + 1]
    requests completed so far it does not exceed the number dispatched. *)
Theorem steady_timeline_shows_the_results :
  forall (preparedPayloads : list PreparedPayload.t) (options : SteadyModeOptions.t)
         (testStartTime : Z) (schedule : list Steady.Event) (st : Steady.State),
    Steady.runSteadyMode preparedPayloads options testStartTime schedule = Some st ->
    Forall2 (mirrors testStartTime) (Steady.results st) (Steady.timeline st) /\
    forall (k : nat) (entry : TimelineRequest.t),
      nth_error (Steady.timeline st) k = Some entry ->
      (TimelineRequest.inFlight entry + S k <= length (Steady.dispatched st))%nat.
Proof.
  intros payloads options t0 schedule st Hrun.
  destruct (Books_Limit_run payloads options t0 schedule Hrun) as (HB & _ & _).
  destruct (dispatched_count payloads options t0 schedule Hrun) as [_ ->].
  destruct HB as (_ & _ & _ & _ & _ & Htl & Hfl). split; assumption.
Qed.

Lemma steady_timeline_shows_the_results_witness :
  exists st : Steady.State,
    Steady.runSteadyMode [] five_for_a_second 0 mixed_arrivals = Some st /\
    map TimelineRequest.inFlight (Steady.timeline st) = [0; 1; 0; 1; 0]%nat /\
    Forall2 (mirrors 0) (Steady.results st) (Steady.timeline st).
Proof.
  eexists. split; [vm_compute; reflexivity|]. split; [reflexivity|].
  apply (steady_timeline_shows_the_results [] five_for_a_second 0 mixed_arrivals).
  vm_compute. reflexivity.
Defined.

(** X3.  Under every schedule no request is lost and none is counted twice:
    the requests dispatched so far are exactly those still in
    [pendingRequests] together with those in [results], and no index is in
    both or twice in either. *)
Theorem steady_requests_in_flight_or_recorded :
  forall (preparedPayloads : list PreparedPayload.t) (options : SteadyModeOptions.t)
         (testStartTime : Z) (schedule : list Steady.Event) (st : Steady.State),
    Steady.runSteadyMode preparedPayloads options testStartTime schedule = Some st ->
    Permutation
      (Steady.pendingRequests st ++ map RequestResult.index (Steady.results st))
      (map fst (Steady.dispatched st)) /\
    NoDup (Steady.pendingRequests st ++ map RequestResult.index (Steady.results st)) /\
    (length (Steady.pendingRequests st) + length (Steady.results st)
     = length (Steady.dispatched st))%nat.
Proof.
  intros payloads options t0 schedule st Hrun.
  destruct (Books_Limit_run payloads options t0 schedule Hrun) as (HB & _ & _).
  destruct (dispatched_count payloads options t0 schedule Hrun) as [-> ->].
  destruct HB as (_ & _ & Hperm & _). split; [assumption|]. split.
  - eapply Permutation_NoDup; [symmetry; exact Hperm|apply seq_NoDup].
  - apply Permutation_length in Hperm.
    now rewrite length_app, length_map, length_seq in Hperm.
Qed.

Lemma steady_requests_in_flight_or_recorded_witness :
  exists st : Steady.State,
    Steady.runSteadyMode [] stop_after_one_failure 0 late_arrival = Some st /\
    Permutation
      (Steady.pendingRequests st ++ map RequestResult.index (Steady.results st))
      (map fst (Steady.dispatched st)).
Proof.
  eexists. split; [vm_compute; reflexivity|].
  apply (steady_requests_in_flight_or_recorded [] stop_after_one_failure 0 late_arrival).
  vm_compute. reflexivity.
Defined.

(** *** What the function returns *)

Section PlainReturn.
Variable preparedPayloads : list PreparedPayload.t.
Variable options : SteadyModeOptions.t.
Variable testStartTime : Z.

Local Abbreviation step := (Steady.step preparedPayloads options testStartTime).
Local Abbreviation run := (Steady.run preparedPayloads options testStartTime).

Lemma plain_return_step (st : Steady.State) (ev : Steady.Event) (st' : Steady.State) :
  accounted testStartTime st -> limit_respected options st -> plain_return options st ->
  step st ev = Some st' -> plain_return options st'.
Proof.
  intros HB HL HP Hstep Hno r Hph.
  destruct (Steady.returned st) eqn:Hret.
  - unfold Steady.returned in Hret. unfold Steady.step in Hstep.
    destruct (Steady.phase st) as [| |rem|r0] eqn:Eph; try discriminate.
    destruct ev as [a b|i raw]; [discriminate|].
    destruct (Steady.member i (Steady.pendingRequests st)); [|discriminate].
    inversion Hstep; subst st'.
    destruct (onFulfilled_fields options testStartTime i raw st)
      as (_ & _ & _ & _ & _ & _ & _ & Eph').
    rewrite Eph', Eph in Hph. inversion Hph; subst r0. now apply (HP Hno).
  - assert (Hret' : Steady.returned st' = true)
      by (unfold Steady.returned; now rewrite Hph).
    destruct (@step_returns preparedPayloads options testStartTime st ev st'
                HB HL Hret Hstep Hret') as [Hown _].
    pose proof (@Limit_step preparedPayloads options testStartTime st ev st'
                  HB HL Hstep) as (_ & _ & L3 & _).
    unfold returns_its_own in Hown. rewrite Hown in Hph. inversion Hph.
    rewrite (L3 Hno). reflexivity.
Qed.

Lemma plain_return_run (schedule : list Steady.Event) (st : Steady.State) :
  run schedule Steady.initial = Some st -> plain_return options st.
Proof.
  intros Hrun.
  apply (run_invariant preparedPayloads options testStartTime
           (fun s => accounted testStartTime s /\ limit_respected options s
                     /\ plain_return options s))
    with (schedule := schedule) (st := Steady.initial).
  - intros s ev s' (B & L & P) Hs. split; [|split].
    + eapply Books_step; eassumption.
    + eapply Limit_step; eassumption.
    + eapply plain_return_step; eassumption.
  - split; [apply Books_initial|]. split; [apply Limit_initial|].
    intros _ r E. discriminate.
  - exact Hrun.
Qed.

End PlainReturn.

(** X4.  The counter [consecutiveFailures] is, at every moment, the number of
    failures [results] ends with.  The object the function returns has
    [consecutiveFailuresAtStop] exactly when its [stopReason] is
    ["consecutive-failures"]; the figure is then the number of failures at
    the end of the results returned, and it is at least the configured
    [maxConsecutiveFailures]. *)
Theorem steady_failure_counter :
  forall (preparedPayloads : list PreparedPayload.t) (options : SteadyModeOptions.t)
         (testStartTime : Z) (schedule : list Steady.Event) (st : Steady.State),
    Steady.runSteadyMode preparedPayloads options testStartTime schedule = Some st ->
    Steady.consecutiveFailures st = trailing_failures (Steady.results st) /\
    forall (ev : Steady.Event) (st' : Steady.State) (s : SteadyModeResult.t),
      Steady.returned st = false ->
      Steady.step preparedPayloads options testStartTime st ev = Some st' ->
      Steady.result st' = Some s ->
      (SteadyModeResult.stopReason s = consecutive_failures <->
       SteadyModeResult.consecutiveFailuresAtStop s <> None) /\
      forall n : nat,
        SteadyModeResult.consecutiveFailuresAtStop s = Some n ->
        n = trailing_failures (SteadyModeResult.results s) /\
        exists m : Q,
          SteadyModeOptions.maxConsecutiveFailures options = Some m /\
          m <= inject_Z (Z.of_nat n).
Proof.
  intros payloads options t0 schedule st Hrun.
  destruct (Books_Limit_run payloads options t0 schedule Hrun) as (HB & HL & _).
  split; [apply HB|]. intros ev st' s Hnot Hstep Hres.
  assert (Hret : Steady.returned st' = true).
  { unfold Steady.result in Hres. unfold Steady.returned.
    destruct (Steady.phase st'); try discriminate. reflexivity. }
  destruct (@step_returns payloads options t0 st ev st' HB HL Hnot Hstep Hret)
    as [Hown Hflag].
  destruct (@Books_step payloads options t0 st ev st' HB Hstep) as [HB' _].
  pose proof (@Limit_step payloads options t0 st ev st' HB HL Hstep) as (L1 & _).
  unfold Steady.result in Hres. rewrite Hown in Hres. inversion Hres; subst s; clear Hres.
  cbn [SteadyModeResult.stopReason SteadyModeResult.consecutiveFailuresAtStop
       SteadyModeResult.results].
  split.
  - destruct (Steady.stopReason st'); cbn; split; intros H; congruence.
  - intros n Hn.
    destruct (StopReason_eqb (Steady.stopReason st') consecutive_failures) eqn:Eb;
      [|discriminate].
    inversion Hn; subst n. split; [apply HB'|].
    assert (Hr : Steady.stopReason st' = consecutive_failures)
      by (destruct (Steady.stopReason st'); try discriminate; reflexivity).
    destruct (L1 (Hflag Hr)) as (_ & m & Hm & Hle).
    exists m. split; [exact Hm|]. now apply Qle_bool_iff.
Qed.

(** The hypotheses of X4 hold on the run that four failures arriving together
    bring to a stop at the next turn of the loop. *)
Lemma steady_failure_counter_witness :
  exists (st st' : Steady.State) (s : SteadyModeResult.t),
    Steady.runSteadyMode [] stop_after_three_failures 0 (removelast failures_in_a_burst)
    = Some st /\
    Steady.step [] stop_after_three_failures 0 st (Steady.LoopTurn 400 400) = Some st' /\
    Steady.result st' = Some s /\
    SteadyModeResult.consecutiveFailuresAtStop s = Some 4%nat /\
    forall n : nat,
      SteadyModeResult.consecutiveFailuresAtStop s = Some n ->
      n = trailing_failures (SteadyModeResult.results s) /\
      exists m : Q,
        SteadyModeOptions.maxConsecutiveFailures stop_after_three_failures = Some m /\
        m <= inject_Z (Z.of_nat n).
Proof.
  eexists. eexists. eexists.
  split; [vm_compute; reflexivity|]. split; [vm_compute; reflexivity|].
  split; [vm_compute; reflexivity|]. split; [reflexivity|].
  refine (proj2 (proj2 (steady_failure_counter [] stop_after_three_failures 0
                          (removelast failures_in_a_burst) _)
                   (Steady.LoopTurn 400 400) _ _ _ _ _)).
  - vm_compute. reflexivity.
  - reflexivity.
  - vm_compute. reflexivity.
  - vm_compute. reflexivity.
Defined.

(** X5.  Without a stop condition the function returns only when the loop has
    been left and every request it dispatched has completed: it has returned
    exactly when the loop took one turn more than the planned number of
    requests and as many results as planned have arrived.  It then returns
    [stopReason = "completed"], no [consecutiveFailuresAtStop], and in
    [results] every index from 0 to the planned number once, with a timeline
    of the same length. *)
Theorem steady_fixed_count_waits_for_all :
  forall (preparedPayloads : list PreparedPayload.t) (options : SteadyModeOptions.t)
         (testStartTime : Z) (schedule : list Steady.Event) (st : Steady.State),
    SteadyModeOptions.maxDuration options = None ->
    SteadyModeOptions.maxConsecutiveFailures options = None ->
    Steady.runSteadyMode preparedPayloads options testStartTime schedule = Some st ->
    (Steady.returned st = true <->
     (planned_requests options < count_turns schedule)%nat /\
     count_settles schedule = planned_requests options) /\
    (Steady.returned st = true ->
     exists s : SteadyModeResult.t,
       Steady.result st = Some s /\
       SteadyModeResult.stopReason s = completed /\
       SteadyModeResult.consecutiveFailuresAtStop s = None /\
       Permutation (map RequestResult.index (SteadyModeResult.results s))
         (seq 0 (planned_requests options)) /\
       length (SteadyModeResult.timeline s) = planned_requests options).
Proof.
  intros payloads options t0 schedule st Hmd Hmf Hrun.
  assert (Hc : Steady.hasStopConditions options = false).
  { unfold Steady.hasStopConditions, Steady.maxDuration, Steady.maxConsecutiveFailures.
    now rewrite Hmd, Hmf. }
  destruct (Books_Limit_run payloads options t0 schedule Hrun) as (HB & HL & Er).
  pose proof (plain_return_run payloads options t0 schedule Hrun) as HP.
  pose proof (@sized_by_count_run payloads options t0 schedule _ _ 0%nat Hc
                (sized_by_count_initial options) Hrun) as (_ & _ & _ & Q4 & Q5).
  rewrite Nat.add_0_r in Q4, Q5.
  destruct HB as (_ & _ & Hperm & _ & _ & Htl & _).
  destruct HL as (_ & _ & _ & L4 & L5).
  assert (Hlen : (length (Steady.pendingRequests st) + count_settles schedule
                  = Steady.nextRequestIndex st)%nat).
  { pose proof (Permutation_length Hperm) as H.
    rewrite length_app, length_map, length_seq, Er, settlements_length in H. exact H. }
  assert (Hout : Steady.returned st = true ->
                 Steady.nextRequestIndex st = planned_requests options /\
                 count_turns schedule = S (planned_requests options) /\
                 Steady.pendingRequests st = []).
  { unfold Steady.returned, Steady.inLoop in *. intros H.
    destruct (Steady.phase st) as [| |rem|r] eqn:Eph; try discriminate.
    destruct (Q5 eq_refl) as [-> ->]. repeat split. now apply (L5 r). }
  split; [split|].
  - intros H. destruct (Hout H) as (Hn & Ht & Hp). rewrite Hp in Hlen. cbn in Hlen. lia.
  - intros [Hlt Hs]. unfold Steady.returned, Steady.inLoop in *.
    destruct (Steady.phase st) as [| |rem|r] eqn:Eph; try reflexivity.
    + destruct (Q4 eq_refl). lia.
    + destruct (Q4 eq_refl). lia.
    + destruct (Q5 eq_refl) as [Hn _]. destruct (L4 rem eq_refl) as [_ Hne].
      destruct (Steady.pendingRequests st); [contradiction|]. cbn in Hlen. lia.
  - intros H. destruct (Hout H) as (Hn & Ht & Hp).
    unfold Steady.returned in H. unfold Steady.result.
    destruct (Steady.phase st) as [| |rem|r] eqn:Eph; try discriminate.
    rewrite (HP Hc r Eph). eexists. split; [reflexivity|].
    cbn [SteadyModeResult.stopReason SteadyModeResult.consecutiveFailuresAtStop
         SteadyModeResult.results SteadyModeResult.timeline].
    split; [reflexivity|]. split; [reflexivity|].
    rewrite Hp, Hn in Hperm. cbn [app] in Hperm. split; [exact Hperm|].
    rewrite <- (Forall2_length Htl), <- (length_map RequestResult.index).
    rewrite (Permutation_length Hperm). apply length_seq.
Qed.

(** The hypotheses of X5 hold on a run of five requests whose last two
    results arrive while [Promise.all] is awaited. *)
Lemma steady_fixed_count_waits_for_all_witness :
  exists st : Steady.State,
    Steady.runSteadyMode [] five_for_a_second 0 mixed_arrivals = Some st /\
    planned_requests five_for_a_second = 5%nat /\
    (Steady.returned st = true <->
     (planned_requests five_for_a_second < count_turns mixed_arrivals)%nat /\
     count_settles mixed_arrivals = planned_requests five_for_a_second).
Proof.
  eexists. split; [vm_compute; reflexivity|]. split; [reflexivity|].
  apply (steady_fixed_count_waits_for_all [] five_for_a_second 0 mixed_arrivals).
  - reflexivity.
  - reflexivity.
  - vm_compute. reflexivity.
Defined.

(** X6.  With a stop condition configured the function never waits for the
    requests in flight, and it returns only at a turn of the loop: the
    completion of a request never makes it return, and a turn of the loop
    makes it return exactly when the stop flag is up or the time read at the
    top of the loop has reached [maxDuration].  It then leaves [results] as
    they are and the requests in flight where they are, with reason
    ["consecutive-failures"] when the flag was up and ["duration"] otherwise;
    any other turn dispatches the next request. *)
Theorem steady_stop_conditions_abandon :
  forall (preparedPayloads : list PreparedPayload.t) (options : SteadyModeOptions.t)
         (testStartTime : Z) (schedule : list Steady.Event) (st : Steady.State),
    SteadyModeOptions.maxDuration options <> None \/
    SteadyModeOptions.maxConsecutiveFailures options <> None ->
    Steady.runSteadyMode preparedPayloads options testStartTime schedule = Some st ->
    (forall remaining : list nat, Steady.phase st <> Steady.Draining remaining) /\
    (forall (i : nat) (raw : RequestResult.t) (st' : Steady.State),
       Steady.step preparedPayloads options testStartTime st (Steady.Settle i raw)
       = Some st' ->
       Steady.returned st' = Steady.returned st) /\
    (Steady.inLoop st = true ->
     forall nowTop nowAfter : Z,
     exists st' : Steady.State,
       Steady.step preparedPayloads options testStartTime st
         (Steady.LoopTurn nowTop nowAfter) = Some st' /\
       (Steady.returned st' = true <->
        Steady.shouldStop st = true \/
        exists m : Q,
          SteadyModeOptions.maxDuration options = Some m /\
          m <= inject_Z (nowTop - testStartTime) / 1000) /\
       (Steady.returned st' = true ->
        Steady.results st' = Steady.results st /\
        Steady.pendingRequests st' = Steady.pendingRequests st /\
        Steady.result st'
        = Some (SteadyModeResult.mk (Steady.results st) (Steady.timeline st)
                  (if Steady.shouldStop st then consecutive_failures
                   else duration_reached)
                  (if Steady.shouldStop st then Some (Steady.consecutiveFailures st)
                   else None))) /\
       (Steady.returned st' = false ->
        Steady.inLoop st' = true /\
        Steady.pendingRequests st'
        = Steady.pendingRequests st ++ [Steady.nextRequestIndex st])).
Proof.
  intros payloads options t0 schedule st Hsup Hrun.
  assert (Hc : Steady.hasStopConditions options = true).
  { unfold Steady.hasStopConditions, Steady.maxDuration, Steady.maxConsecutiveFailures.
    destruct (SteadyModeOptions.maxDuration options),
             (SteadyModeOptions.maxConsecutiveFailures options);
      try reflexivity. destruct Hsup; congruence. }
  destruct (Books_Limit_run payloads options t0 schedule Hrun) as (HB & HL & _).
  destruct HL as (L1 & L2 & L3 & L4 & L5).
  assert (Hnd : forall remaining, Steady.phase st <> Steady.Draining remaining).
  { intros rem E. destruct (L4 rem E) as [Hno _]. congruence. }
  split; [exact Hnd|]. split.
  { intros i raw st' Hstep. unfold Steady.step in Hstep.
    destruct (onFulfilled_fields options t0 i raw st)
      as (_ & _ & _ & _ & _ & _ & _ & Eph').
    destruct (Steady.phase st) as [| |rem|r] eqn:Eph; try discriminate.
    - destruct (Steady.member i (Steady.pendingRequests st)); [|discriminate].
      inversion Hstep; subst. unfold Steady.returned. now rewrite Eph', Eph.
    - exfalso. now apply (Hnd rem).
    - destruct (Steady.member i (Steady.pendingRequests st)); [|discriminate].
      inversion Hstep; subst. unfold Steady.returned. now rewrite Eph', Eph. }
  intros Hin nowTop nowAfter.
  exists (Steady.loopTurn payloads options t0 nowTop nowAfter st).
  split.
  { unfold Steady.step, Steady.inLoop in *.
    destruct (Steady.phase st); try discriminate; reflexivity. }
  assert (Hfin : forall s, Steady.stopReason s <> completed ->
                           Steady.afterLoop s = Steady.finish s).
  { intros s Hs. unfold Steady.afterLoop.
    destruct (Steady.pendingRequests s); [reflexivity|].
    destruct (Steady.stopReason s); try reflexivity. contradiction. }
  unfold Steady.loopTurn. rewrite (@totalRequests_unbounded options Hc).
  destruct (Steady.shouldStop st) eqn:Es.
  { destruct (L1 eq_refl) as [Hr _].
    rewrite Hfin by (rewrite Hr; discriminate).
    unfold Steady.finish, Steady.returned, Steady.result, Steady.inLoop. steady_fields.
    rewrite Hr. cbn [StopReason_eqb].
    split; [split; [intros _; now left|reflexivity]|].
    split; [intros _; repeat split|discriminate]. }
  unfold Steady.maxDuration.
  destruct (SteadyModeOptions.maxDuration options) as [m|] eqn:Em.
  - destruct (Qle_bool m (inject_Z (nowTop - t0) / 1000)) eqn:El.
    + rewrite Hfin by (cbn; discriminate).
      unfold Steady.finish, Steady.returned, Steady.result, Steady.inLoop. steady_fields.
      cbn [StopReason_eqb].
      split; [split; [intros _; right; exists m; split;
                      [reflexivity|now apply Qle_bool_iff]|reflexivity]|].
      split; [intros _; repeat split|discriminate].
    + unfold Steady.returned, Steady.inLoop. steady_fields.
      split.
      { split; [destruct (Qle_bool (Js.Math_max _ _) _); discriminate|].
        intros [H|(m' & Hm' & Hle)]; [discriminate|].
        inversion Hm'; subst m'. apply Qle_bool_iff in Hle. congruence. }
      split; [destruct (Qle_bool (Js.Math_max _ _) _); discriminate|].
      intros _. split; [now destruct (Qle_bool (Js.Math_max _ _) _)|reflexivity].
  - unfold Steady.returned, Steady.inLoop. steady_fields.
    split.
    { split; [destruct (Qle_bool (Js.Math_max _ _) _); discriminate|].
      intros [H|(m' & Hm' & _)]; discriminate. }
    split; [destruct (Qle_bool (Js.Math_max _ _) _); discriminate|].
    intros _. split; [now destruct (Qle_bool (Js.Math_max _ _) _)|reflexivity].
Qed.

(** The hypotheses of X6 hold on a run limited to two seconds, with one
    request in flight when the loop wakes after the deadline. *)
Lemma steady_stop_conditions_abandon_witness :
  exists st : Steady.State,
    Steady.runSteadyMode [] two_seconds_or_two_failures 0 until_the_deadline = Some st /\
    Steady.pendingRequests st = [2%nat] /\
    (forall remaining : list nat, Steady.phase st <> Steady.Draining remaining).
Proof.
  eexists. split; [vm_compute; reflexivity|]. split; [reflexivity|].
  apply (steady_stop_conditions_abandon [] two_seconds_or_two_failures 0
           until_the_deadline).
  - left. discriminate.
  - vm_compute. reflexivity.
Defined.

(** ** Burst mode: what a run returns *)

Section BurstSources.
Variable preparedPayloads : list PreparedPayload.t.
Variable burstSize : nat.
Variable totalBatches : nat.

Local Abbreviation consistent := (burst_consistent preparedPayloads burstSize totalBatches).
Local Abbreviation runBatches := (Burst.runBatches preparedPayloads burstSize totalBatches).

(** Going on to the next [await] collects nothing and settles nothing. *)
Lemma runBatches_data (batchesLeft : nat) (st : Burst.State) :
  Burst.results (runBatches batchesLeft st) = Burst.results st /\
  Burst.fulfilled (runBatches batchesLeft st) = Burst.fulfilled st.
Proof.
  revert st. induction batchesLeft as [|left IH]; intros st; cbn [Burst.runBatches];
    [split; reflexivity|].
  match goal with |- context [Burst.dispatchBatch _ ?n ?a ?s0] =>
    pose proof (dispatchBatch_spec preparedPayloads n a s0) as Hd;
    destruct (Burst.dispatchBatch preparedPayloads n a s0) as [bp s1] end.
  destruct Hd as (_ & _ & _ & _ & _ & _ & E7 & _ & _ & E10).
  destruct bp.
  - destruct (IH (Burst.collectBatch [] s1)) as [-> ->].
    unfold Burst.collectBatch. burst_fields. cbn [flat_map].
    rewrite app_nil_r. split; assumption.
  - burst_fields. split; assumption.
Qed.

Lemma sourced_step (completions : list (nat * RequestResult.t)) (st : Burst.State)
  (ev : nat * RequestResult.t) (st' : Burst.State) :
  consistent st -> sourced completions st ->
  Burst.step preparedPayloads burstSize totalBatches st ev = Some st' ->
  sourced (completions ++ [ev]) st'.
Proof.
  intros (_ & _ & _ & _ & [I5a _] & _) [Sf Sr]. unfold Burst.step.
  destruct ev as [idx raw].
  destruct (Burst.phase st) as [bp left|]; [|discriminate].
  destruct (Steady.member idx (Burst.inFlight st)); [|discriminate]. burst_fields.
  assert (Hf : Burst.fulfilled st ++ [(idx, RequestResult.set_index idx raw)]
               = map stamped (completions ++ [(idx, raw)]))
    by (rewrite map_app, Sf; reflexivity).
  assert (Hr : Forall (fun r => In (RequestResult.index r, r)
                                  (Burst.fulfilled st
                                   ++ [(idx, RequestResult.set_index idx raw)]))
                 (Burst.results st)).
  { eapply Forall_impl; [|exact Sr]. intros r Hin. apply in_or_app. now left. }
  destruct (Steady.delete idx (Burst.inFlight st));
    intros E; inversion E; subst st'; clear E.
  - match goal with |- sourced _ (Burst.runBatches _ _ _ ?l ?s) =>
      destruct (runBatches_data l s) as [E1 E2] end.
    unfold sourced. rewrite E1, E2.
    unfold Burst.collectBatch. burst_fields. split; [exact Hf|].
    apply Forall_app. split; [exact Hr|].
    apply Forall_flat_map, Forall_forall. intros i _.
    destruct (Steady.lookup i _) as [r|] eqn:El; [|constructor].
    constructor; [|constructor]. apply lookup_In in El.
    assert (Hi : RequestResult.index r = i).
    { apply in_app_or in El as [El|[El|[]]]; [now apply I5a|].
      inversion El; subst. reflexivity. }
    rewrite Hi. exact El.
  - unfold sourced. burst_fields. split; assumption.
Qed.

Lemma sourced_run (schedule completions : list (nat * RequestResult.t))
  (s st : Burst.State) :
  consistent s -> sourced completions s ->
  Burst.run preparedPayloads burstSize totalBatches schedule s = Some st ->
  sourced (completions ++ schedule) st.
Proof.
  revert completions s. induction schedule as [|ev schedule IH];
    intros completions s Hc Hs Hrun; cbn [Burst.run] in Hrun.
  - inversion Hrun; subst. now rewrite app_nil_r.
  - destruct (Burst.step preparedPayloads burstSize totalBatches s ev) as [s1|] eqn:E;
      [|discriminate].
    replace (completions ++ ev :: schedule) with ((completions ++ [ev]) ++ schedule)
      by (rewrite <- app_assoc; reflexivity).
    apply (IH _ s1); [eapply step_consistent; eassumption| |assumption].
    eapply sourced_step; eassumption.
Qed.

Lemma sourced_runBurstMode (schedule : list (nat * RequestResult.t)) (st : Burst.State) :
  Burst.runBurstMode preparedPayloads burstSize totalBatches schedule = Some st ->
  sourced schedule st.
Proof.
  unfold Burst.runBurstMode. intros Hrun.
  apply (@sourced_run schedule [] (runBatches totalBatches Burst.initial) st);
    [|split|exact Hrun].
  - apply runBatches_consistent; [apply initial_at_batch_start|reflexivity].
  - now rewrite (proj2 (runBatches_data totalBatches Burst.initial)).
  - rewrite (proj1 (runBatches_data totalBatches Burst.initial)). constructor.
Qed.

End BurstSources.

Lemma Forall2_of_map {A B : Type} (g : A -> B) (P : A -> Prop) (rs : list A) :
  Forall P rs -> Forall2 (fun k r => k = g r /\ P r) (map g rs) rs.
Proof. induction 1; simpl; constructor; auto. Qed.

(** X7.  When a burst run returns, every request has completed exactly once:
    the indices of the completions are those from 0 to
    [totalBatches * burstSize], each once, in whatever order they arrived.
    The results returned stand in the order of the indices, and result [k]
    is what the executor produced for request [k], unchanged but for the
    index written into it. *)
Theorem burst_returns_each_completion_once :
  forall (preparedPayloads : list PreparedPayload.t) (burstSize totalBatches : nat)
         (schedule : list (nat * RequestResult.t)) (st : Burst.State),
    Burst.runBurstMode preparedPayloads burstSize totalBatches schedule = Some st ->
    Burst.returned st = true ->
    Permutation (map fst schedule) (seq 0 (totalBatches * burstSize)) /\
    Forall2 (fun k r => exists raw : RequestResult.t,
                          In (k, raw) schedule /\ r = RequestResult.set_index k raw)
      (seq 0 (totalBatches * burstSize)) (Burst.results st).
Proof.
  intros payloads B N schedule st Hrun Hret.
  pose proof (run_consistent payloads B N schedule Hrun)
    as (_ & _ & I3 & _ & [_ I5b] & _ & I7 & I8).
  destruct (sourced_runBurstMode payloads B N schedule Hrun) as [Sf Sr].
  unfold Burst.returned in Hret.
  destruct (Burst.phase st); [discriminate|]. destruct I8 as (Hb & Hn & Hfl).
  rewrite Hb in I3. rewrite Hfl, Hn in I7. cbn [length] in I7. rewrite Nat.add_0_r in I7.
  assert (Hfst : map fst (Burst.fulfilled st) = map fst schedule).
  { rewrite Sf, map_map. apply map_ext. intros [i raw]. reflexivity. }
  split.
  - rewrite <- Hfst. symmetry. apply NoDup_Permutation_bis; [apply seq_NoDup| |].
    + rewrite length_map, length_seq. lia.
    + intros i Hi. apply in_seq in Hi.
      destruct (I5b i) as [_ [r Hr]]; [lia|rewrite Hfl; intros []|].
      apply lookup_In in Hr. apply (in_map fst) in Hr. exact Hr.
  - rewrite <- I3.
    eapply Forall2_impl; [|apply (Forall2_of_map RequestResult.index), Sr].
    intros k r [-> Hin]. cbn beta in Hin. rewrite Sf in Hin.
    apply in_map_iff in Hin as ([i raw] & E & Hin).
    unfold stamped in E. cbn [fst snd] in E. injection E as Ei Er.
    exists raw. rewrite <- Ei. split; [exact Hin|symmetry; exact Er].
Qed.

(** The hypotheses of X7 hold on two batches of two requests that complete
    out of order within each batch. *)
Lemma burst_returns_each_completion_once_witness :
  exists st : Burst.State,
    Burst.runBurstMode two_payloads 2 2 out_of_order = Some st /\
    map RequestResult.endTime (Burst.results st) = [50; 30; 90; 70]%Z /\
    Permutation (map fst out_of_order) (seq 0 (2 * 2)) /\
    Forall2 (fun k r => exists raw : RequestResult.t,
                          In (k, raw) out_of_order /\ r = RequestResult.set_index k raw)
      (seq 0 (2 * 2)) (Burst.results st).
Proof.
  eexists. split; [vm_compute; reflexivity|]. split; [reflexivity|].
  apply (burst_returns_each_completion_once two_payloads 2 2 out_of_order).
  - vm_compute. reflexivity.
  - reflexivity.
Defined.

(** ** Runs that make no request *)

Lemma steady_sized_to_nothing
  (preparedPayloads : list PreparedPayload.t) (options : SteadyModeOptions.t)
  (testStartTime nowTop nowAfter : Z) :
  SteadyModeOptions.maxDuration options = None ->
  SteadyModeOptions.maxConsecutiveFailures options = None ->
  planned_requests options = 0%nat ->
  awaitSteadyMode preparedPayloads options testStartTime [Steady.LoopTurn nowTop nowAfter]
  = Some (SteadyModeResult.mk [] [] completed None).
Proof.
  intros Hmd Hmf Hplan.
  assert (Hc : Steady.hasStopConditions options = false).
  { unfold Steady.hasStopConditions, Steady.maxDuration, Steady.maxConsecutiveFailures.
    now rewrite Hmd, Hmf. }
  destruct (@no_conditions options Hc) as (_ & _ & t & Ht).
  assert (Hle : Qle_bool t (inject_Z (Z.of_nat 0)) = true).
  { apply Qle_bool_ceiling. unfold planned_requests in Hplan. rewrite Ht in Hplan. lia. }
  assert (Hturn : Steady.loopTurn preparedPayloads options testStartTime nowTop nowAfter
                    Steady.initial = Steady.finish Steady.initial).
  { unfold Steady.loopTurn.
    change (Steady.shouldStop Steady.initial) with false.
    change (Steady.nextRequestIndex Steady.initial) with 0%nat.
    unfold Steady.maxDuration. rewrite Hmd, Ht, Hle. reflexivity. }
  unfold awaitSteadyMode. cbn [runToReturn].
  change (Steady.returned Steady.initial) with false. cbv iota.
  change (Steady.step preparedPayloads options testStartTime Steady.initial
            (Steady.LoopTurn nowTop nowAfter))
    with (Some (Steady.loopTurn preparedPayloads options testStartTime nowTop nowAfter
                  Steady.initial)).
  rewrite Hturn. reflexivity.
Qed.

Lemma burst_of_nothing
  (preparedPayloads : list PreparedPayload.t) (burstSize totalBatches : nat) :
  (totalBatches * burstSize = 0)%nat ->
  exists st : Burst.State,
    Burst.runBurstMode preparedPayloads burstSize totalBatches [] = Some st /\
    Burst.returned st = true /\ Burst.results st = [].
Proof.
  intros Hz. eexists. split; [reflexivity|].
  pose proof (@runBatches_consistent preparedPayloads burstSize totalBatches totalBatches
                Burst.initial (initial_at_batch_start preparedPayloads burstSize)
                eq_refl) as (_ & _ & I3 & _ & _ & _ & _ & I8).
  rewrite (proj1 (runBatches_data preparedPayloads burstSize totalBatches totalBatches
                    Burst.initial)).
  split; [|reflexivity]. unfold Burst.returned.
  destruct (Burst.phase _) as [bp left|]; [|reflexivity].
  destruct I8 as (P1 & P2 & _ & P4 & P5). exfalso.
  destruct (Burst.inFlight _) as [|i rest]; [now apply P4|].
  specialize (P5 i (or_introl eq_refl)).
  assert (burstSize = 0%nat \/ totalBatches = 0%nat) as [E|E] by lia; subst; lia.
Qed.

(** X8.  A run that makes no request cannot be summarised.  A steady run
    without stop condition whose planned number of requests is zero returns
    at the first turn of the loop with no result and an empty timeline, and a
    burst run of no batch or of batches of size zero returns at once with no
    result; on either, [printResults] throws instead of returning a summary,
    in the steady branch and in the sweep of [main] alike. *)
Theorem empty_run_has_no_summary :
  forall (JSON_parse_entries : string -> Js.Completion (list (string * string)))
         (preparedPayloads : list PreparedPayload.t),
    (forall (options : SteadyModeOptions.t) (testStartTime nowTop nowAfter : Z) (rate : Q),
       SteadyModeOptions.maxDuration options = None ->
       SteadyModeOptions.maxConsecutiveFailures options = None ->
       planned_requests options = 0%nat ->
       exists s : SteadyModeResult.t,
         awaitSteadyMode preparedPayloads options testStartTime
           [Steady.LoopTurn nowTop nowAfter] = Some s /\
         SteadyModeResult.results s = [] /\
         SteadyModeResult.timeline s = [] /\
         (exists what, mainSteady JSON_parse_entries rate s = Js.Throw what) /\
         (exists what, sweepSteadyLevel JSON_parse_entries rate s = Js.Throw what)) /\
    (forall (burstSize totalBatches : nat) (size : Q),
       (totalBatches * burstSize = 0)%nat ->
       exists st : Burst.State,
         Burst.runBurstMode preparedPayloads burstSize totalBatches [] = Some st /\
         Burst.returned st = true /\
         Burst.results st = [] /\
         exists what,
           sweepBurstLevel JSON_parse_entries size (Burst.results st) = Js.Throw what).
Proof.
  intros J payloads. split.
  - intros options t0 a b rate Hmd Hmf Hplan.
    rewrite (steady_sized_to_nothing payloads options t0 a b Hmd Hmf Hplan).
    eexists. split; [reflexivity|]. split; [reflexivity|]. split; [reflexivity|].
    split; eexists; reflexivity.
  - intros B N size Hz.
    destruct (burst_of_nothing payloads B N Hz) as (st & Hrun & Hret & Hres).
    exists st. split; [exact Hrun|]. split; [exact Hret|]. split; [exact Hres|].
    rewrite Hres. eexists. reflexivity.
Qed.

(** The hypotheses of X8 hold on half a request a second for one second, and
    on batches of size zero. *)
Lemma empty_run_has_no_summary_witness :
  planned_requests half_a_request = 0%nat /\
  (exists s : SteadyModeResult.t,
     awaitSteadyMode [] half_a_request 0 [Steady.LoopTurn 0 0] = Some s /\
     SteadyModeResult.results s = [] /\
     SteadyModeResult.timeline s = [] /\
     (exists what, mainSteady JSON_rejects (1 # 2) s = Js.Throw what) /\
     (exists what, sweepSteadyLevel JSON_rejects (1 # 2) s = Js.Throw what)) /\
  (exists st : Burst.State,
     Burst.runBurstMode [] 0 10 [] = Some st /\
     Burst.returned st = true /\
     Burst.results st = [] /\
     exists what, sweepBurstLevel JSON_rejects 0 (Burst.results st) = Js.Throw what).
Proof.
  split; [reflexivity|].
  destruct (empty_run_has_no_summary JSON_rejects []) as [Hs Hb]. split.
  - apply (Hs half_a_request 0%Z 0%Z 0%Z (1 # 2)); reflexivity.
  - apply (Hb 0%nat 10%nat 0). reflexivity.
Defined.

(** ** Results processing: the figures of a summary *)

Lemma filter_partition_length {A : Type} (p : A -> bool) (l : list A) :
  (length (filter p l) + length (filter (fun x => negb (p x)) l) = length l)%nat.
Proof.
  induction l as [|a l IH]; simpl; [reflexivity|]. destruct (p a); simpl; lia.
Qed.

Lemma occurrences_snoc (k e : string) (l : list string) :
  occurrences k (l ++ [e])
  = (occurrences k l + if String.eqb k e then 1 else 0)%nat.
Proof.
  unfold occurrences. rewrite filter_app, length_app. simpl.
  destruct (String.eqb k e); reflexivity.
Qed.

Lemma occurrences_absent (k : string) (l : list string) :
  ~ In k l -> occurrences k l = 0%nat.
Proof.
  unfold occurrences. induction l as [|a l IH]; simpl; intros H; [reflexivity|].
  destruct (String.eqb_spec k a) as [->|_]; [tauto|]. apply IH. tauto.
Qed.

Lemma countError_absent (f : string -> nat) (e : string) (keys : list string) :
  ~ In e keys ->
  countError e (map (fun k => (k, f k)) keys) = map (fun k => (k, f k)) keys ++ [(e, 1%nat)].
Proof.
  induction keys as [|k keys IH]; simpl; intros H; [reflexivity|].
  destruct (String.eqb_spec k e) as [->|_]; [tauto|]. rewrite IH; tauto.
Qed.

Lemma countError_present (f g : string -> nat) (e : string) (keys : list string) :
  NoDup keys -> In e keys -> g e = S (f e) -> (forall k, k <> e -> g k = f k) ->
  countError e (map (fun k => (k, f k)) keys) = map (fun k => (k, g k)) keys.
Proof.
  intros ND Hin He Hg. induction keys as [|k keys IH]; simpl; [contradiction|].
  inversion ND as [|? ? Hk ND']; subst.
  destruct (String.eqb_spec k e) as [->|Hne].
  - rewrite He. f_equal. apply map_ext_in. intros k Hk'. rewrite Hg; [reflexivity|].
    congruence.
  - rewrite (Hg k Hne). f_equal. apply IH; [assumption|].
    destruct Hin; [contradiction|assumption].
Qed.

(** The [Map] that counts the messages holds their histogram. *)
Lemma countError_histogram (messages : list string) :
  fold_left (fun m err => countError err m) messages []
  = map (fun k => (k, occurrences k messages)) (first_seen messages).
Proof.
  induction messages as [|e l IH] using rev_ind; [reflexivity|].
  rewrite fold_left_app, IH, first_seen_snoc. cbn [fold_left].
  destruct (existsb (String.eqb e) l) eqn:Ex.
  - apply existsb_eqb_In in Ex.
    apply countError_present.
    + apply first_seen_NoDup.
    + now apply first_seen_In.
    + rewrite occurrences_snoc, String.eqb_refl. lia.
    + intros k Hk. rewrite occurrences_snoc.
      destruct (String.eqb_spec k e); [contradiction|lia].
  - assert (Hn : ~ In e l).
    { intros H. apply existsb_eqb_In in H. congruence. }
    rewrite countError_absent by (rewrite first_seen_In; exact Hn).
    rewrite map_app. cbn [map]. f_equal.
    + apply map_ext_in. intros k Hk. apply (proj1 (first_seen_In _ _)) in Hk.
      rewrite occurrences_snoc.
      destruct (String.eqb_spec k e) as [->|_]; [contradiction|].
      now rewrite Nat.add_0_r.
    + rewrite occurrences_snoc, String.eqb_refl, (occurrences_absent _ _ Hn).
      reflexivity.
Qed.

Lemma countError_sum (e : string) (m : list (string * nat)) :
  list_sum (map snd (countError e m)) = S (list_sum (map snd m)).
Proof.
  induction m as [|[k n] m IH]; simpl; [reflexivity|].
  destruct (String.eqb k e); simpl; [reflexivity|]. rewrite IH. lia.
Qed.

Lemma histogram_sum (messages : list string) :
  list_sum (map ErrorWithCount.count (histogram messages)) = length messages.
Proof.
  unfold histogram. rewrite map_map. cbn [ErrorWithCount.count].
  transitivity (list_sum (map snd (fold_left (fun m err => countError err m) messages []))).
  { rewrite countError_histogram, map_map. reflexivity. }
  induction messages as [|e l IH] using rev_ind; [reflexivity|].
  rewrite fold_left_app. cbn [fold_left]. rewrite countError_sum, IH, length_app.
  simpl. lia.
Qed.

(** What [printResults] returns on results that are not empty. *)
Lemma printResults_fields
  (J : string -> Js.Completion (list (string * string)))
  (results : list RequestResult.t) (mode : Mode) (rate : Q) (label : option string) :
  results <> [] ->
  exists rr : RunResult.t,
    printResults J results mode rate label = Js.Normal rr /\
    RunResult.requests rr
    = RunResult.mkRequests (length results)
        (length (filter RequestResult.success results))
        (length (filter (fun r => negb (RequestResult.success r)) results)) /\
    RunResult.successLatency rr
    = statsOrNull (map RequestResult.duration (filter RequestResult.success results)) /\
    RunResult.failureLatency rr
    = statsOrNull (map RequestResult.duration
                     (filter (fun r => negb (RequestResult.success r)) results)) /\
    RunResult.tacoSigningTime rr = statsOrNull (tacoTimesOf results) /\
    RunResult.successTacoSigningTime rr
    = statsOrNull (tacoTimesOf (filter RequestResult.success results)) /\
    RunResult.failureTacoSigningTime rr
    = statsOrNull (tacoTimesOf (filter (fun r => negb (RequestResult.success r)) results)) /\
    RunResult.errors rr = histogram (failureTexts results) /\
    RunResult.duration rr = inject_Z (Js.Math_round (span results * 10)) / 10 /\
    RunResult.label rr = label.
Proof.
  intros Hne. destruct results as [|first rest]; [congruence|].
  unfold printResults.
  destruct (parseNodeFailures_returns J
              (map errorOrUnknown
                 (filter (fun r => negb (RequestResult.success r)) (first :: rest))))
    as [out ->].
  cbn [Js.bind]. eexists. split; [reflexivity|].
  cbn [RunResult.requests RunResult.successLatency RunResult.failureLatency
       RunResult.tacoSigningTime RunResult.successTacoSigningTime
       RunResult.failureTacoSigningTime RunResult.errors RunResult.duration
       RunResult.label].
  repeat split.
  unfold histogram, failureTexts. rewrite countError_histogram, map_map. reflexivity.
Qed.





(** X10.  The [errors] of a summary are the histogram of the failure
    messages: every distinct text among the failed requests (with
    ["Unknown error"] for a failure that has no text) is listed once, in the
    order of first appearance, with the number of failed requests that carry
    it; the counts add up to [failed]; and the list is empty exactly when
    nothing failed. *)
Theorem printResults_error_histogram :
  forall (JSON_parse_entries : string -> Js.Completion (list (string * string)))
         (results : list RequestResult.t) (mode : Mode) (rate : Q) (label : option string),
    results <> [] ->
    exists rr : RunResult.t,
      printResults JSON_parse_entries results mode rate label = Js.Normal rr /\
      RunResult.errors rr = histogram (failureTexts results) /\
      NoDup (map ErrorWithCount.message (RunResult.errors rr)) /\
      (forall e, In e (RunResult.errors rr) ->
                 ErrorWithCount.count e
                 = occurrences (ErrorWithCount.message e) (failureTexts results) /\
                 (1 <= ErrorWithCount.count e)%nat) /\
      list_sum (map ErrorWithCount.count (RunResult.errors rr))
      = RunResult.failed (RunResult.requests rr) /\
      (RunResult.errors rr = [] <-> RunResult.failed (RunResult.requests rr) = 0%nat).
Proof.
  intros J results mode rate label Hne.
  destruct (printResults_fields J mode rate label Hne)
    as (rr & Hp & Hq & _ & _ & _ & _ & _ & He & _).
  exists rr. split; [exact Hp|]. split; [exact He|]. rewrite He, Hq.
  cbn [RunResult.failed].
  assert (Hlen : length (failureTexts results)
                 = length (filter (fun r => negb (RequestResult.success r)) results))
    by (unfold failureTexts; apply length_map).
  split; [|split; [|split]].
  - unfold histogram. rewrite map_map. cbn [ErrorWithCount.message]. rewrite map_id.
    apply first_seen_NoDup.
  - intros e Hin. unfold histogram in Hin. apply in_map_iff in Hin as (m & <- & Hm).
    cbn [ErrorWithCount.count ErrorWithCount.message]. split; [reflexivity|].
    apply (proj1 (first_seen_In _ _)) in Hm. unfold occurrences.
    assert (Hf : In m (filter (String.eqb m) (failureTexts results)))
      by (apply filter_In; split; [assumption|apply String.eqb_refl]).
    destruct (filter (String.eqb m) (failureTexts results)); [contradiction|simpl; lia].
  - now rewrite histogram_sum.
  - rewrite <- Hlen. unfold histogram. split.
    + intros E. apply map_eq_nil in E.
      destruct (failureTexts results) as [|a l]; [reflexivity|discriminate].
    + intros E. apply length_zero_iff_nil in E. now rewrite E.
Qed.

Lemma printResults_error_histogram_witness :
  exists rr : RunResult.t,
    printResults JSON_rejects three_outcomes steady 5 None = Js.Normal rr /\
    RunResult.errors rr
    = [ErrorWithCount.mk "[timeout] Request timed out after 120s" 2;
       ErrorWithCount.mk "[taco-signing] Node 0xABC did not respond before timeout" 1] /\
    list_sum (map ErrorWithCount.count (RunResult.errors rr))
    = RunResult.failed (RunResult.requests rr).
Proof.
  destruct (printResults_error_histogram JSON_rejects (results := three_outcomes)
              steady 5 None ltac:(discriminate))
    as (rr & Hp & He & _ & _ & Hs & _).
  exists rr. split; [exact Hp|]. split; [|exact Hs].
  rewrite He. reflexivity.
Defined.

(** *** Summaries of what the executor produced *)

Lemma prefix_app (p s : string) : String.prefix p (p ++ s) = true.
Proof.
  induction p as [|c p IH]; simpl; [now destruct s|].
  destruct (ascii_dec c c); [exact IH|congruence].
Qed.

(** What the executor promises of a result. *)
Lemma executed_shape (r : RequestResult.t) :
  executed r ->
  (RequestResult.success r = true ->
   RequestResult.error r = None /\ RequestResult.tacoSigningTimeMs r <> None) /\
  (RequestResult.success r = false ->
   RequestResult.tacoSigningTimeMs r = None /\
   exists rest : string,
     RequestResult.error r = Some ("[taco-signing] " ++ rest)%string \/
     RequestResult.error r = Some ("[timeout] " ++ rest)%string).
Proof.
  intros (T & prepared & startTime & signing & now1 & now2 & raw & i & Hex & ->).
  destruct signing as [e caughtAt|t1 t2 t3|t1 e caughtAt|]; cbn in Hex;
    inversion Hex; subst raw; cbn; split; intros H; try discriminate.
  - split; [reflexivity|]. eexists. left. reflexivity.
  - split; [reflexivity|discriminate].
  - split; [reflexivity|]. eexists. left. reflexivity.
  - split; [reflexivity|]. eexists. right. reflexivity.
Qed.

Lemma tacoTimesOf_failures (results : list RequestResult.t) :
  Forall executed results ->
  tacoTimesOf (filter (fun r => negb (RequestResult.success r)) results) = [] /\
  tacoTimesOf results = tacoTimesOf (filter RequestResult.success results).
Proof.
  induction 1 as [|r results Hr _ [IH1 IH2]]; [split; reflexivity|].
  destruct (executed_shape Hr) as [Hs Hf]. cbn [filter].
  destruct (RequestResult.success r) eqn:E; cbn [negb tacoTimesOf flat_map].
  - split; [exact IH1|]. fold (tacoTimesOf results).
    fold (tacoTimesOf (filter RequestResult.success results)). now rewrite IH2.
  - destruct (Hf eq_refl) as [Ht _]. rewrite Ht. cbn [app].
    fold (tacoTimesOf results).
    fold (tacoTimesOf (filter (fun r => negb (RequestResult.success r)) results)).
    split; assumption.
Qed.

(** X11.  In the summary of results that come from the request executor the
    signing time is measured on successes only: [failureTacoSigningTime] is
    always [null], and [tacoSigningTime] is [successTacoSigningTime].  Every
    message in [errors] starts with ["[taco-signing] "] or with
    ["[timeout] "]; the fallback ["Unknown error"] never appears. *)
Theorem printResults_of_executed_requests :
  forall (JSON_parse_entries : string -> Js.Completion (list (string * string)))
         (results : list RequestResult.t) (mode : Mode) (rate : Q) (label : option string),
    results <> [] ->
    Forall executed results ->
    exists rr : RunResult.t,
      printResults JSON_parse_entries results mode rate label = Js.Normal rr /\
      RunResult.failureTacoSigningTime rr = None /\
      RunResult.tacoSigningTime rr = RunResult.successTacoSigningTime rr /\
      Forall (fun e =>
                String.prefix "[taco-signing] " (ErrorWithCount.message e) = true \/
                String.prefix "[timeout] " (ErrorWithCount.message e) = true)
        (RunResult.errors rr) /\
      ~ In "Unknown error"%string (map ErrorWithCount.message (RunResult.errors rr)).
Proof.
  intros J results mode rate label Hne Hex.
  destruct (printResults_fields J mode rate label Hne)
    as (rr & Hp & _ & _ & _ & Ht & Hst & Hft & He & _).
  destruct (tacoTimesOf_failures Hex) as [T1 T2].
  exists rr. split; [exact Hp|]. rewrite Hft, Ht, Hst, T1, T2, He.
  split; [reflexivity|]. split; [reflexivity|].
  assert (Hall : forall m, In m (failureTexts results) ->
                   String.prefix "[taco-signing] " m = true \/
                   String.prefix "[timeout] " m = true).
  { intros m Hm. unfold failureTexts in Hm. apply in_map_iff in Hm as (r & <- & Hr).
    apply filter_In in Hr as [Hin Hf]. apply negb_true_iff in Hf.
    rewrite Forall_forall in Hex.
    destruct (executed_shape (Hex r Hin)) as [_ Hs].
    destruct (Hs Hf) as (_ & rest & [E|E]); unfold errorOrUnknown; rewrite E.
    - left. apply prefix_app.
    - right. apply prefix_app. }
  split.
  - apply Forall_forall. intros e Hin. unfold histogram in Hin.
    apply in_map_iff in Hin as (m & <- & Hm). cbn [ErrorWithCount.message].
    apply Hall. now apply (proj1 (first_seen_In _ _)).
  - unfold histogram. rewrite map_map. cbn [ErrorWithCount.message]. rewrite map_id.
    intros Hin. apply (proj1 (first_seen_In _ _)) in Hin.
    destruct (Hall _ Hin) as [H|H]; discriminate.
Qed.

Lemma three_outcomes_executed : Forall executed three_outcomes.
Proof.
  repeat constructor.
  - exists 120%Z, (PreparedPayload.mk None "0x01" None), 0%Z,
      (Executor.SignResolves 5 145 150), 0%Z, 0%Z. eexists. exists 0%nat.
    split; reflexivity.
  - exists 120%Z, (PreparedPayload.mk None "0x01" None), 200%Z,
      Executor.StillSigning, 120200%Z, 120200%Z. eexists. exists 1%nat.
    split; reflexivity.
  - exists 120%Z, (PreparedPayload.mk None "0x01" None), 400%Z,
      (Executor.SignRejects 405
         (Executor.ErrorObject "Node 0xABC did not respond before timeout") 450),
      0%Z, 0%Z. eexists. exists 2%nat. split; reflexivity.
  - exists 120%Z, (PreparedPayload.mk None "0x01" None), 600%Z,
      Executor.StillSigning, 120600%Z, 120600%Z. eexists. exists 3%nat.
    split; reflexivity.
Defined.

Lemma printResults_of_executed_requests_witness :
  exists rr : RunResult.t,
    printResults JSON_rejects three_outcomes steady 5 None = Js.Normal rr /\
    RunResult.failureTacoSigningTime rr = None /\
    RunResult.tacoSigningTime rr = RunResult.successTacoSigningTime rr.
Proof.
  destruct (printResults_of_executed_requests JSON_rejects (results := three_outcomes)
              steady 5 None ltac:(discriminate) three_outcomes_executed)
    as (rr & Hp & Hf & Ht & _).
  exists rr. repeat split; assumption.
Defined.

(** X12.  The [duration] of a summary is the time from the start of the
    first result to the end of the last one, in seconds, rounded to one
    decimal: it is a whole number of tenths, and the span lies within a
    twentieth of a second of it. *)
Theorem printResults_duration_in_tenths :
  forall (JSON_parse_entries : string -> Js.Completion (list (string * string)))
         (results : list RequestResult.t) (mode : Mode) (rate : Q) (label : option string),
    results <> [] ->
    exists rr : RunResult.t,
      printResults JSON_parse_entries results mode rate label = Js.Normal rr /\
      (exists tenths : Z, RunResult.duration rr = inject_Z tenths / 10) /\
      RunResult.duration rr - (1 # 20) <= span results /\
      span results < RunResult.duration rr + (1 # 20).
Proof.
  intros J results mode rate label Hne.
  destruct (printResults_fields J mode rate label Hne)
    as (rr & Hp & _ & _ & _ & _ & _ & _ & _ & Hd & _).
  exists rr. split; [exact Hp|]. rewrite Hd. split; [eexists; reflexivity|].
  destruct (Math_round_spec (span results * 10)) as [Hlo Hhi].
  set (z := inject_Z (Js.Math_round (span results * 10))) in *.
  set (x := span results) in *.
  split.
  - setoid_replace (z / 10 - (1 # 20)) with ((z - (1 # 2)) / 10) by field.
    apply Qle_shift_div_r; [reflexivity|exact Hlo].
  - setoid_replace (z / 10 + (1 # 20)) with ((z + (1 # 2)) / 10) by field.
    apply Qlt_shift_div_l; [reflexivity|exact Hhi].
Qed.

Lemma printResults_duration_in_tenths_witness :
  exists rr : RunResult.t,
    printResults JSON_rejects three_outcomes steady 5 None = Js.Normal rr /\
    RunResult.duration rr - (1 # 20) <= span three_outcomes /\
    span three_outcomes < RunResult.duration rr + (1 # 20).
Proof.
  destruct (printResults_duration_in_tenths JSON_rejects (results := three_outcomes)
              steady 5 None ltac:(discriminate))
    as (rr & Hp & _ & Hlo & Hhi).
  exists rr. repeat split; assumption.
Defined.

Lemma inject_nat_nonzero (n : nat) : (0 < n)%nat -> ~ inject_Z (Z.of_nat n) == 0.
Proof. intros H E. unfold Qeq in E. simpl in E. lia. Qed.

(** X13.  The success rate shown for a summary that [printResults] made, in
    the JSON summary of [main] and in the report, is a percentage: it lies
    between 0 and 100, it is 100 exactly when no request failed and 0 exactly
    when none succeeded. *)
Theorem successRate_is_a_percentage :
  forall (JSON_parse_entries : string -> Js.Completion (list (string * string)))
         (results : list RequestResult.t) (mode : Mode) (rate : Q) (label : option string)
         (rr : RunResult.t),
    printResults JSON_parse_entries results mode rate label = Js.Normal rr ->
    0 <= successRate (RunResult.requests rr) <= 100 /\
    (successRate (RunResult.requests rr) == 100 <->
     RunResult.failed (RunResult.requests rr) = 0%nat) /\
    (successRate (RunResult.requests rr) == 0 <->
     RunResult.success (RunResult.requests rr) = 0%nat).
Proof.
  intros J results mode rate label rr Hp.
  assert (Hne : results <> []) by (intros ->; discriminate).
  destruct (printResults_fields J mode rate label Hne) as (rr' & Hp' & Hq & _).
  assert (rr' = rr) by congruence. subst rr'. rewrite Hq.
  pose proof (filter_partition_length RequestResult.success results) as Hsum.
  set (s := length (filter RequestResult.success results)) in *.
  set (f := length (filter (fun r => negb (RequestResult.success r)) results)) in *.
  assert (Hpos : (0 < length results)%nat)
    by (destruct results; [congruence|simpl; lia]).
  unfold successRate. cbn [RunResult.total RunResult.success RunResult.failed].
  destruct (Nat.ltb_spec 0 (length results)) as [_|]; [|lia].
  rewrite <- Hsum in *.
  assert (Hq' : inject_Z (Z.of_nat s) / inject_Z (Z.of_nat (s + f)) * 100
                == inject_Z (100 * Z.of_nat s) / inject_Z (Z.of_nat (s + f))).
  { rewrite inject_Z_mult. field. now apply inject_nat_nonzero. }
  rewrite Hq'.
  assert (Hd : 0 < inject_Z (Z.of_nat (s + f)))
    by (change 0 with (inject_Z 0); rewrite <- Zlt_Qlt; lia).
  split; [split|split; split].
  - apply Qle_shift_div_l; [exact Hd|]. rewrite Qmult_0_l.
    change 0 with (inject_Z 0). rewrite <- Zle_Qle. lia.
  - apply Qle_shift_div_r; [exact Hd|].
    change 100 with (inject_Z 100). rewrite <- inject_Z_mult, <- Zle_Qle. lia.
  - intros E. apply (Qmult_inj_r _ _ (inject_Z (Z.of_nat (s + f)))) in E;
      [|now apply inject_nat_nonzero].
    rewrite Qmult_comm, Qmult_div_r in E by now apply inject_nat_nonzero.
    change 100 with (inject_Z 100) in E. rewrite <- inject_Z_mult in E.
    apply (proj1 (inject_Z_injective _ _)) in E. lia.
  - intros Hf. rewrite Hf, Nat.add_0_r in *.
    rewrite inject_Z_mult. change (inject_Z 100) with 100. field.
    now apply inject_nat_nonzero.
  - intros E. apply (Qmult_inj_r _ _ (inject_Z (Z.of_nat (s + f)))) in E;
      [|now apply inject_nat_nonzero].
    rewrite Qmult_comm, Qmult_div_r in E by now apply inject_nat_nonzero.
    rewrite Qmult_0_l in E. change 0 with (inject_Z 0) in E.
    apply (proj1 (inject_Z_injective _ _)) in E. lia.
  - intros Hs. rewrite Hs. cbn [Z.of_nat Z.mul]. unfold Qdiv. now rewrite Qmult_0_l.
Qed.

Lemma successRate_is_a_percentage_witness :
  exists rr : RunResult.t,
    printResults JSON_rejects three_outcomes steady 5 None = Js.Normal rr /\
    successRate (RunResult.requests rr) == 25 /\
    0 <= successRate (RunResult.requests rr) <= 100.
Proof.
  eexists. split; [vm_compute; reflexivity|]. split; [reflexivity|].
  eapply (successRate_is_a_percentage JSON_rejects three_outcomes steady 5 None).
  vm_compute. reflexivity.
Defined.

(** ** The report generator *)

(** *** Node failures across the summaries *)

Lemma timeoutsOf_snoc (a : string) (nfs : list NodeFailure.t) (nf : NodeFailure.t) :
  timeoutsOf a (nfs ++ [nf])
  = (timeoutsOf a nfs
     + if String.eqb (NodeFailure.address nf) a then NodeFailure.timeouts nf else 0)%nat.
Proof.
  unfold timeoutsOf. rewrite filter_app, map_app, list_sum_app. cbn [filter].
  destruct (String.eqb (NodeFailure.address nf) a); simpl; lia.
Qed.

Lemma otherErrorsOf_snoc (a : string) (nfs : list NodeFailure.t) (nf : NodeFailure.t) :
  otherErrorsOf a (nfs ++ [nf])
  = (otherErrorsOf a nfs
     + if String.eqb (NodeFailure.address nf) a then NodeFailure.otherErrors nf else 0)%nat.
Proof.
  unfold otherErrorsOf. rewrite filter_app, map_app, list_sum_app. cbn [filter].
  destruct (String.eqb (NodeFailure.address nf) a); simpl; lia.
Qed.

Lemma figures_absent (a : string) (nfs : list NodeFailure.t) :
  ~ In a (map NodeFailure.address nfs) ->
  timeoutsOf a nfs = 0%nat /\ otherErrorsOf a nfs = 0%nat.
Proof.
  unfold timeoutsOf, otherErrorsOf.
  induction nfs as [|nf nfs IH]; simpl; intros H; [split; reflexivity|].
  destruct (String.eqb_spec (NodeFailure.address nf) a) as [E|_]; [tauto|].
  apply IH. tauto.
Qed.

(** The map the report builds holds the figures added up by node. *)
Lemma fold_addNodeFailure_merged (nfs : list NodeFailure.t) :
  fold_left Report.addNodeFailure nfs [] = merged nfs.
Proof.
  induction nfs as [|nf nfs IH] using rev_ind; [reflexivity|].
  rewrite fold_left_app, IH. cbn [fold_left]. unfold Report.addNodeFailure, merged.
  rewrite map_app. cbn [map]. rewrite first_seen_snoc, NodeMap_get_map.
  set (a := NodeFailure.address nf).
  set (g := fun addr => (timeoutsOf addr (nfs ++ [nf]), otherErrorsOf addr (nfs ++ [nf]))).
  destruct (existsb (String.eqb a) (first_seen (map NodeFailure.address nfs))) eqn:E1.
  - assert (Hin : In a (first_seen (map NodeFailure.address nfs)))
      by now apply existsb_eqb_In.
    assert (E2 : existsb (String.eqb a) (map NodeFailure.address nfs) = true)
      by now apply existsb_eqb_In, first_seen_In.
    rewrite E2. cbn [fst snd].
    replace (timeoutsOf a nfs + NodeFailure.timeouts nf,
             otherErrorsOf a nfs + NodeFailure.otherErrors nf)%nat with (g a).
    + apply NodeMap_set_present; [apply first_seen_NoDup|assumption|].
      intros k Hne. unfold g. rewrite timeoutsOf_snoc, otherErrorsOf_snoc.
      fold a. destruct (String.eqb_spec a k) as [->|_]; [contradiction|].
      now rewrite !Nat.add_0_r.
    + unfold g. rewrite timeoutsOf_snoc, otherErrorsOf_snoc. fold a.
      now rewrite String.eqb_refl.
  - assert (Hnin : ~ In a (first_seen (map NodeFailure.address nfs))).
    { intros H. apply existsb_eqb_In in H. congruence. }
    assert (Hnin' : ~ In a (map NodeFailure.address nfs))
      by (now rewrite <- first_seen_In).
    assert (E2 : existsb (String.eqb a) (map NodeFailure.address nfs) = false).
    { destruct (existsb _ (map NodeFailure.address nfs)) eqn:E; [|reflexivity].
      apply existsb_eqb_In in E. contradiction. }
    rewrite E2, NodeMap_set_absent by assumption. rewrite map_app. cbn [map fst snd].
    destruct (figures_absent _ _ Hnin') as [T0 O0].
    f_equal.
    + apply map_ext_in. intros k Hk. rewrite timeoutsOf_snoc, otherErrorsOf_snoc.
      fold a. destruct (String.eqb_spec a k) as [->|_]; [contradiction|].
      now rewrite !Nat.add_0_r.
    + rewrite timeoutsOf_snoc, otherErrorsOf_snoc. fold a.
      now rewrite String.eqb_refl, T0, O0.
Qed.

Lemma fold_left_flat_map {A B C : Type} (f : A -> C -> A) (g : B -> list C)
  (l : list B) (a : A) :
  fold_left (fun m x => fold_left f (g x) m) l a = fold_left f (flat_map g l) a.
Proof.
  revert a. induction l as [|x l IH]; intros a; simpl; [reflexivity|].
  now rewrite fold_left_app, IH.
Qed.

Lemma nodeMap_merged (data : TestData.t) :
  Report.nodeMap data = merged (allNodeFailures data).
Proof.
  unfold Report.nodeMap, allNodeFailures.
  rewrite fold_left_flat_map. apply fold_addNodeFailure_merged.
Qed.

Lemma addNodeFailure_sums (m : NodeMap.t) (nf : NodeFailure.t) :
  list_sum (map (fun e => fst (snd e)) (Report.addNodeFailure m nf))
  = (list_sum (map (fun e => fst (snd e)) m) + NodeFailure.timeouts nf)%nat /\
  list_sum (map (fun e => snd (snd e)) (Report.addNodeFailure m nf))
  = (list_sum (map (fun e => snd (snd e)) m) + NodeFailure.otherErrors nf)%nat.
Proof.
  unfold Report.addNodeFailure.
  induction m as [|[k w] m IH]; [simpl; split; lia|].
  cbn [NodeMap.get NodeMap.set].
  destruct (String.eqb k (NodeFailure.address nf)) eqn:E.
  - simpl. split; lia.
  - cbn [map]. change (list_sum (?x :: ?l)) with (x + list_sum l)%nat.
    cbn [fst snd]. destruct IH as [-> ->]. split; lia.
Qed.

Lemma merged_sums (nfs : list NodeFailure.t) :
  list_sum (map (fun e => fst (snd e)) (merged nfs))
  = list_sum (map NodeFailure.timeouts nfs) /\
  list_sum (map (fun e => snd (snd e)) (merged nfs))
  = list_sum (map NodeFailure.otherErrors nfs).
Proof.
  rewrite <- fold_addNodeFailure_merged.
  induction nfs as [|nf nfs IH] using rev_ind; [split; reflexivity|].
  rewrite fold_left_app. cbn [fold_left].
  destruct (addNodeFailure_sums (fold_left Report.addNodeFailure nfs []) nf) as [-> ->].
  destruct IH as [-> ->]. rewrite !map_app, !list_sum_app. simpl. split; lia.
Qed.

Lemma entries_sorted (m : NodeMap.t) :
  StronglySorted (fun a b => (Report.entryTotal b <= Report.entryTotal a)%Z)
    (Js.Array_sort (fun a b => Report.entryTotal b - Report.entryTotal a)%Z m).
Proof.
  apply Sorted_StronglySorted.
  - intros a b c Hab Hbc. lia.
  - pose proof (@Array_sort_sorted _
                  (fun a b => Report.entryTotal b - Report.entryTotal a)%Z
                  ltac:(intros; lia) m) as H.
    induction H as [|a l0 _ IH Hd]; constructor; [assumption|].
    destruct Hd; constructor. lia.
Qed.

Lemma combine_columns (m : NodeMap.t) :
  combine (map fst m) (combine (map (fun e => fst (snd e)) m) (map (fun e => snd (snd e)) m))
  = m.
Proof.
  induction m as [|[k [t o]] m IH]; simpl; [reflexivity|]. now rewrite IH.
Qed.

(** X14.  The node chart of a report adds the node failures of all the
    summaries up by node.  It is left out exactly when no summary blames a
    node.  Otherwise its four columns have one row for each node blamed, each
    node once: the full address, the address cut to ten characters and
    followed by ["..."], and the timeouts and the other errors of that node
    summed over all summaries.  The rows stand by descending total, and the
    columns add up to the figures of the summaries. *)
Theorem report_node_chart_adds_up :
  forall data : TestData.t,
    (Report.nodeFailuresChart data = None <-> allNodeFailures data = []) /\
    forall chart : Report.NodeFailuresChart,
      Report.nodeFailuresChart data = Some chart ->
      let rows :=
        combine (Report.fullLabels chart)
          (combine (Report.timeouts chart) (Report.otherErrors chart)) in
      length (Report.timeouts chart) = length (Report.fullLabels chart) /\
      length (Report.otherErrors chart) = length (Report.fullLabels chart) /\
      Report.labels chart
      = map (fun a => (String.substring 0 10 a ++ "...")%string) (Report.fullLabels chart) /\
      NoDup (Report.fullLabels chart) /\
      Permutation rows (merged (allNodeFailures data)) /\
      StronglySorted (fun a b => (Report.entryTotal b <= Report.entryTotal a)%Z) rows /\
      list_sum (Report.timeouts chart)
      = list_sum (map NodeFailure.timeouts (allNodeFailures data)) /\
      list_sum (Report.otherErrors chart)
      = list_sum (map NodeFailure.otherErrors (allNodeFailures data)).
Proof.
  intros data. unfold Report.nodeFailuresChart. rewrite nodeMap_merged.
  set (nfs := allNodeFailures data).
  assert (Hnil : merged nfs = [] <-> nfs = []).
  { unfold merged. split.
    - intros E. apply map_eq_nil in E. destruct nfs; [reflexivity|discriminate].
    - intros ->. reflexivity. }
  split.
  - destruct (merged nfs) eqn:E; [tauto|].
    split; [discriminate|]. intros H. apply Hnil in H. discriminate.
  - intros chart Hc.
    set (entries := Js.Array_sort
                      (fun a b => (Report.entryTotal b - Report.entryTotal a)%Z)
                      (merged nfs)) in *.
    assert (Ec : chart = Report.mkChart
                   (map (fun e => (String.substring 0 10 (fst e) ++ "...")%string) entries)
                   (map fst entries)
                   (map (fun e => fst (snd e)) entries)
                   (map (fun e => snd (snd e)) entries)).
    { destruct (merged nfs); [discriminate|]. now inversion Hc. }
    subst chart.
    cbn [Report.labels Report.fullLabels Report.timeouts Report.otherErrors].
    pose proof (Array_sort_perm
                  (fun a b => (Report.entryTotal b - Report.entryTotal a)%Z)
                  (merged nfs)) as Hperm.
    fold entries in Hperm.
    rewrite combine_columns, !length_map.
    split; [reflexivity|]. split; [reflexivity|]. split; [now rewrite map_map|].
    split.
    { apply (Permutation_NoDup (l := map fst (merged nfs)));
        [symmetry; now apply Permutation_map|].
      unfold merged. rewrite map_map. cbn [fst]. rewrite map_id.
      apply first_seen_NoDup. }
    split; [exact Hperm|]. split; [apply entries_sorted|].
    destruct (merged_sums nfs) as [<- <-].
    split.
    + rewrite (Permutation_map (fun e => fst (snd e)) Hperm). reflexivity.
    + rewrite (Permutation_map (fun e => snd (snd e)) Hperm). reflexivity.
Qed.

Lemma report_node_chart_adds_up_witness :
  exists chart : Report.NodeFailuresChart,
    Report.nodeFailuresChart two_blames = Some chart /\
    Report.fullLabels chart = ["0xCCC"; "0xBBB"; "0xAAA"]%string /\
    Report.timeouts chart = [5; 2; 2]%nat /\
    Report.otherErrors chart = [0; 2; 0]%nat /\
    NoDup (Report.fullLabels chart).
Proof.
  eexists. split; [vm_compute; reflexivity|]. split; [reflexivity|].
  split; [reflexivity|]. split; [reflexivity|].
  refine (proj1 (proj2 (proj2 (proj2 (proj2 (report_node_chart_adds_up two_blames) _ _))))).
  vm_compute. reflexivity.
Defined.

(** *** Error messages in the page *)

Lemma occurs_app (c : ascii) (a b : string) :
  occurs c (a ++ b) = occurs c a || occurs c b.
Proof.
  induction a as [|x a IH]; simpl; [reflexivity|]. now rewrite IH, orb_assoc.
Qed.

Lemma replaceAll_removes (c : ascii) (by_ s : string) :
  occurs c by_ = false -> occurs c (Report.replaceAll c by_ s) = false.
Proof.
  intros Hby. induction s as [|a s IH]; simpl; [reflexivity|].
  destruct (Ascii.eqb a c) eqn:E.
  - now rewrite occurs_app, Hby, IH.
  - simpl. now rewrite E, IH.
Qed.

Lemma replaceAll_keeps_out (d c : ascii) (by_ s : string) :
  occurs d by_ = false -> occurs d s = false ->
  occurs d (Report.replaceAll c by_ s) = false.
Proof.
  intros Hby. induction s as [|a s IH]; simpl; [reflexivity|].
  intros H. apply orb_false_iff in H as [Ha Hs].
  destruct (Ascii.eqb a c).
  - now rewrite occurs_app, Hby, IH.
  - simpl. now rewrite Ha, IH.
Qed.

Lemma replaceAll_nothing (c : ascii) (by_ s : string) :
  occurs c s = false -> Report.replaceAll c by_ s = s.
Proof.
  induction s as [|a s IH]; simpl; [reflexivity|].
  intros H. apply orb_false_iff in H as [Ha Hs]. now rewrite Ha, IH.
Qed.

Lemma replaceAll_app (c : ascii) (by_ a b : string) :
  Report.replaceAll c by_ (a ++ b)
  = (Report.replaceAll c by_ a ++ Report.replaceAll c by_ b)%string.
Proof.
  assert (Assoc : forall x y z : string, ((x ++ y) ++ z = x ++ y ++ z)%string)
    by (intros x y z; induction x as [|h x IHx]; simpl; [reflexivity|now rewrite IHx]).
  induction a as [|x a IH]; simpl; [reflexivity|].
  destruct (Ascii.eqb x c); simpl; rewrite IH; [|reflexivity].
  now rewrite Assoc.
Qed.

Lemma replaceAll_escapeWith (c : ascii) (by_ : string) (ent : ascii -> string) (s : string) :
  Report.replaceAll c by_ (escapeWith ent s)
  = escapeWith (fun a => Report.replaceAll c by_ (ent a)) s.
Proof.
  induction s as [|a s IH]; simpl; [reflexivity|]. now rewrite replaceAll_app, IH.
Qed.

Lemma escapeWith_ext (f g : ascii -> string) (s : string) :
  (forall a, f a = g a) -> escapeWith f s = escapeWith g s.
Proof. intros E. induction s as [|a s IH]; simpl; [reflexivity|]. now rewrite E, IH. Qed.

Lemma escapeWith_single (s : string) : escapeWith (fun a => String a EmptyString) s = s.
Proof. induction s as [|a s IH]; simpl; [reflexivity|]. now rewrite IH. Qed.

(** The replacements in a row, on one character. *)
Lemma entity_by_replacements (a : ascii) :
  Report.replaceAll Report.quote "&quot;"
    (Report.replaceAll ">" "&gt;"
       (Report.replaceAll "<" "&lt;"
          (Report.replaceAll "&" "&amp;" (String a EmptyString))))
  = entity a.
Proof. destruct a as [[] [] [] [] [] [] [] []]; reflexivity. Qed.

Lemma textEntity_by_replacements (a : ascii) :
  Report.replaceAll ">" "&gt;"
    (Report.replaceAll "<" "&lt;"
       (Report.replaceAll "&" "&amp;" (String a EmptyString)))
  = textEntity a.
Proof. destruct a as [[] [] [] [] [] [] [] []]; reflexivity. Qed.

Lemma escapedFull_escapeWith (message : string) :
  Report.escapedFull message = escapeWith entity message.
Proof.
  unfold Report.escapedFull.
  rewrite <- (escapeWith_single message) at 1.
  rewrite !replaceAll_escapeWith. apply escapeWith_ext, entity_by_replacements.
Qed.

Lemma escapedSummary_escapeWith (message : string) :
  Report.escapedSummary message = escapeWith textEntity (Report.shortMsg message).
Proof.
  unfold Report.escapedSummary.
  rewrite <- (escapeWith_single (Report.shortMsg message)) at 1.
  rewrite !replaceAll_escapeWith. apply escapeWith_ext, textEntity_by_replacements.
Qed.

Lemma dots_length (n : nat) (s : string) :
  Report.dots n s = true -> (n <= String.length s)%nat.
Proof.
  revert s. induction n as [|n IH]; intros s; simpl; [lia|].
  destruct s as [|c s]; [discriminate|]. intros H.
  apply andb_true_iff in H as [_ H]. apply IH in H. simpl. lia.
Qed.

Lemma replaceRuns_short (s : string) :
  (String.length s < 80)%nat -> Report.replaceRuns 0 s = s.
Proof.
  induction s as [|c s IH]; [reflexivity|]. intros H.
  cbn [Report.replaceRuns].
  destruct (Report.dots 80 (String c s)) eqn:E.
  - apply dots_length in E. lia.
  - rewrite IH; [reflexivity|]. simpl in H. lia.
Qed.

(** X15.  In the error sections of the report an error message is written
    with its markup characters replaced, each once: the full text is the
    message with [&amp;], [&lt;], [&gt;] and [&quot;] standing for [&], [<],
    [>] and the double quote and every other character kept, and the summary
    line is the message, cut to 120 characters when it is longer, with the
    first three replaced.  So the full text holds no [<], no [>] and no
    double quote, the summary no [<] and no [>], and a message without these
    characters is written as it is.  The hover text of the timeline chart is
    not treated so: an error of fewer than 80 characters stands in it as it
    is, markup included. *)
Theorem report_escapes_markup :
  forall message : string,
    Report.escapedFull message = escapeWith entity message /\
    Report.escapedSummary message = escapeWith textEntity (Report.shortMsg message) /\
    occurs "<" (Report.escapedFull message) = false /\
    occurs ">" (Report.escapedFull message) = false /\
    occurs Report.quote (Report.escapedFull message) = false /\
    occurs "<" (Report.escapedSummary message) = false /\
    occurs ">" (Report.escapedSummary message) = false /\
    (occurs "&" message = false -> occurs "<" message = false ->
     occurs ">" message = false -> occurs Report.quote message = false ->
     Report.escapedFull message = message) /\
    forall index : nat,
      message <> EmptyString -> (String.length message < 80)%nat ->
      Report.timelineText index (Some message)
      = ("#" ++ NilEmpty.string_of_uint (Nat.to_uint index) ++ "<br>" ++ message)%string.
Proof.
  intros message.
  split; [apply escapedFull_escapeWith|]. split; [apply escapedSummary_escapeWith|].
  unfold Report.escapedFull, Report.escapedSummary.
  repeat split.
  - apply replaceAll_keeps_out; [reflexivity|].
    apply replaceAll_keeps_out; [reflexivity|].
    now apply replaceAll_removes.
  - apply replaceAll_keeps_out; [reflexivity|]. now apply replaceAll_removes.
  - now apply replaceAll_removes.
  - apply replaceAll_keeps_out; [reflexivity|]. now apply replaceAll_removes.
  - now apply replaceAll_removes.
  - intros Ha Hl Hg Hq.
    rewrite (replaceAll_nothing _ _ _ Ha), (replaceAll_nothing _ _ _ Hl),
      (replaceAll_nothing _ _ _ Hg). now apply replaceAll_nothing.
  - intros index Hne Hlen. unfold Report.timelineText, Report.errText.
    destruct message as [|c e]; [congruence|].
    rewrite (replaceRuns_short _ Hlen). reflexivity.
Qed.

Lemma report_escapes_markup_witness :
  Report.escapedFull markup_message = "&lt;b&gt;Tom &amp; Jerry&lt;/b&gt;"%string /\
  occurs "<" (Report.escapedFull markup_message) = false /\
  Report.escapedFull "Node 0xABC did not respond" = "Node 0xABC did not respond"%string /\
  Report.timelineText 7 (Some markup_message) = "#7<br><b>Tom & Jerry</b>"%string.
Proof.
  split; [reflexivity|]. split; [|split].
  - exact (proj1 (proj2 (proj2 (report_escapes_markup markup_message)))).
  - exact (proj1 (proj2 (proj2 (proj2 (proj2 (proj2 (proj2 (proj2
             (report_escapes_markup "Node 0xABC did not respond"))))))))
             eq_refl eq_refl eq_refl eq_refl).
  - exact (proj2 (proj2 (proj2 (proj2 (proj2 (proj2 (proj2 (proj2
             (report_escapes_markup markup_message)))))))) 7%nat
             ltac:(discriminate) ltac:(vm_compute; lia)).
Defined.

(** *** The latest data file *)

Lemma String_compare_trans (s1 s2 s3 : string) :
  String.compare s1 s2 <> Gt -> String.compare s2 s3 <> Gt -> String.compare s1 s3 <> Gt.
Proof.
  revert s2 s3. induction s1 as [|a s1 IH]; intros [|b s2] [|c s3]; simpl;
    try congruence.
  unfold Ascii.compare.
  destruct (N.compare_spec (N_of_ascii a) (N_of_ascii b)) as [E1|L1|G1];
    destruct (N.compare_spec (N_of_ascii b) (N_of_ascii c)) as [E2|L2|G2];
    destruct (N.compare_spec (N_of_ascii a) (N_of_ascii c)) as [E3|L3|G3];
    intros H1 H2;
    first [ exact (IH s2 s3 H1 H2) | discriminate | congruence | exfalso; lia ].
Qed.

Lemma String_leb_refl (s : string) : String.leb s s = true.
Proof.
  unfold String.leb. replace (String.compare s s) with Eq; [reflexivity|].
  induction s as [|a s IH]; simpl; [reflexivity|].
  unfold Ascii.compare. now rewrite N.compare_refl.
Qed.

Lemma compareStrings_le (a b : string) :
  (compareStrings a b <= 0)%Z <-> String.leb a b = true.
Proof.
  unfold compareStrings, String.leb. destruct (String.compare a b); split;
    intros; try reflexivity; try lia; discriminate.
Qed.

Lemma sorted_strings (l : list string) :
  StronglySorted (fun a b => String.leb a b = true) (Js.Array_sort compareStrings l).
Proof.
  apply Sorted_StronglySorted.
  - intros a b c Hab Hbc. unfold String.leb in *.
    pose proof (String_compare_trans a b c) as H.
    destruct (String.compare a b); try discriminate;
      destruct (String.compare b c); try discriminate;
      destruct (String.compare a c); try reflexivity;
      exfalso; apply H; congruence.
  - assert (Htot : forall a b, (compareStrings a b > 0)%Z -> (compareStrings b a <= 0)%Z).
    { intros a b. unfold compareStrings. rewrite (String.compare_antisym a b).
      destruct (String.compare b a); simpl; lia. }
    pose proof (@Array_sort_sorted _ compareStrings Htot l) as H.
    induction H as [|a l0 _ IH Hd]; constructor; [assumption|].
    destruct Hd; constructor. now apply compareStrings_le.
Qed.

Lemma sorted_last_is_greatest (l : list string) (x : string) (init : list string) :
  StronglySorted (fun a b => String.leb a b = true) l ->
  rev l = x :: init ->
  forall f, In f l -> String.leb f x = true.
Proof.
  intros Hs Hrev f Hf.
  assert (El : l = rev init ++ [x]).
  { rewrite <- (rev_involutive l), Hrev. reflexivity. }
  subst l. clear Hrev. induction (rev init) as [|a pre IH]; simpl in *.
  - destruct Hf as [<-|[]]. apply String_leb_refl.
  - inversion Hs as [|? ? Hs' Hall]; subst. destruct Hf as [<-|Hf].
    + rewrite Forall_forall in Hall. apply Hall, in_or_app. right. now left.
    + now apply IH.
Qed.

(** X16.  [getLatestDataFile] answers [null] exactly when the data directory
    holds no file whose name ends in [.json].  Otherwise it answers the path,
    under the data directory, of one of those files, and no other of them has
    a name that sorts after it, names being compared code unit by code
    unit. *)
Theorem getLatestDataFile_is_the_greatest :
  forall readdir : list string,
    (getLatestDataFile readdir = None <->
     forall f, In f readdir -> endsWith ".json" f = false) /\
    forall path : string,
      getLatestDataFile readdir = Some path ->
      exists latest : string,
        path = (Files.DATA_DIR ++ "/" ++ latest)%string /\
        In latest readdir /\
        endsWith ".json" latest = true /\
        forall f, In f readdir -> endsWith ".json" f = true ->
                  String.leb f latest = true.
Proof.
  intros readdir. unfold getLatestDataFile.
  set (files := filter (endsWith ".json") readdir).
  pose proof (Array_sort_perm compareStrings files) as Hperm.
  pose proof (sorted_strings files) as Hsorted.
  assert (Hfiles : forall f, In f files <-> In f readdir /\ endsWith ".json" f = true)
    by (intros f; apply filter_In).
  split.
  - destruct files as [|f0 rest] eqn:E.
    + split; [intros _|reflexivity]. intros f Hin.
      destruct (endsWith ".json" f) eqn:Ef; [|reflexivity].
      destruct (proj2 (Hfiles f) (conj Hin Ef)).
    + destruct (rev (Js.Array_sort compareStrings (f0 :: rest))) as [|x init] eqn:Er.
      * apply (f_equal (@length string)) in Er.
        rewrite length_rev, (Permutation_length Hperm) in Er. discriminate.
      * split; [discriminate|]. intros H.
        destruct (proj1 (Hfiles f0) (or_introl eq_refl)) as [Hin Hj].
        rewrite (H f0 Hin) in Hj. discriminate.
  - intros path Hp. destruct files as [|f0 rest] eqn:E; [discriminate|].
    destruct (rev (Js.Array_sort compareStrings (f0 :: rest))) as [|x init] eqn:Er;
      [discriminate|].
    inversion Hp; subst path. exists x.
    assert (Hx : In x (f0 :: rest)).
    { apply (Permutation_in _ Hperm). apply in_rev. rewrite Er. now left. }
    destruct (proj1 (Hfiles x) Hx) as [Hin Hj].
    split; [reflexivity|]. split; [exact Hin|]. split; [exact Hj|].
    intros f Hf Hfj.
    apply (sorted_last_is_greatest Hsorted Er).
    apply (Permutation_in _ (Permutation_sym Hperm)). now apply Hfiles.
Qed.

Lemma getLatestDataFile_is_the_greatest_witness :
  getLatestDataFile three_files = Some "results/data/2026-02-17-081500.json"%string /\
  exists latest : string,
    "results/data/2026-02-17-081500.json"%string = (Files.DATA_DIR ++ "/" ++ latest)%string /\
    In latest three_files /\
    endsWith ".json" latest = true /\
    forall f, In f three_files -> endsWith ".json" f = true ->
              String.leb f latest = true.
Proof.
  split; [reflexivity|].
  apply (getLatestDataFile_is_the_greatest three_files). reflexivity.
Defined.

(** *** Which charts a report shows *)

Lemma runToReturn_run
  (preparedPayloads : list PreparedPayload.t) (options : SteadyModeOptions.t)
  (testStartTime : Z) (schedule : list Steady.Event) (st0 st : Steady.State) :
  runToReturn preparedPayloads options testStartTime schedule st0 = Some st ->
  exists done : list Steady.Event,
    Steady.run preparedPayloads options testStartTime done st0 = Some st.
Proof.
  revert st0. induction schedule as [|ev schedule IH]; intros st0; cbn [runToReturn].
  - destruct (Steady.returned st0); [|discriminate].
    intros E. inversion E; subst. now exists [].
  - destruct (Steady.returned st0).
    + intros E. inversion E; subst. now exists [].
    + destruct (Steady.step preparedPayloads options testStartTime st0 ev) as [st1|] eqn:Es;
        [|discriminate].
      intros H. destruct (IH st1 H) as [done Hd]. exists (ev :: done).
      cbn [Steady.run]. now rewrite Es.
Qed.

Lemma forEachPush_each {A B : Type} (body : A -> Js.Completion B) (xs : list A)
  (ys : list B) :
  forEachPush body xs = Js.Normal ys -> Forall2 (fun x y => body x = Js.Normal y) xs ys.
Proof.
  revert ys. induction xs as [|x xs IH]; intros ys; cbn [forEachPush].
  - intros E. inversion E. constructor.
  - destruct (body x) as [y|e] eqn:Ex; cbn [Js.bind]; [|discriminate].
    destruct (forEachPush body xs) as [ys'|e]; cbn [Js.bind]; [|discriminate].
    intros E. inversion E; subst. constructor; [assumption|now apply IH].
Qed.

Lemma printResults_no_timeline
  (J : string -> Js.Completion (list (string * string)))
  (results : list RequestResult.t) (mode : Mode) (rate : Q) (label : option string)
  (rr : RunResult.t) :
  printResults J results mode rate label = Js.Normal rr ->
  results <> [] /\ RunResult.timeline rr = None.
Proof.
  intros Hp. assert (Hne : results <> []) by (intros ->; discriminate).
  split; [exact Hne|].
  destruct (printResults_nonempty J mode rate label Hne)
    as (rr' & Hp' & _ & _ & _ & _ & Ht & _).
  congruence.
Qed.

(** X17.  Which charts the report shows for the data [main] saves.  After a
    steady run the data holds one summary with a timeline that is not empty,
    so that the report shows the request timeline and no rate analysis.
    After a burst run it shows neither.  After a sweep no summary has a
    timeline, so that the timeline is never shown, and the rate analysis is
    shown exactly when more than one rate or more than one burst size was
    swept. *)
Theorem report_charts_by_mode :
  forall (JSON_parse_entries : string -> Js.Completion (list (string * string)))
         (timestamp : string) (config : TestData.Config),
    (forall (preparedPayloads : list PreparedPayload.t) (options : SteadyModeOptions.t)
            (testStartTime : Z) (schedule : list Steady.Event) (rate : Q)
            (steadyResult : SteadyModeResult.t) (runResult : RunResult.t),
       awaitSteadyMode preparedPayloads options testStartTime schedule
       = Some steadyResult ->
       mainSteady JSON_parse_entries rate steadyResult = Js.Normal runResult ->
       Report.isTimeline (TestData.mk timestamp config [runResult] []) = true /\
       Report.isSweep (TestData.mk timestamp config [runResult] []) = false) /\
    (forall (results : list RequestResult.t) (rate : Q) (runResult : RunResult.t),
       printResults JSON_parse_entries results burst rate None = Js.Normal runResult ->
       Report.isTimeline (TestData.mk timestamp config [] [runResult]) = false /\
       Report.isSweep (TestData.mk timestamp config [] [runResult]) = false) /\
    (forall (steadyLevels : list (Q * SteadyModeResult.t))
            (burstLevels : list (Q * list RequestResult.t))
            (steadyResults burstResults : list RunResult.t),
       sweep JSON_parse_entries steadyLevels burstLevels
       = Js.Normal (steadyResults, burstResults) ->
       Report.isTimeline (TestData.mk timestamp config steadyResults burstResults) = false /\
       Report.isSweep (TestData.mk timestamp config steadyResults burstResults)
       = ((1 <? length steadyLevels)%nat || (1 <? length burstLevels)%nat)).
Proof.
  intros J ts cfg. split; [|split].
  - intros payloads options t0 schedule rate s rr Hawait Hmain.
    unfold awaitSteadyMode in Hawait.
    destruct (runToReturn payloads options t0 schedule Steady.initial) as [st|] eqn:Hr;
      [|discriminate].
    destruct (runToReturn_run _ _ _ _ _ Hr) as [done Hrun].
    destruct (Books_Limit_run payloads options t0 done Hrun) as (HB & _ & _).
    destruct HB as (_ & _ & _ & _ & _ & Htl & _).
    unfold Steady.result in Hawait.
    destruct (Steady.phase st) as [| | |[reason atStop]]; try discriminate.
    inversion Hawait; subst s; clear Hawait.
    unfold mainSteady in Hmain. cbn [SteadyModeResult.results] in Hmain.
    destruct (printResults J (Steady.results st) steady rate None) as [rr0|e] eqn:Hp;
      cbn [Js.bind] in Hmain; [|discriminate].
    inversion Hmain; subst rr; clear Hmain.
    destruct (printResults_no_timeline _ _ _ _ _ Hp) as [Hne _].
    unfold Report.isTimeline, Report.isSweep.
    cbn [TestData.steadyResults TestData.burstResults RunResult.timeline
         RunResult.set_steady_fields SteadyModeResult.timeline length].
    split; [|reflexivity].
    destruct Htl as [|r t rs tl]; [congruence|reflexivity].
  - intros results rate rr Hp. split; reflexivity.
  - intros steadyLevels burstLevels sr br Hs. unfold sweep in Hs.
    destruct (forEachPush _ steadyLevels) as [sr'|e] eqn:E1; cbn [Js.bind] in Hs;
      [|discriminate].
    destruct (forEachPush _ burstLevels) as [br'|e] eqn:E2; cbn [Js.bind] in Hs;
      [|discriminate].
    inversion Hs; subst sr' br'; clear Hs.
    apply forEachPush_each in E1. apply forEachPush_each in E2.
    unfold Report.isTimeline, Report.isSweep.
    cbn [TestData.steadyResults TestData.burstResults].
    rewrite <- (Forall2_length E1), <- (Forall2_length E2). split; [|reflexivity].
    destruct E1 as [|[testRate s] rr ? ? Hrr E1]; [reflexivity|].
    destruct E1; [|reflexivity].
    unfold sweepSteadyLevel in Hrr.
    destruct (printResults J (SteadyModeResult.results s) steady testRate None)
      as [rr0|e] eqn:Hp; cbn [Js.bind] in Hrr; [|discriminate].
    destruct (printResults_no_timeline _ _ _ _ _ Hp) as [_ Ht].
    inversion Hrr; subst rr.
    destruct (_ && _); cbn [RunResult.timeline RunResult.set_stoppedEarly];
      now rewrite Ht.
Qed.

Lemma report_charts_by_mode_witness :
  exists (steadyResult : SteadyModeResult.t) (runResult : RunResult.t),
    awaitSteadyMode [] five_for_a_second 0 mixed_arrivals = Some steadyResult /\
    mainSteady JSON_rejects 5 steadyResult = Js.Normal runResult /\
    Report.isTimeline (TestData.mk "2026-02-16T12:34:56.000Z"
                         plain_config [runResult] []) = true /\
    Report.isSweep (TestData.mk "2026-02-16T12:34:56.000Z"
                      plain_config [runResult] []) = false.
Proof.
  eexists. eexists. split; [vm_compute; reflexivity|]. split; [vm_compute; reflexivity|].
  eapply (proj1 (report_charts_by_mode JSON_rejects "2026-02-16T12:34:56.000Z"
                   plain_config)
            [] five_for_a_second 0%Z mixed_arrivals 5).
  - vm_compute. reflexivity.
  - vm_compute. reflexivity.
Defined.

(** ** Statistics: order and bounds *)






(** ** Failure attribution: what the patterns capture and what is counted *)

Lemma literal_app (lit s rest : string) :
  Regex.literal lit s = Some rest -> s = (lit ++ rest)%string.
Proof.
  revert s. induction lit as [|a lit IH]; intros s; simpl.
  - intros E. now inversion E.
  - destruct s as [|b s]; [discriminate|].
    destruct (Ascii.eqb_spec a b) as [->|_]; [|discriminate].
    intros E. now rewrite (IH _ E).
Qed.

Lemma many_app (cls : ascii -> bool) (s taken rest : string) :
  Regex.many cls s = (taken, rest) ->
  s = (taken ++ rest)%string /\ forall_chars cls taken = true.
Proof.
  revert taken rest. induction s as [|c s IH]; intros taken rest; simpl.
  - intros E. inversion E. split; reflexivity.
  - destruct (cls c) eqn:Ec.
    + destruct (Regex.many cls s) as [t r]. intros E. inversion E; subst.
      destruct (IH _ _ eq_refl) as [-> Hall]. simpl. rewrite Ec. split; [reflexivity|exact Hall].
    + intros E. inversion E. split; reflexivity.
Qed.

Lemma many1_app (cls : ascii -> bool) (s taken rest : string) :
  Regex.many1 cls s = Some (taken, rest) ->
  s = (taken ++ rest)%string /\ forall_chars cls taken = true /\ taken <> EmptyString.
Proof.
  unfold Regex.many1. destruct (Regex.many cls s) as [t r] eqn:E.
  destruct t as [|c t]; [discriminate|]. intros E'. inversion E'; subst.
  destruct (many_app _ _ E) as [Hs Hall]. repeat split; [assumption..|discriminate].
Qed.

Lemma includes_here (needle rest : string) :
  Regex.includes needle (needle ++ rest) = true.
Proof.
  destruct needle as [|c needle]; [now destruct rest|].
  cbn [Regex.includes append]. change (String c (needle ++ rest)) with (String c needle ++ rest)%string.
  now rewrite prefix_app.
Qed.

Lemma includes_later (needle before hay : string) :
  Regex.includes needle hay = true -> Regex.includes needle (before ++ hay) = true.
Proof.
  intros H. induction before as [|c before IH]; [exact H|].
  cbn [append Regex.includes]. rewrite IH. now destruct (String.prefix needle _).
Qed.

Lemma timeout_at_shape (s addr : string) (len : nat) :
  Regex.timeout_at s = Some (addr, len) ->
  exists digits : string,
    addr = ("0x" ++ digits)%string /\ digits <> EmptyString /\
    forall_chars Regex.is_hex digits = true /\
    Regex.includes ("Node") s = true /\ Regex.includes addr s = true /\
    Regex.includes "did not respond before timeout" s = true.
Proof.
  unfold Regex.timeout_at, Regex.opt_bind.
  destruct (Regex.literal "Node" s) as [s1|] eqn:E1; [|discriminate].
  destruct (Regex.many1 Regex.is_space s1) as [[sp1 s2]|] eqn:E2; [|discriminate].
  destruct (Regex.literal "0x" s2) as [s3|] eqn:E3; [|discriminate].
  destruct (Regex.many1 Regex.is_hex s3) as [[digits s4]|] eqn:E4; [|discriminate].
  destruct (Regex.many1 Regex.is_space s4) as [[sp2 s5]|] eqn:E5; [|discriminate].
  destruct (Regex.literal "did not respond before timeout" s5) as [s6|] eqn:E6;
    [|discriminate].
  intros E. inversion E; subst addr len. clear E.
  apply literal_app in E1, E3, E6.
  apply many1_app in E2 as (H2 & _ & _). apply many1_app in E4 as (H4 & Hhex & Hne).
  apply many1_app in E5 as (H5 & _ & _).
  exists digits. split; [reflexivity|]. split; [assumption|]. split; [assumption|].
  split; [rewrite E1; apply includes_here|]. split.
  - rewrite E1, H2, E3, H4.
    apply (includes_later _ "Node"), includes_later.
    change ("0x" ++ digits ++ s4)%string with (("0x" ++ digits) ++ s4)%string.
    apply includes_here.
  - rewrite E1, H2, E3, H4, H5, E6.
    apply (includes_later _ "Node"), includes_later, (includes_later _ "0x"),
      includes_later, includes_later, includes_here.
Qed.

Lemma timeoutMatches_from_found (addr : string) (s : string) (skip : nat) :
  In addr (Regex.timeoutMatches_from skip s) ->
  exists (before at_ : string) (len : nat),
    s = (before ++ at_)%string /\ Regex.timeout_at at_ = Some (addr, len).
Proof.
  revert skip. induction s as [|c s IH]; intros skip.
  - destruct skip; contradiction.
  - destruct skip as [|skip]; cbn [Regex.timeoutMatches_from].
    + destruct (Regex.timeout_at (String c s)) as [[a len]|] eqn:E.
      * intros [->|Hin].
        -- exists EmptyString, (String c s), len. split; [reflexivity|exact E].
        -- destruct (IH _ Hin) as (b & a' & l & -> & Ha).
           exists (String c b), a', l. split; [reflexivity|exact Ha].
      * intros Hin. destruct (IH _ Hin) as (b & a' & l & -> & Ha).
        exists (String c b), a', l. split; [reflexivity|exact Ha].
    + intros Hin. destruct (IH _ Hin) as (b & a' & l & -> & Ha).
      exists (String c b), a', l. split; [reflexivity|exact Ha].
Qed.

(** X20.  An address the timeout pattern captures is [0x] followed by at
    least one hexadecimal digit and nothing else, and it stands in the
    message, which also holds the word [Node] and the text [did not respond
    before timeout]: a message without that text names no node this way. *)
Theorem timeout_pattern_captures_hex_addresses :
  forall (error addr : string),
    In addr (Regex.timeoutMatches error) ->
    (exists digits : string,
       addr = ("0x" ++ digits)%string /\ digits <> EmptyString /\
       forall_chars Regex.is_hex digits = true) /\
    Regex.includes addr error = true /\
    Regex.includes "Node" error = true /\
    Regex.includes "did not respond before timeout" error = true.
Proof.
  intros error addr Hin. unfold Regex.timeoutMatches in Hin.
  destruct (timeoutMatches_from_found _ _ _ Hin) as (before & at_ & len & -> & Hat).
  destruct (timeout_at_shape _ Hat) as (digits & Ea & Hne & Hhex & H1 & H2 & H3).
  split; [exists digits; repeat split; assumption|].
  repeat split; now apply includes_later.
Qed.

Lemma timeout_pattern_captures_hex_addresses_witness :
  Regex.timeoutMatches two_nodes_message = ["0xAb12"; "0x00ff"]%string /\
  Regex.includes "0x00ff" two_nodes_message = true.
Proof.
  split; [reflexivity|].
  refine (proj1 (proj2 (@timeout_pattern_captures_hex_addresses
                          two_nodes_message "0x00ff" _))).
  vm_compute. right. left. reflexivity.
Defined.

Lemma list_sum_perm (l l' : list nat) : Permutation l l' -> list_sum l = list_sum l'.
Proof. induction 1; simpl; lia. Qed.

Lemma list_sum_pointwise {A : Type} (f g : A -> nat) (l : list A) :
  list_sum (map (fun k => f k + g k)%nat l) = (list_sum (map f l) + list_sum (map g l))%nat.
Proof. induction l as [|a l IH]; simpl; [reflexivity|]. rewrite IH. lia. Qed.

Lemma named_once (b : string) (keys : list string) :
  NoDup keys ->
  list_sum (map (fun k => if String.eqb b k then 1 else 0)%nat keys)
  = if existsb (String.eqb b) keys then 1%nat else 0%nat.
Proof.
  induction 1 as [|k keys Hk ND IH]; simpl; [reflexivity|]. rewrite IH.
  destruct (String.eqb_spec b k) as [->|_]; simpl; [|reflexivity].
  destruct (existsb (String.eqb k) keys) eqn:E; [|reflexivity].
  apply existsb_eqb_In in E. contradiction.
Qed.

Lemma count_signals_cons (a : string) (t : bool) (b : string) (t' : bool)
  (sigs : list (string * bool)) :
  count_signals a t ((b, t') :: sigs)
  = ((if String.eqb b a && Bool.eqb t' t then 1 else 0) + count_signals a t sigs)%nat.
Proof.
  unfold count_signals. simpl. destruct (String.eqb b a && Bool.eqb t' t); reflexivity.
Qed.

(** The counters of one kind, summed over the nodes, count the signals of
    that kind. *)
Lemma count_signals_sum (t : bool) (sigs : list (string * bool)) (keys : list string) :
  NoDup keys -> incl (map fst sigs) keys ->
  list_sum (map (fun k => count_signals k t sigs) keys)
  = length (filter (fun s => Bool.eqb (snd s) t) sigs).
Proof.
  intros ND. induction sigs as [|[b t'] sigs IH]; intros Hincl.
  - clear. induction keys; simpl; [reflexivity|assumption].
  - rewrite (map_ext _ _ (fun k => count_signals_cons k t b t' sigs)).
    rewrite list_sum_pointwise, IH
      by (intros x Hx; apply Hincl; now right).
    cbn [filter snd]. destruct (Bool.eqb t' t).
    + rewrite (map_ext _ (fun k => if String.eqb b k then 1 else 0)%nat)
        by (intros k; now rewrite andb_true_r).
      rewrite named_once by assumption.
      assert (E : existsb (String.eqb b) keys = true)
        by (apply existsb_eqb_In, Hincl; now left).
      rewrite E. reflexivity.
    + rewrite (map_ext _ (fun _ => 0%nat)) by (intros k; now rewrite andb_false_r).
      assert (E : forall l : list string, list_sum (map (fun _ => 0%nat) l) = 0%nat)
        by (induction l; simpl; assumption || reflexivity).
      now rewrite E.
Qed.

Lemma count_signals_named (a : string) (sigs : list (string * bool)) :
  In a (map fst sigs) ->
  (0 < count_signals a true sigs + count_signals a false sigs)%nat.
Proof.
  induction sigs as [|[b t] sigs IH]; [contradiction|].
  rewrite !count_signals_cons. cbn [map fst].
  destruct (String.eqb_spec b a) as [->|Hne].
  - intros _. destruct t; simpl; lia.
  - intros [E|Hin]; [contradiction|]. specialize (IH Hin). simpl. lia.
Qed.

(** X21.  [parseNodeFailures] loses no signal and invents none, whatever
    [JSON.parse] does: each node of its output is named by a signal of the
    messages, is listed once and has at least one failure; the [timeouts]
    of all nodes add up to the number of timeout signals and the
    [otherErrors] to the number of the other signals. *)
Theorem parseNodeFailures_counts_every_signal :
  forall (JSON_parse_entries : string -> Js.Completion (list (string * string)))
         (errors : list string),
    exists out : list NodeFailure.t,
      parseNodeFailures JSON_parse_entries errors = Js.Normal out /\
      NoDup (map NodeFailure.address out) /\
      (forall f : NodeFailure.t,
          In f out ->
          In (NodeFailure.address f) (map fst (signals JSON_parse_entries errors)) /\
          (0 < NodeFailure.timeouts f + NodeFailure.otherErrors f)%nat) /\
      list_sum (map NodeFailure.timeouts out)
      = length (filter (fun s => snd s) (signals JSON_parse_entries errors)) /\
      list_sum (map NodeFailure.otherErrors out)
      = length (filter (fun s => negb (snd s)) (signals JSON_parse_entries errors)).
Proof.
  intros J errors.
  unfold parseNodeFailures. rewrite scanErrors_signals. simpl Js.bind.
  rewrite fold_applySignal_tally.
  set (sigs := signals J errors).
  assert (E : map (fun '(address, counts) => NodeFailure.mk address (fst counts) (snd counts))
                (tally sigs) = attribution sigs).
  { unfold tally, attribution. rewrite map_map. reflexivity. }
  rewrite E. eexists. split; [reflexivity|].
  pose proof (Array_sort_perm (fun a b => failures b - failures a)%Z (attribution sigs))
    as HP.
  assert (Hincl : incl (map fst sigs) (first_seen (map fst sigs)))
    by (intros x Hx; now apply first_seen_In).
  split; [|split; [|split]].
  - eapply Permutation_NoDup; [symmetry; apply Permutation_map; exact HP|].
    unfold attribution. rewrite map_map. cbn [NodeFailure.address]. rewrite map_id.
    apply first_seen_NoDup.
  - intros f Hf. apply (Permutation_in _ HP) in Hf. unfold attribution in Hf.
    apply in_map_iff in Hf as (a & <- & Ha). cbn [NodeFailure.address
      NodeFailure.timeouts NodeFailure.otherErrors].
    apply (proj1 (first_seen_In _ _)) in Ha. split; [assumption|].
    now apply count_signals_named.
  - rewrite (list_sum_perm (Permutation_map NodeFailure.timeouts HP)).
    unfold attribution. rewrite map_map. cbn [NodeFailure.timeouts].
    rewrite (@count_signals_sum true sigs _ (first_seen_NoDup _) Hincl).
    apply (f_equal (@length _)), filter_ext. intros [a []]; reflexivity.
  - rewrite (list_sum_perm (Permutation_map NodeFailure.otherErrors HP)).
    unfold attribution. rewrite map_map. cbn [NodeFailure.otherErrors].
    rewrite (@count_signals_sum false sigs _ (first_seen_NoDup _) Hincl).
    apply (f_equal (@length _)), filter_ext. intros [a []]; reflexivity.
Qed.

(** ** The sweep of [main]: levels and pauses *)

Lemma Qceiling_pred (x : Q) : Qceiling (x - 1) = (Qceiling x - 1)%Z.
Proof.
  pose proof (Qle_ceiling x) as H1. pose proof (Qceiling_lt x) as H2.
  pose proof (Qle_ceiling (x - 1)) as H3. pose proof (Qceiling_lt (x - 1)) as H4.
  unfold Z.sub in H2, H4. rewrite inject_Z_plus, inject_Z_opp in H2, H4.
  change (inject_Z 1) with 1 in H2, H4.
  assert (A : inject_Z (Qceiling (x - 1)) < inject_Z (Qceiling x)) by lra.
  assert (B : inject_Z (Qceiling x) < inject_Z (Qceiling (x - 1)) + inject_Z 2)
    by (change (inject_Z 2) with 2; lra).
  rewrite <- inject_Z_plus in B. rewrite <- Zlt_Qlt in A, B. lia.
Qed.

(** The loop of [cooldownTimer] ends by its own test after [ceil seconds]
    turns, whatever larger bound it is given. *)
Lemma cooldownLoop_turns (turns : nat) (seconds : Q) :
  (Z.to_nat (Qceiling seconds) <= turns)%nat ->
  Sweep.cooldownLoop turns seconds
  = repeat (Sweep.Sleep 1000) (Z.to_nat (Qceiling seconds)).
Proof.
  revert seconds. induction turns as [|turns IH]; intros seconds Hle; simpl.
  - assert (E : Z.to_nat (Qceiling seconds) = 0%nat) by lia. now rewrite E.
  - destruct (Qle_bool seconds 0) eqn:E.
    + apply Qle_bool_iff in E. apply Qceiling_resp_le in E.
      change (Qceiling 0) with 0%Z in E.
      assert (E' : Z.to_nat (Qceiling seconds) = 0%nat) by lia. now rewrite E'.
    + assert (Hpos : (0 < Qceiling seconds)%Z).
      { destruct (Z_lt_le_dec 0 (Qceiling seconds)) as [|Hn]; [assumption|exfalso].
        assert (H : seconds <= 0).
        { apply Qle_trans with (y := inject_Z (Qceiling seconds)); [apply Qle_ceiling|].
          change 0 with (inject_Z 0). now rewrite <- Zle_Qle. }
        apply Qle_bool_iff in H. congruence. }
      assert (En : Z.to_nat (Qceiling seconds) = S (Z.to_nat (Qceiling (seconds - 1))))
        by (rewrite Qceiling_pred; lia).
      rewrite En. simpl. f_equal. apply IH. lia.
Qed.

Lemma cooldownTimer_turns (seconds : Q) :
  Sweep.cooldownTimer seconds = repeat (Sweep.Sleep 1000) (Z.to_nat (Qceiling seconds)).
Proof. apply cooldownLoop_turns. lia. Qed.

Lemma notTheLast_last (xs : list Q) (x d : Q) :
  Sweep.notTheLast x (xs ++ [x]) = false.
Proof.
  unfold Sweep.notTheLast. destruct (xs ++ [x]) as [|y l] eqn:E.
  - now destruct xs.
  - rewrite <- E, last_last.
    assert (H : Qeq_bool x x = true) by (apply Qeq_bool_iff; reflexivity).
    now rewrite H.
Qed.

Lemma notTheLast_other (xs : list Q) (x z : Q) :
  ~ x == z -> Sweep.notTheLast x (xs ++ [z]) = true.
Proof.
  intros Hne. unfold Sweep.notTheLast. destruct (xs ++ [z]) as [|y l] eqn:E.
  - reflexivity.
  - rewrite <- E, last_last. destruct (Qeq_bool x z) eqn:Eq; [|reflexivity].
    apply Qeq_bool_iff in Eq. contradiction.
Qed.

Lemma all_differ_app (xs ys : list Q) :
  all_differ (xs ++ ys) ->
  all_differ ys /\ Forall (fun x => Forall (fun y => ~ x == y) ys) xs.
Proof.
  induction xs as [|x xs IH]; simpl; [now split|].
  intros [HF H]. destruct (IH H) as [Hy Hx]. split; [assumption|].
  constructor; [|assumption]. rewrite Forall_app in HF. apply HF.
Qed.

Section TimedFacts.
Variable J : string -> Js.Completion (list (string * string)).
Variable cooldown : Q.

(** The results of the timed sweep are those of the sweep. *)
Lemma steadyLoop_results (rates : list Q) (todo : list (Q * SteadyModeResult.t)) :
  snd (Sweep.steadyLoop J cooldown rates todo)
  = forEachPush (fun '(testRate, r) => sweepSteadyLevel J testRate r) todo.
Proof.
  induction todo as [|[testRate r] todo IH]; simpl; [reflexivity|].
  destruct (sweepSteadyLevel J testRate r) as [rr|e]; simpl; [|reflexivity].
  destruct (Sweep.steadyLoop J cooldown rates todo) as [steps rest]. simpl in *.
  now rewrite IH.
Qed.

Lemma burstLoop_results (sizes : list Q) (todo : list (Q * list RequestResult.t)) :
  snd (Sweep.burstLoop J cooldown sizes todo)
  = forEachPush (fun '(burstSize, rs) => sweepBurstLevel J burstSize rs) todo.
Proof.
  induction todo as [|[burstSize rs] todo IH]; simpl; [reflexivity|].
  destruct (sweepBurstLevel J burstSize rs) as [rr|e]; simpl; [|reflexivity].
  destruct (Sweep.burstLoop J cooldown sizes todo) as [steps rest]. simpl in *.
  now rewrite IH.
Qed.

Lemma timed_results
  (steadyLevels : list (Q * SteadyModeResult.t))
  (burstLevels : list (Q * list RequestResult.t)) :
  snd (Sweep.timed J cooldown steadyLevels burstLevels) = sweep J steadyLevels burstLevels.
Proof.
  unfold Sweep.timed, sweep.
  rewrite <- (steadyLoop_results (map fst steadyLevels)).
  rewrite <- (burstLoop_results (map fst burstLevels)).
  destruct (Sweep.steadyLoop J cooldown _ steadyLevels) as [s1 [a|e]]; simpl; [|reflexivity].
  destruct (Sweep.burstLoop J cooldown _ burstLevels) as [s2 b]. reflexivity.
Qed.

(** The steps of a loop that is not ended by a throw. *)
Lemma steadyLoop_steps (rates : list Q) (todo : list (Q * SteadyModeResult.t))
  (out : list RunResult.t) :
  snd (Sweep.steadyLoop J cooldown rates todo) = Js.Normal out ->
  fst (Sweep.steadyLoop J cooldown rates todo)
  = flat_map (fun rate => Sweep.SteadyRun rate ::
                if Sweep.notTheLast rate rates then Sweep.cooldownTimer cooldown else [])
      (map fst todo).
Proof.
  revert out. induction todo as [|[testRate r] todo IH]; intros out; simpl; [reflexivity|].
  destruct (sweepSteadyLevel J testRate r) as [rr|e]; simpl; [|discriminate].
  destruct (Sweep.steadyLoop J cooldown rates todo) as [steps [ys|e]]; simpl in *;
    [|discriminate].
  intros _. now rewrite (IH ys eq_refl).
Qed.

Lemma burstLoop_steps (sizes : list Q) (todo : list (Q * list RequestResult.t))
  (out : list RunResult.t) :
  snd (Sweep.burstLoop J cooldown sizes todo) = Js.Normal out ->
  fst (Sweep.burstLoop J cooldown sizes todo)
  = flat_map (fun size => Sweep.BurstRun size ::
                if Sweep.notTheLast size sizes then Sweep.cooldownTimer cooldown else [])
      (map fst todo).
Proof.
  revert out. induction todo as [|[burstSize rs] todo IH]; intros out; simpl; [reflexivity|].
  destruct (sweepBurstLevel J burstSize rs) as [rr|e]; simpl; [|discriminate].
  destruct (Sweep.burstLoop J cooldown sizes todo) as [steps [ys|e]]; simpl in *;
    [|discriminate].
  intros _. now rewrite (IH ys eq_refl).
Qed.

End TimedFacts.

(** With levels that all differ, the pauses fall between the levels. *)
Lemma pauses_between (run : Q -> Sweep.Step) (pause : list Sweep.Step) (xs : list Q) :
  all_differ xs ->
  flat_map (fun x => run x :: if Sweep.notTheLast x xs then pause else []) xs
  = paused_between pause (map run xs).
Proof.
  destruct xs as [|z xs] using rev_ind; [reflexivity|]. clear IHxs.
  intros Hd. apply all_differ_app in Hd as [_ Hd].
  assert (G : forall l, Forall (fun x => Forall (fun y => ~ x == y) [z]) l ->
            flat_map (fun x => run x :: if Sweep.notTheLast x (xs ++ [z]) then pause else [])
              (l ++ [z])
            = paused_between pause (map run (l ++ [z]))).
  { induction l as [|a l IH]; intros HF.
    - simpl. now rewrite (notTheLast_last xs z z).
    - inversion HF as [|? ? Ha HF']; subst. inversion Ha; subst.
      cbn [app flat_map map]. rewrite IH by assumption.
      rewrite notTheLast_other by assumption.
      cbn [app]. destruct (map run (l ++ [z])) eqn:E; [|reflexivity].
      destruct l; discriminate. }
  now apply G.
Qed.

(** X22.  A sweep that completes awaits its levels in the configured order,
    the steady ones first, with one cooldown between the steady part and the
    burst part and, when the rates all differ and the burst sizes all
    differ, one cooldown between each two levels of a part and none before
    the first level or after the last.  A cooldown sleeps one second at a
    time, [ceil cooldown] times, and the results are those of the sweep. *)
Theorem sweep_pauses_between_levels :
  forall (JSON_parse_entries : string -> Js.Completion (list (string * string)))
         (cooldown : Q)
         (steadyLevels : list (Q * SteadyModeResult.t))
         (burstLevels : list (Q * list RequestResult.t))
         (out : list RunResult.t * list RunResult.t),
    sweep JSON_parse_entries steadyLevels burstLevels = Js.Normal out ->
    all_differ (map fst steadyLevels) ->
    all_differ (map fst burstLevels) ->
    let pause := repeat (Sweep.Sleep 1000) (Z.to_nat (Qceiling cooldown)) in
    Sweep.cooldownTimer cooldown = pause /\
    Sweep.timed JSON_parse_entries cooldown steadyLevels burstLevels
    = (paused_between pause (map Sweep.SteadyRun (map fst steadyLevels))
       ++ pause
       ++ paused_between pause (map Sweep.BurstRun (map fst burstLevels)),
       Js.Normal out).
Proof.
  intros J cooldown steadyLevels burstLevels out Hrun Hs Hb pause.
  split; [apply cooldownTimer_turns|].
  pose proof (timed_results J cooldown steadyLevels burstLevels) as Hres.
  rewrite Hrun in Hres.
  pose proof (steadyLoop_steps J cooldown (map fst steadyLevels) steadyLevels) as Hs1.
  pose proof (burstLoop_steps J cooldown (map fst burstLevels) burstLevels) as Hb1.
  unfold Sweep.timed in *.
  destruct (Sweep.steadyLoop J cooldown _ steadyLevels) as [s1 [a|e]]; simpl in *;
    [|discriminate].
  destruct (Sweep.burstLoop J cooldown _ burstLevels) as [s2 [b|e]]; simpl in *;
    [|discriminate].
  rewrite (Hs1 a eq_refl), (Hb1 b eq_refl), Hres.
  rewrite !pauses_between by assumption.
  rewrite cooldownTimer_turns. reflexivity.
Qed.

(** The hypotheses of X22 hold on a sweep under the default settings: five
    rates, four burst sizes and a cooldown of thirty seconds, which makes
    eight pauses and two hundred and forty seconds of sleep. *)
Lemma sweep_pauses_between_levels_witness :
  exists (out : list RunResult.t * list RunResult.t) (steps : list Sweep.Step),
    sweep JSON_rejects default_steady_levels default_burst_levels = Js.Normal out /\
    Sweep.timed JSON_rejects 30 default_steady_levels default_burst_levels
    = (steps, Js.Normal out) /\
    length (filter (fun s => match s with Sweep.Sleep _ => true | _ => false end) steps)
    = 240%nat.
Proof.
  destruct (sweep JSON_rejects default_steady_levels default_burst_levels)
    as [out|e] eqn:E; [|vm_compute in E; discriminate].
  assert (Hs : all_differ (map fst default_steady_levels))
    by (vm_compute; repeat split; repeat constructor; discriminate).
  assert (Hb : all_differ (map fst default_burst_levels))
    by (vm_compute; repeat split; repeat constructor; discriminate).
  exists out. eexists. split; [reflexivity|].
  split; [exact (proj2 (sweep_pauses_between_levels JSON_rejects 30 _ _ E Hs Hb))|].
  vm_compute. reflexivity.
Defined.

(** ** The report generator: success rates and their colours *)

Lemma reduce_add_list_sum {A : Type} (f : A -> nat) (l : list A) (a : nat) :
  Js.reduce (fun acc r => (acc + f r)%nat) a l = (a + list_sum (map f l))%nat.
Proof.
  unfold Js.reduce. revert a. induction l as [|x l IH]; intros a; simpl; [lia|].
  rewrite IH. lia.
Qed.

(** Rates compared by cross-multiplication. *)
Lemma rate_le (s t S T : nat) :
  (0 < t)%nat -> (0 < T)%nat -> (s * T <= S * t)%nat ->
  inject_Z (Z.of_nat s) / inject_Z (Z.of_nat t) * 100
  <= inject_Z (Z.of_nat S) / inject_Z (Z.of_nat T) * 100.
Proof.
  intros Ht HT H.
  assert (Ht' : 0 < inject_Z (Z.of_nat t))
    by (change 0 with (inject_Z 0); rewrite <- Zlt_Qlt; lia).
  assert (HT' : 0 < inject_Z (Z.of_nat T))
    by (change 0 with (inject_Z 0); rewrite <- Zlt_Qlt; lia).
  apply Qmult_le_compat_r; [|discriminate].
  apply Qle_shift_div_l; [assumption|].
  unfold Qdiv. rewrite <- Qmult_assoc, (Qmult_comm (/ _)), Qmult_assoc.
  apply Qle_shift_div_r; [assumption|].
  rewrite <- !inject_Z_mult, <- Zle_Qle. lia.
Qed.

(** The rate of the sums lies between the rates of two of the summands. *)
Lemma rate_of_sums (l : list (nat * nat)) :
  l <> [] -> Forall (fun p => (0 < snd p)%nat) l ->
  let S := list_sum (map fst l) in
  let T := list_sum (map snd l) in
  (0 < T)%nat /\
  (exists p, In p l /\ (fst p * T <= S * snd p)%nat) /\
  (exists p, In p l /\ (S * snd p <= fst p * T)%nat).
Proof.
  induction l as [|[s t] l IH]; [congruence|]. intros _ HF.
  inversion HF as [|? ? Ht HF']; subst. cbn [snd] in Ht.
  destruct l as [|q l].
  { simpl. split; [lia|]. split; exists (s, t); (split; [now left|simpl; lia]). }
  destruct (IH ltac:(discriminate) HF') as (HT & (p1 & Hp1 & Hlo) & (p2 & Hp2 & Hhi)).
  set (l' := q :: l) in *. cbn zeta in *.
  change (list_sum (map fst ((s, t) :: l'))) with (s + list_sum (map fst l'))%nat.
  change (list_sum (map snd ((s, t) :: l'))) with (t + list_sum (map snd l'))%nat.
  set (S' := list_sum (map fst l')) in *. set (T' := list_sum (map snd l')) in *.
  assert (Hp1t : (0 < snd p1)%nat) by (rewrite Forall_forall in HF'; now apply HF').
  assert (Hp2t : (0 < snd p2)%nat) by (rewrite Forall_forall in HF'; now apply HF').
  split; [lia|]. split.
  - destruct (Nat.le_gt_cases (s * T') (S' * t)) as [Hle|Hgt].
    + exists (s, t). split; [now left|]. cbn [fst snd]. nia.
    + exists p1. split; [now right|].
      assert (fst p1 * t <= s * snd p1)%nat; [|nia].
      apply Nat.mul_le_mono_pos_r with (p := T'); [assumption|]. nia.
  - destruct (Nat.le_gt_cases (S' * t) (s * T')) as [Hle|Hgt].
    + exists (s, t). split; [now left|]. cbn [fst snd]. nia.
    + exists p2. split; [now right|].
      assert (s * snd p2 <= fst p2 * t)%nat; [|nia].
      apply Nat.mul_le_mono_pos_r with (p := T'); [assumption|]. nia.
Qed.

Lemma color_between (lo x hi : Q) (colour : string) :
  lo <= x -> x <= hi -> pctColor lo = colour -> pctColor hi = colour ->
  successColor x = colour.
Proof.
  unfold pctColor, successColor. intros Hlo Hhi.
  destruct (Qle_bool 95 lo) eqn:A1; [apply Qle_bool_iff in A1|].
  { intros <- _. assert (H : Qle_bool 95 x = true) by (apply Qle_bool_iff; lra).
    now rewrite H. }
  destruct (Qle_bool 95 hi) eqn:B1.
  { destruct (Qle_bool 80 lo); intros <-; discriminate. }
  assert (H95 : Qle_bool 95 x = false).
  { destruct (Qle_bool 95 x) eqn:E; [|reflexivity].
    apply Qle_bool_iff in E. assert (H : 95 <= hi) by lra.
    apply Qle_bool_iff in H. congruence. }
  rewrite H95.
  destruct (Qle_bool 80 lo) eqn:A2; [apply Qle_bool_iff in A2|].
  { intros <- _. assert (H : Qle_bool 80 x = true) by (apply Qle_bool_iff; lra).
    now rewrite H. }
  destruct (Qle_bool 80 hi) eqn:B2; [intros <-; discriminate|].
  intros <- _.
  destruct (Qle_bool 80 x) eqn:E; [|reflexivity].
  apply Qle_bool_iff in E. assert (H : 80 <= hi) by lra.
  apply Qle_bool_iff in H. congruence.
Qed.

(** X23.  In a report over runs that each recorded a request, the overall
    success rate is not below the success rate of every summary card and
    not above that of every card: it lies between the rates of two of the
    runs.  So when all the cards show their rate in one colour, the overall
    badge has that colour. *)
Theorem report_overall_rate_between_the_runs :
  forall data : TestData.t,
    Report.allResults data <> [] ->
    (forall r : RunResult.t,
        In r (Report.allResults data) -> (0 < RunResult.total (RunResult.requests r))%nat) ->
    (exists lowest highest : RunResult.t,
        In lowest (Report.allResults data) /\ In highest (Report.allResults data) /\
        successRate (RunResult.requests lowest) <= Report.overallSuccessRate data /\
        Report.overallSuccessRate data <= successRate (RunResult.requests highest)) /\
    (forall colour : string,
        (forall r : RunResult.t,
            In r (Report.allResults data) ->
            pctColor (successRate (RunResult.requests r)) = colour) ->
        successColor (Report.overallSuccessRate data) = colour).
Proof.
  intros data Hne Hpos.
  set (pair := fun r : RunResult.t =>
                 (RunResult.success (RunResult.requests r),
                  RunResult.total (RunResult.requests r))).
  assert (HF : Forall (fun p => (0 < snd p)%nat) (map pair (Report.allResults data))).
  { rewrite Forall_map, Forall_forall. intros r Hr. now apply Hpos. }
  assert (Hne' : map pair (Report.allResults data) <> [])
    by (destruct (Report.allResults data); [congruence|discriminate]).
  destruct (rate_of_sums Hne' HF) as (HT & (p1 & Hp1 & Hlo) & (p2 & Hp2 & Hhi)).
  assert (Es : map fst (map pair (Report.allResults data))
               = map (fun r => RunResult.success (RunResult.requests r))
                   (Report.allResults data)) by (now rewrite map_map).
  assert (Et : map snd (map pair (Report.allResults data))
               = map (fun r => RunResult.total (RunResult.requests r))
                   (Report.allResults data)) by (now rewrite map_map).
  rewrite Et in HT. rewrite Es, Et in Hlo. rewrite Es, Et in Hhi.
  apply in_map_iff in Hp1 as (r1 & <- & Hr1). apply in_map_iff in Hp2 as (r2 & <- & Hr2).
  cbn [pair fst snd] in Hlo, Hhi.
  assert (Eall : Report.overallSuccessRate data
                 = inject_Z (Z.of_nat (Report.totalSuccess data))
                   / inject_Z (Z.of_nat (Report.totalRequests data)) * 100).
  { unfold Report.overallSuccessRate.
    assert (E : (0 <? Report.totalRequests data)%nat = true).
    { apply Nat.ltb_lt. unfold Report.totalRequests. rewrite reduce_add_list_sum. exact HT. }
    now rewrite E. }
  assert (Erate : forall r, In r (Report.allResults data) ->
            successRate (RunResult.requests r)
            = inject_Z (Z.of_nat (RunResult.success (RunResult.requests r)))
              / inject_Z (Z.of_nat (RunResult.total (RunResult.requests r))) * 100).
  { intros r Hr. unfold successRate.
    assert (E : (0 <? RunResult.total (RunResult.requests r))%nat = true)
      by (apply Nat.ltb_lt; now apply Hpos).
    now rewrite E. }
  assert (Hbetween : successRate (RunResult.requests r1) <= Report.overallSuccessRate data /\
                     Report.overallSuccessRate data <= successRate (RunResult.requests r2)).
  { rewrite Eall, (Erate r1 Hr1), (Erate r2 Hr2).
    unfold Report.totalSuccess, Report.totalRequests. rewrite !reduce_add_list_sum.
    cbn [Nat.add]. split; apply rate_le; solve [assumption | now apply Hpos]. }
  split.
  - exists r1, r2. repeat split; try assumption; apply Hbetween.
  - intros colour Hall.
    apply (@color_between (successRate (RunResult.requests r1)) _
             (successRate (RunResult.requests r2))); try apply Hbetween; now apply Hall.
Qed.

Lemma report_overall_rate_between_the_runs_witness :
  Report.overallSuccessRate two_blames == 25 /\
  successColor (Report.overallSuccessRate two_blames) = "#ef5350"%string.
Proof.
  split; [vm_compute; reflexivity|].
  assert (Hne : Report.allResults two_blames <> []) by discriminate.
  assert (Hpos : forall r, In r (Report.allResults two_blames) ->
                           (0 < RunResult.total (RunResult.requests r))%nat).
  { intros r [<-|[<-|[]]]; cbn; lia. }
  apply (proj2 (report_overall_rate_between_the_runs two_blames Hne Hpos)).
  intros r [<-|[<-|[]]]; reflexivity.
Defined.
